(** * ODANGO desktop pet: animation scheduler and interaction mode

    A shallow embedding of the two TypeScript modules that drive the
    companion window, and of the request limiter of the client:

    - the pet animation module ([PetController], [MultiPetManager]);
    - the interaction-mode module (hotkey hold detection, window drag,
      window resize, pet drag);
    - the rate-limit module (pair-code, logout, login and API request
      limits).

    Modelling conventions.

    - A JavaScript [number] is a rational [Q]: arithmetic is exact, there is
      no NaN and no infinity.  Comparisons are the boolean tests of [Q].
    - [Math.random()] reads the next entry of a tape of draws kept in the
      ambient environment; a call on an empty tape has no result.  This is
      the only source of partiality: the redraw loop of [pickNewTarget] is
      the only unbounded loop of the code.
    - [Date.now()] reads the environment clock, constant during one
      synchronous call.
    - DOM elements live in a store indexed by handles; an object that holds
      an [HTMLElement] holds its handle, so two holders of one element see
      each other's writes.
    - A JavaScript [Map] is an association list in insertion order.
    - An [async] handler runs to completion as one step.
    - Time is a timestamp on every delivered event.  A [setTimeout] request
      waits in a list with its due time; when an event is delivered, the
      requests that are due run first, each once.
    - The store of the request limiter is the value it holds under one key;
      every call comes with what the host does during it: the time
      [Date.now()] returns, and whether reading and writing the store
      succeed ([set] and [save] succeed or fail together). *)

From Stdlib Require Import QArith Qabs Qround Qminmax Lqa ZArith Lia List String Bool.
From stdpp Require Import gmap strings.

Open Scope Q_scope.

(** ** Numbers *)

Module Math.

Definition max (a b : Q) : Q := Qmax a b.
Definition min (a b : Q) : Q := Qmin a b.
Definition abs (a : Q) : Q := Qabs a.

(** [Math.round]: nearest integer, halves towards plus infinity. *)
Definition round (a : Q) : Z := Qfloor (a + (1 # 2)).

#[global] Arguments max : simpl never.
#[global] Arguments min : simpl never.
#[global] Arguments abs : simpl never.
#[global] Arguments round : simpl never.

End Math.

(** Strict comparison [a < b] as a boolean. *)
Definition Qltb (a b : Q) : bool := negb (Qle_bool b a).

(** ** Data that arrives from the server *)

Module Types.

(** ['left' | 'right']: the side the sprite artwork looks at. *)
Inductive SpriteFacing := left | right.

(** Modelled from the spec: the entity descriptor of the snapshot feed,
    [{id, scale, visualReference, stage, defaultFacing}]; the declaration
    file is not part of the sources.  [defaultFacing] may be absent. *)
Record PetState := {
  odangoId : string;
  scale : Q;
  spritePath : string;
  stage : string;
  defaultFacing : option SpriteFacing
}.

End Types.

(** ** The document *)

Module Dom.

(** The part of an [HTMLElement] that the two modules read or write. *)
Record Element := {
  classList : gset string;
  datasetPetId : option string;
  styleLeft : Q;
  styleSize : option Z;
  cssWidth : Z;
  styleCursor : string;
  styleBackgroundColor : string;
  styleBorderRadius : string;
  attached : bool
}.

#[global] Instance Element_inhabited : Inhabited Element :=
  populate {| classList := ∅; datasetPetId := None; styleLeft := 0;
              styleSize := None; cssWidth := 0; styleCursor := "";
              styleBackgroundColor := ""; styleBorderRadius := "";
              attached := false |}.

Definition set_classList (v : gset string) (el : Element) : Element :=
  {| classList := v; datasetPetId := datasetPetId el; styleLeft := styleLeft el;
     styleSize := styleSize el; cssWidth := cssWidth el;
     styleCursor := styleCursor el;
     styleBackgroundColor := styleBackgroundColor el;
     styleBorderRadius := styleBorderRadius el; attached := attached el |}.

Definition set_styleLeft (v : Q) (el : Element) : Element :=
  {| classList := classList el; datasetPetId := datasetPetId el; styleLeft := v;
     styleSize := styleSize el; cssWidth := cssWidth el;
     styleCursor := styleCursor el;
     styleBackgroundColor := styleBackgroundColor el;
     styleBorderRadius := styleBorderRadius el; attached := attached el |}.

Definition set_styleSize (v : option Z) (el : Element) : Element :=
  {| classList := classList el; datasetPetId := datasetPetId el;
     styleLeft := styleLeft el; styleSize := v; cssWidth := cssWidth el;
     styleCursor := styleCursor el;
     styleBackgroundColor := styleBackgroundColor el;
     styleBorderRadius := styleBorderRadius el; attached := attached el |}.

Definition set_styleCursor (v : string) (el : Element) : Element :=
  {| classList := classList el; datasetPetId := datasetPetId el;
     styleLeft := styleLeft el; styleSize := styleSize el;
     cssWidth := cssWidth el; styleCursor := v;
     styleBackgroundColor := styleBackgroundColor el;
     styleBorderRadius := styleBorderRadius el; attached := attached el |}.

Definition set_placeholder (color radius : string) (el : Element) : Element :=
  {| classList := classList el; datasetPetId := datasetPetId el;
     styleLeft := styleLeft el; styleSize := styleSize el;
     cssWidth := cssWidth el; styleCursor := styleCursor el;
     styleBackgroundColor := color; styleBorderRadius := radius;
     attached := attached el |}.

Definition set_attached (v : bool) (el : Element) : Element :=
  {| classList := classList el; datasetPetId := datasetPetId el;
     styleLeft := styleLeft el; styleSize := styleSize el;
     cssWidth := cssWidth el; styleCursor := styleCursor el;
     styleBackgroundColor := styleBackgroundColor el;
     styleBorderRadius := styleBorderRadius el; attached := v |}.

(** [el.classList.add(c)], [el.classList.remove(c)], [el.classList.contains(c)]. *)
Definition classList_add (c : string) (el : Element) : Element :=
  set_classList (classList el ∪ {[c]}) el.
Definition classList_remove (c : string) (el : Element) : Element :=
  set_classList (classList el ∖ {[c]}) el.
Definition classList_contains (c : string) (el : Element) : bool :=
  bool_decide (c ∈ classList el).

(** Layout.  The pet elements are absolutely positioned boxes without border
    or padding: an inline width wins over the style sheet, and [offsetLeft]
    is the inline [left] rounded to a whole pixel. *)
Definition offsetWidth (el : Element) : Z :=
  match styleSize el with Some w => w | None => cssWidth el end.
Definition offsetLeft (el : Element) : Z := Math.round (styleLeft el).

End Dom.

(** ** The ambient environment of one synchronous call *)

Module Runtime.

Record Env := {
  dom : gmap nat Dom.Element;          (* the elements, by handle *)
  nextNode : nat;                      (* handle of the next created element *)
  random : list Q;                     (* the draws Math.random() will return *)
  clock : Q;                           (* Date.now(), in milliseconds *)
  frameCount : nat;                    (* ids handed out by requestAnimationFrame *)
  globalScreenScaleFactor : Q;         (* module variable of the pet module *)
  petCssWidth : Z                      (* width the style sheet gives a .pet box *)
}.

Definition set_dom (v : gmap nat Dom.Element) (e : Env) : Env :=
  {| dom := v; nextNode := nextNode e; random := random e; clock := clock e;
     frameCount := frameCount e;
     globalScreenScaleFactor := globalScreenScaleFactor e;
     petCssWidth := petCssWidth e |}.

Definition set_nextNode (v : nat) (e : Env) : Env :=
  {| dom := dom e; nextNode := v; random := random e; clock := clock e;
     frameCount := frameCount e;
     globalScreenScaleFactor := globalScreenScaleFactor e;
     petCssWidth := petCssWidth e |}.

Definition set_random (v : list Q) (e : Env) : Env :=
  {| dom := dom e; nextNode := nextNode e; random := v; clock := clock e;
     frameCount := frameCount e;
     globalScreenScaleFactor := globalScreenScaleFactor e;
     petCssWidth := petCssWidth e |}.

Definition set_clock (v : Q) (e : Env) : Env :=
  {| dom := dom e; nextNode := nextNode e; random := random e; clock := v;
     frameCount := frameCount e;
     globalScreenScaleFactor := globalScreenScaleFactor e;
     petCssWidth := petCssWidth e |}.

Definition set_frameCount (v : nat) (e : Env) : Env :=
  {| dom := dom e; nextNode := nextNode e; random := random e; clock := clock e;
     frameCount := v;
     globalScreenScaleFactor := globalScreenScaleFactor e;
     petCssWidth := petCssWidth e |}.

(** A computation that reads and writes the environment and may run out of
    random draws. *)
Definition M (A : Type) : Type := Env -> option (A * Env).

Definition ret {A : Type} (a : A) : M A := fun e => Some (a, e).

Definition bind {A B : Type} (m : M A) (k : A -> M B) : M B :=
  fun e => match m e with
           | Some (a, e') => k a e'
           | None => None
           end.

(** A step that only writes the environment. *)
Definition modify (f : Env -> Env) : M unit := fun e => Some (tt, f e).

(** A step that only reads it. *)
Definition gets {A : Type} (f : Env -> A) : M A := fun e => Some (f e, e).

(** The element behind a handle, and an in-place write to it. *)
Definition element_at (h : nat) (e : Env) : Dom.Element := dom e !!! h.

Definition update_element (h : nat) (f : Dom.Element -> Dom.Element) (e : Env) : Env :=
  set_dom (<[h := f (element_at h e)]> (dom e)) e.

(** [Math.random()]. *)
Definition Math_random : M Q :=
  fun e => match random e with
           | [] => None
           | r :: rest => Some (r, set_random rest e)
           end.

(** [Date.now()]. *)
Definition Date_now : M Q := gets clock.

(** [requestAnimationFrame(callback)]: the id of the request. *)
Definition requestAnimationFrame : M nat :=
  fun e => Some (S (frameCount e), set_frameCount (S (frameCount e)) e).

(** [document.createElement('div')] followed by the initial attributes. *)
Definition createElement (el : Dom.Element) : M nat :=
  fun e => Some (nextNode e,
                 set_nextNode (S (nextNode e)) (set_dom (<[nextNode e := el]> (dom e)) e)).

(** Monadic left fold, the shape of a [for ... of] loop. *)
Fixpoint foldM {A B : Type} (f : A -> B -> M A) (l : list B) (a : A) : M A :=
  match l with
  | [] => ret a
  | b :: l' => bind (f a b) (foldM f l')
  end.

End Runtime.

Notation "'do' x <- m ; k" := (Runtime.bind m (fun x => k))
  (at level 10, x name, m at level 100, k at level 200).
Notation "'run' m ; k" := (Runtime.bind m (fun _ => k))
  (at level 10, m at level 100, k at level 200).

(** ** pet.ts: one pet *)

Module PetController.

Import Runtime.

(** [SPEED_MIN], [SPEED_MAX], [SPEED_DEFAULT]. *)
Definition SPEED_MIN : Q := 3 # 10.
Definition SPEED_MAX : Q := 2.
Definition SPEED_DEFAULT : Q := 1.

(** [BASE_PET_SIZE], [BASE_DISPLAY_MULTIPLIER]. *)
Definition BASE_PET_SIZE : Q := 64.
Definition BASE_DISPLAY_MULTIPLIER : Q := 3 # 2.

(** The literal type [1 | -1] of the field [direction]. *)
Inductive Direction := Forward | Backward.

Definition sign (d : Direction) : Q :=
  match d with Forward => 1 | Backward => -1 end.

Record t := {
  element : nat;
  containerWidth : Q;
  x : Q;
  direction : Direction;
  baseSpeed : Q;
  scale : Q;
  animationFrameId : option nat;
  isPaused : bool;
  isMovementEnabled : bool;
  petId : string;
  spritePath : string;
  stage : string;
  defaultFacing : Types.SpriteFacing;
  targetX : Q;
  isResting : bool;
  restEndTime : Q;
  speedMultiplier : Q
}.

Definition set_containerWidth (v : Q) (c : t) : t :=
  {| element := element c; containerWidth := v; x := x c;
     direction := direction c; baseSpeed := baseSpeed c; scale := scale c;
     animationFrameId := animationFrameId c; isPaused := isPaused c;
     isMovementEnabled := isMovementEnabled c; petId := petId c;
     spritePath := spritePath c; stage := stage c;
     defaultFacing := defaultFacing c; targetX := targetX c;
     isResting := isResting c; restEndTime := restEndTime c;
     speedMultiplier := speedMultiplier c |}.

Definition set_x (v : Q) (c : t) : t :=
  {| element := element c; containerWidth := containerWidth c; x := v;
     direction := direction c; baseSpeed := baseSpeed c; scale := scale c;
     animationFrameId := animationFrameId c; isPaused := isPaused c;
     isMovementEnabled := isMovementEnabled c; petId := petId c;
     spritePath := spritePath c; stage := stage c;
     defaultFacing := defaultFacing c; targetX := targetX c;
     isResting := isResting c; restEndTime := restEndTime c;
     speedMultiplier := speedMultiplier c |}.

(** The two assignments that end [pickNewTarget]. *)
Definition set_target (target : Q) (d : Direction) (c : t) : t :=
  {| element := element c; containerWidth := containerWidth c; x := x c;
     direction := d; baseSpeed := baseSpeed c; scale := scale c;
     animationFrameId := animationFrameId c; isPaused := isPaused c;
     isMovementEnabled := isMovementEnabled c; petId := petId c;
     spritePath := spritePath c; stage := stage c;
     defaultFacing := defaultFacing c; targetX := target;
     isResting := isResting c; restEndTime := restEndTime c;
     speedMultiplier := speedMultiplier c |}.

Definition set_baseSpeed (v : Q) (c : t) : t :=
  {| element := element c; containerWidth := containerWidth c; x := x c;
     direction := direction c; baseSpeed := v; scale := scale c;
     animationFrameId := animationFrameId c; isPaused := isPaused c;
     isMovementEnabled := isMovementEnabled c; petId := petId c;
     spritePath := spritePath c; stage := stage c;
     defaultFacing := defaultFacing c; targetX := targetX c;
     isResting := isResting c; restEndTime := restEndTime c;
     speedMultiplier := speedMultiplier c |}.

Definition set_animationFrameId (v : option nat) (c : t) : t :=
  {| element := element c; containerWidth := containerWidth c; x := x c;
     direction := direction c; baseSpeed := baseSpeed c; scale := scale c;
     animationFrameId := v; isPaused := isPaused c;
     isMovementEnabled := isMovementEnabled c; petId := petId c;
     spritePath := spritePath c; stage := stage c;
     defaultFacing := defaultFacing c; targetX := targetX c;
     isResting := isResting c; restEndTime := restEndTime c;
     speedMultiplier := speedMultiplier c |}.

Definition set_isPaused (v : bool) (c : t) : t :=
  {| element := element c; containerWidth := containerWidth c; x := x c;
     direction := direction c; baseSpeed := baseSpeed c; scale := scale c;
     animationFrameId := animationFrameId c; isPaused := v;
     isMovementEnabled := isMovementEnabled c; petId := petId c;
     spritePath := spritePath c; stage := stage c;
     defaultFacing := defaultFacing c; targetX := targetX c;
     isResting := isResting c; restEndTime := restEndTime c;
     speedMultiplier := speedMultiplier c |}.

Definition set_isMovementEnabled (v : bool) (c : t) : t :=
  {| element := element c; containerWidth := containerWidth c; x := x c;
     direction := direction c; baseSpeed := baseSpeed c; scale := scale c;
     animationFrameId := animationFrameId c; isPaused := isPaused c;
     isMovementEnabled := v; petId := petId c;
     spritePath := spritePath c; stage := stage c;
     defaultFacing := defaultFacing c; targetX := targetX c;
     isResting := isResting c; restEndTime := restEndTime c;
     speedMultiplier := speedMultiplier c |}.

(** The two assignments of [startResting], and the one that ends a rest. *)
Definition set_resting (resting : bool) (until : Q) (c : t) : t :=
  {| element := element c; containerWidth := containerWidth c; x := x c;
     direction := direction c; baseSpeed := baseSpeed c; scale := scale c;
     animationFrameId := animationFrameId c; isPaused := isPaused c;
     isMovementEnabled := isMovementEnabled c; petId := petId c;
     spritePath := spritePath c; stage := stage c;
     defaultFacing := defaultFacing c; targetX := targetX c;
     isResting := resting; restEndTime := until;
     speedMultiplier := speedMultiplier c |}.

(** The five assignments that open [updateState]. *)
Definition set_state (state : Types.PetState) (c : t) : t :=
  {| element := element c; containerWidth := containerWidth c; x := x c;
     direction := direction c; baseSpeed := baseSpeed c;
     scale := Types.scale state;
     animationFrameId := animationFrameId c; isPaused := isPaused c;
     isMovementEnabled := isMovementEnabled c;
     petId := Types.odangoId state;
     spritePath := Types.spritePath state;
     stage := Types.stage state;
     defaultFacing := match Types.defaultFacing state with
                      | Some f => f
                      | None => Types.left
                      end;
     targetX := targetX c;
     isResting := isResting c; restEndTime := restEndTime c;
     speedMultiplier := speedMultiplier c |}.

(** [this.element.offsetWidth || 64]. *)
Definition petWidth (c : t) (e : Env) : Q :=
  let w := Dom.offsetWidth (element_at (element c) e) in
  if (w =? 0)%Z then 64 else inject_Z w.

(** [updatePosition]. *)
Definition updatePosition (c : t) : M unit :=
  modify (update_element (element c) (Dom.set_styleLeft (x c))).

Definition is_left (f : Types.SpriteFacing) : bool :=
  match f with Types.left => true | Types.right => false end.
Definition is_right (f : Types.SpriteFacing) : bool :=
  match f with Types.left => false | Types.right => true end.
Definition is_forward (d : Direction) : bool :=
  match d with Forward => true | Backward => false end.
Definition is_backward (d : Direction) : bool :=
  match d with Forward => false | Backward => true end.

(** The local [needsFlip] of [updateDirection]. *)
Definition needsFlip (c : t) : bool :=
  (is_left (defaultFacing c) && is_forward (direction c))
  || (is_right (defaultFacing c) && is_backward (direction c)).

(** [updateDirection]: the class [facing-right] mirrors the sprite. *)
Definition updateDirection (c : t) : M unit :=
  if needsFlip c then
    modify (update_element (element c)
              (fun el => Dom.classList_remove "facing-left"
                           (Dom.classList_add "facing-right" el)))
  else
    modify (update_element (element c)
              (fun el => Dom.classList_remove "facing-right"
                           (Dom.classList_add "facing-left" el))).

(** The redraw loop of [pickNewTarget]: draw, and draw again while the draw
    is closer than 50 to [x] and the range is wider than 100. *)
Fixpoint drawTarget (minX maxX x : Q) (tape : list Q) : option (Q * list Q) :=
  match tape with
  | [] => None
  | r :: rest =>
      let newTarget := minX + r * (maxX - minX) in
      if Qltb (Math.abs (newTarget - x)) 50 && Qltb 100 (maxX - minX)
      then drawTarget minX maxX x rest
      else Some (newTarget, rest)
  end.

(** [pickNewTarget]. *)
Definition pickNewTarget (c : t) : M t :=
  do petWidth <- gets (petWidth c);
  let margin := 20 in
  let minX := margin in
  let maxX := containerWidth c - petWidth - margin in
  do newTarget <- (fun e => match drawTarget minX maxX (x c) (random e) with
                            | Some (target, rest) => Some (target, set_random rest e)
                            | None => None
                            end);
  let c := set_target newTarget
             (if Qltb (x c) newTarget then Forward else Backward) c in
  run updateDirection c;
  ret c.

(** [startResting]. *)
Definition startResting (c : t) : M t :=
  do r <- Math_random;
  let restDuration := 2000 + r * 6000 in
  do now <- Date_now;
  run modify (update_element (element c) (Dom.classList_remove "walking"));
  ret (set_resting true (now + restDuration) c).

(** [isEgg]. *)
Definition isEgg (c : t) : bool := String.eqb (stage c) "egg".

(** [updateSprite]: the placeholder fill.  The promise that later swaps in
    the downloaded image is a separate task and only writes the background. *)
Definition updateSprite (c : t) : M unit :=
  if negb (String.eqb (spritePath c) "") then
    modify (update_element (element c) (Dom.set_placeholder "#7c3aed" "50%"))
  else ret tt.

(** [updateScale].  A negative width is not a valid CSS length and the
    assignment is dropped by the browser. *)
Definition updateScale (c : t) : M unit :=
  do factor <- gets globalScreenScaleFactor;
  let effectiveScale := scale c * BASE_DISPLAY_MULTIPLIER * factor in
  let size := Math.round (BASE_PET_SIZE * effectiveScale) in
  if (size <? 0)%Z then ret tt
  else modify (update_element (element c) (Dom.set_styleSize (Some size))).

(** [updateState]. *)
Definition updateState (state : Types.PetState) (c : t) : M t :=
  let c := set_state state c in
  run updateSprite c;
  run updateScale c;
  run updateDirection c;
  ret c.

(** [setSpeed]. *)
Definition setSpeed (speed : Q) (c : t) : t :=
  set_baseSpeed (Math.max SPEED_MIN (Math.min SPEED_MAX speed)) c.

(** [animate], one tick of the animation loop. *)
Definition animate (c : t) : M t :=
  if isEgg c then
    do id <- requestAnimationFrame;
    ret (set_animationFrameId (Some id) c)
  else
    do c <- (if negb (isPaused c) && isMovementEnabled c then
               do now <- Date_now;
               if isResting c then
                 if Qle_bool (restEndTime c) now then
                   do c <- pickNewTarget (set_resting false (restEndTime c) c);
                   run modify (update_element (element c) (Dom.classList_add "walking"));
                   ret c
                 else ret c
               else
                 let effectiveSpeed := baseSpeed c * speedMultiplier c in
                 let c := set_x (x c + effectiveSpeed * sign (direction c)) c in
                 do petWidth <- gets (petWidth c);
                 let margin := 10 in
                 do c <- (if Qle_bool (x c) margin then
                            do c <- startResting (set_x margin c);
                            pickNewTarget c
                          else if Qle_bool (containerWidth c - petWidth - margin) (x c) then
                            do c <- startResting
                                      (set_x (containerWidth c - petWidth - margin) c);
                            pickNewTarget c
                          else ret c);
                 let distanceToTarget := Math.abs (x c - targetX c) in
                 do c <- (if Qltb distanceToTarget (effectiveSpeed * 2)
                          then startResting c else ret c);
                 run updatePosition c;
                 ret c
             else ret c);
    do id <- requestAnimationFrame;
    ret (set_animationFrameId (Some id) c).

(** [start]: the first tick runs at once. *)
Definition start (c : t) : M t :=
  match animationFrameId c with
  | Some _ => ret c
  | None =>
      run modify (update_element (element c) (Dom.classList_add "walking"));
      animate c
  end.

(** [stop].  The browser's queue of frame requests is not modelled: a
    cancelled request is one whose tick is never delivered. *)
Definition stop (c : t) : M t :=
  let c := match animationFrameId c with
           | Some _ => set_animationFrameId None c
           | None => c
           end in
  run modify (update_element (element c) (Dom.classList_remove "walking"));
  ret c.

(** [togglePause]. *)
Definition togglePause (c : t) : M t :=
  let c := set_isPaused (negb (isPaused c)) c in
  run (if isPaused c
       then modify (update_element (element c) (Dom.classList_remove "walking"))
       else modify (update_element (element c) (Dom.classList_add "walking")));
  ret c.

(** [clampPositionToContainer]. *)
Definition clampPositionToContainer (c : t) : M t :=
  do petWidth <- gets (petWidth c);
  let margin := 10 in
  let maxX := containerWidth c - petWidth - margin in
  if Qltb maxX (x c) then
    let c := set_x (Math.max margin maxX) c in
    run updatePosition c;
    if negb (isResting c) && negb (isEgg c) then pickNewTarget c else ret c
  else ret c.

(** [setContainerWidth]. *)
Definition setContainerWidth (width : Q) (c : t) : M t :=
  clampPositionToContainer (set_containerWidth width c).

(** [syncPosition], called after the pet was dragged from outside. *)
Definition syncPosition (c : t) : M t :=
  do el <- gets (element_at (element c));
  let c := set_x (inject_Z (Dom.offsetLeft el)) c in
  if negb (isEgg c) && negb (isResting c) then pickNewTarget c else ret c.

(** [setMovementEnabled]. *)
Definition setMovementEnabled (enabled : bool) (c : t) : M t :=
  let c := set_isMovementEnabled enabled c in
  run (if negb enabled then
         modify (update_element (element c) (Dom.classList_remove "walking"))
       else if negb (isPaused c) && bool_decide (animationFrameId c <> None) then
         modify (update_element (element c) (Dom.classList_add "walking"))
       else ret tt);
  ret c.

(** [setPosition], [getPosition]. *)
Definition setPosition (v : Q) (c : t) : M t :=
  let c := set_x v c in
  run updatePosition c;
  ret c.

Definition getPosition (c : t) : Q := x c.

(** [destroy]. *)
Definition destroy (c : t) : M unit :=
  do c <- stop c;
  modify (update_element (element c) (Dom.set_attached false)).

(** The constructor: field initialisers first, then the body. *)
Definition new (element : nat) (containerWidth : Q) (initialX : option Q) : M t :=
  do x <- match initialX with
          | Some v => ret v
          | None => do r <- Math_random; ret (r * (containerWidth - 100) + 50)
          end;
  do r <- Math_random;
  let direction := if Qltb (1 # 2) r then Forward else Backward in
  do r <- Math_random;
  let speedMultiplier := (8 # 10) + r * (4 # 10) in
  let c := {| element := element; containerWidth := containerWidth; x := x;
              direction := direction; baseSpeed := SPEED_DEFAULT; scale := 1;
              animationFrameId := None; isPaused := false;
              isMovementEnabled := true; petId := ""; spritePath := "";
              stage := "egg"; defaultFacing := Types.left; targetX := 0;
              isResting := false; restEndTime := 0;
              speedMultiplier := speedMultiplier |} in
  do c <- pickNewTarget c;
  run updatePosition c;
  run updateDirection c;
  ret c.

End PetController.

(** ** A JavaScript [Map] with string keys, in insertion order *)

Module JsMap.

Section Ops.
Context {V : Type}.

Definition get (k : string) (m : list (string * V)) : option V :=
  match find (fun kv => String.eqb (fst kv) k) m with
  | Some kv => Some (snd kv)
  | None => None
  end.

Definition has (k : string) (m : list (string * V)) : bool :=
  existsb (fun kv => String.eqb (fst kv) k) m.

(** [m.set(k, v)]: an existing key keeps its place. *)
Fixpoint set (k : string) (v : V) (m : list (string * V)) : list (string * V) :=
  match m with
  | [] => [(k, v)]
  | kv :: m' => if String.eqb (fst kv) k then (k, v) :: m' else kv :: set k v m'
  end.

Definition delete (k : string) (m : list (string * V)) : list (string * V) :=
  List.filter (fun kv => negb (String.eqb (fst kv) k)) m.

Definition keys (m : list (string * V)) : list string := List.map fst m.

End Ops.

End JsMap.

(** ** pet.ts: the registry of pets *)

Module MultiPetManager.

Import Runtime.

(** [PetDisplaySettings]. *)
Record PetDisplaySettings := {
  movementEnabled : bool;
  movementSpeed : Q
}.

Record t := {
  container : nat;
  containerWidth : Q;
  controllers : list (string * PetController.t);
  petSettingsGetter : option (string -> PetDisplaySettings)
}.

Definition set_controllers (v : list (string * PetController.t)) (m : t) : t :=
  {| container := container m; containerWidth := containerWidth m;
     controllers := v; petSettingsGetter := petSettingsGetter m |}.

Definition set_containerWidth (v : Q) (m : t) : t :=
  {| container := container m; containerWidth := v;
     controllers := controllers m; petSettingsGetter := petSettingsGetter m |}.

(** The constructor. *)
Definition new (container : nat) (containerWidth : Q) : t :=
  {| container := container; containerWidth := containerWidth;
     controllers := []; petSettingsGetter := None |}.

(** [setPetSettingsGetter]. *)
Definition setPetSettingsGetter (getter : string -> PetDisplaySettings) (m : t) : t :=
  {| container := container m; containerWidth := containerWidth m;
     controllers := controllers m; petSettingsGetter := Some getter |}.

(** A method call on the controller stored under [petId]: the object in the
    map is mutated in place. *)
Definition call (petId : string) (method : PetController.t -> M PetController.t)
    (m : t) : M t :=
  match JsMap.get petId (controllers m) with
  | Some controller =>
      do controller <- method controller;
      ret (set_controllers (JsMap.set petId controller (controllers m)) m)
  | None => ret m
  end.


(** [addPet].  The click listener only forwards to the click callback and
    is left out. *)
Definition addPet (pet : Types.PetState) (m : t) : M t :=
  do width <- gets petCssWidth;
  do element <- createElement
                  {| Dom.classList := {["pet"%string]};
                     Dom.datasetPetId := Some (Types.odangoId pet);
                     Dom.styleLeft := 0; Dom.styleSize := None;
                     Dom.cssWidth := width; Dom.styleCursor := "";
                     Dom.styleBackgroundColor := ""; Dom.styleBorderRadius := "";
                     Dom.attached := true |};
  do controller <- PetController.new element (containerWidth m) None;
  do controller <- PetController.updateState pet controller;
  do controller <- match petSettingsGetter m with
                   | Some getter =>
                       let settings := getter (Types.odangoId pet) in
                       do controller <- PetController.setMovementEnabled
                                          (movementEnabled settings) controller;
                       ret (PetController.setSpeed (movementSpeed settings) controller)
                   | None => ret controller
                   end;
  do controller <- PetController.start controller;
  ret (set_controllers (JsMap.set (Types.odangoId pet) controller (controllers m)) m).

(** [removePet]. *)
Definition removePet (petId : string) (m : t) : M t :=
  match JsMap.get petId (controllers m) with
  | Some controller =>
      run PetController.destroy controller;
      ret (set_controllers (JsMap.delete petId (controllers m)) m)
  | None => ret m
  end.

(** [updatePets]: tear down the pets that left the list, then add or
    refresh the listed ones in list order. *)
Definition updatePets (pets : list Types.PetState) (m : t) : M t :=
  let currentIds := JsMap.keys (controllers m) in
  let newIds := List.map Types.odangoId pets in
  do m <- foldM (fun m id =>
                   if negb (existsb (String.eqb id) newIds)
                   then removePet id m else ret m)
                currentIds m;
  foldM (fun m pet =>
           if JsMap.has (Types.odangoId pet) (controllers m)
           then call (Types.odangoId pet) (PetController.updateState pet) m
           else addPet pet m)
        pets m.

(** [setContainerWidth]. *)
Definition setContainerWidth (width : Q) (m : t) : M t :=
  let m := set_containerWidth width m in
  foldM (fun m id => call id (PetController.setContainerWidth width) m)
        (JsMap.keys (controllers m)) m.

(** [syncPetPosition]. *)
Definition syncPetPosition (petId : string) (m : t) : M t :=
  call petId PetController.syncPosition m.

(** [getPetCount]. *)
Definition getPetCount (m : t) : nat := length (controllers m).

(** A [for ... of this.controllers.values()] loop: the stored controllers
    in insertion order, each mutated in place by the loop body. *)
Fixpoint forEachController (body : PetController.t -> M PetController.t)
    (cs : list (string * PetController.t)) : M (list (string * PetController.t)) :=
  match cs with
  | [] => ret []
  | (id, controller) :: cs' =>
      do controller <- body controller;
      do cs' <- forEachController body cs';
      ret ((id, controller) :: cs')
  end.

(** [startAll], [stopAll]. *)
Definition startAll (m : t) : M t :=
  do cs <- forEachController PetController.start (controllers m);
  ret (set_controllers cs m).

Definition stopAll (m : t) : M t :=
  do cs <- forEachController PetController.stop (controllers m);
  ret (set_controllers cs m).

(** [clear], and [destroy], which only calls it. *)
Definition clear (m : t) : M t :=
  do _ <- forEachController
            (fun controller => run PetController.destroy controller; ret controller)
            (controllers m);
  ret (set_controllers [] m).

Definition destroy (m : t) : M t := clear m.

End MultiPetManager.

(** ** interaction.ts: hotkey, window drag and resize, pet drag *)

Module Interaction.

Import Runtime.

(** [HOLD_DURATION_MS]. *)
Definition HOLD_DURATION_MS : Q := 500.

(** The literal type ['left' | 'right'] of [resizeDirection]. *)
Inductive ResizeDirection := resize_left | resize_right.

(** The module variables, grouped as in the source. *)
Record ModeState := {
  isInteractionMode : bool;
  hotkeyPressedAt : option Q;
  holdCheckTimer : option nat
}.

Record UiElements := {
  borderOverlay : option nat;
  resizeHandles : list nat
}.

Record WindowInfo := {
  windowWidth : Q;
  windowHeight : Q
}.

Record DragState := {
  isDragging : bool;
  isResizing : bool;
  isDraggingPet : bool;
  resizeDirection : option ResizeDirection;
  dragStartX : Q;
  dragStartY : Q;
  windowStartX : Q;
  windowStartY : Q;
  windowStartWidth : Q
}.

Record PetDragState := {
  draggingPetElement : option nat;
  petStartX : Q
}.

(** Which of the two callbacks were handed to [initInteractionMode]. *)
Record Callbacks := {
  onWindowConfigChange : bool;
  onPetPositionChange : bool
}.

(** The host window, in logical coordinates. *)
Record Window := {
  positionX : Q;
  positionY : Q;
  sizeWidth : Q;
  sizeHeight : Q;
  ignoreCursorEvents : bool;
  shown : bool
}.

(** The module state together with the host state it acts on.  [timers]
    holds the pending [setTimeout] requests as (id, due time); the only
    callback ever scheduled is the hold check.  [modeLog] is the sequence of
    console lines [Interaction mode: ON/OFF]. *)
Record t := {
  modeState : ModeState;
  ui : UiElements;
  windowInfo : WindowInfo;
  dragState : DragState;
  petDragState : PetDragState;
  callbacks : Callbacks;
  window : Window;
  timers : list (nat * Q);
  timerCount : nat;
  listening : bool;
  modeLog : list bool;
  env : Env
}.

Definition set_modeState (v : ModeState) (m : t) : t :=
  {| modeState := v; ui := ui m; windowInfo := windowInfo m;
     dragState := dragState m; petDragState := petDragState m;
     callbacks := callbacks m; window := window m; timers := timers m;
     timerCount := timerCount m; listening := listening m;
     modeLog := modeLog m; env := env m |}.

Definition set_windowInfo (v : WindowInfo) (m : t) : t :=
  {| modeState := modeState m; ui := ui m; windowInfo := v;
     dragState := dragState m; petDragState := petDragState m;
     callbacks := callbacks m; window := window m; timers := timers m;
     timerCount := timerCount m; listening := listening m;
     modeLog := modeLog m; env := env m |}.

Definition set_dragState (v : DragState) (m : t) : t :=
  {| modeState := modeState m; ui := ui m; windowInfo := windowInfo m;
     dragState := v; petDragState := petDragState m;
     callbacks := callbacks m; window := window m; timers := timers m;
     timerCount := timerCount m; listening := listening m;
     modeLog := modeLog m; env := env m |}.

Definition set_petDragState (v : PetDragState) (m : t) : t :=
  {| modeState := modeState m; ui := ui m; windowInfo := windowInfo m;
     dragState := dragState m; petDragState := v;
     callbacks := callbacks m; window := window m; timers := timers m;
     timerCount := timerCount m; listening := listening m;
     modeLog := modeLog m; env := env m |}.

Definition set_window (v : Window) (m : t) : t :=
  {| modeState := modeState m; ui := ui m; windowInfo := windowInfo m;
     dragState := dragState m; petDragState := petDragState m;
     callbacks := callbacks m; window := v; timers := timers m;
     timerCount := timerCount m; listening := listening m;
     modeLog := modeLog m; env := env m |}.

Definition set_timers (v : list (nat * Q)) (count : nat) (m : t) : t :=
  {| modeState := modeState m; ui := ui m; windowInfo := windowInfo m;
     dragState := dragState m; petDragState := petDragState m;
     callbacks := callbacks m; window := window m; timers := v;
     timerCount := count; listening := listening m;
     modeLog := modeLog m; env := env m |}.

Definition set_listening (v : bool) (m : t) : t :=
  {| modeState := modeState m; ui := ui m; windowInfo := windowInfo m;
     dragState := dragState m; petDragState := petDragState m;
     callbacks := callbacks m; window := window m; timers := timers m;
     timerCount := timerCount m; listening := v;
     modeLog := modeLog m; env := env m |}.

Definition set_modeLog (v : list bool) (m : t) : t :=
  {| modeState := modeState m; ui := ui m; windowInfo := windowInfo m;
     dragState := dragState m; petDragState := petDragState m;
     callbacks := callbacks m; window := window m; timers := timers m;
     timerCount := timerCount m; listening := listening m;
     modeLog := v; env := env m |}.

Definition set_env (v : Env) (m : t) : t :=
  {| modeState := modeState m; ui := ui m; windowInfo := windowInfo m;
     dragState := dragState m; petDragState := petDragState m;
     callbacks := callbacks m; window := window m; timers := timers m;
     timerCount := timerCount m; listening := listening m;
     modeLog := modeLog m; env := v |}.

(** [setTimeout(callback, delay)]: timer ids are positive. *)
Definition setTimeout (delay : Q) (m : t) : nat * t :=
  let id := S (timerCount m) in
  (id, set_timers (timers m ++ [(id, clock (env m) + delay)]) id m).

(** [clearTimeout(id)]. *)
Definition clearTimeout (id : nat) (m : t) : t :=
  set_timers (List.filter (fun timer => negb (fst timer =? id)%nat) (timers m))
             (timerCount m) m.

(** [mainWindow.setIgnoreCursorEvents(ignore)], taken to succeed. *)
Definition setIgnoreCursorEvents (ignore : bool) (m : t) : t :=
  set_window {| positionX := positionX (window m); positionY := positionY (window m);
                sizeWidth := sizeWidth (window m); sizeHeight := sizeHeight (window m);
                ignoreCursorEvents := ignore; shown := shown (window m) |} m.

(** The class [visible] on the border overlay and on every resize handle. *)
Definition setAffordances (f : Dom.Element -> Dom.Element) (m : t) : t :=
  let handles := match borderOverlay (ui m) with
                 | Some h => h :: resizeHandles (ui m)
                 | None => resizeHandles (ui m)
                 end in
  set_env (fold_left (fun e h => update_element h f e) handles (env m)) m.

(** [enterInteractionMode]. *)
Definition enterInteractionMode (m : t) : t :=
  let m := set_window {| positionX := positionX (window m);
                         positionY := positionY (window m);
                         sizeWidth := sizeWidth (window m);
                         sizeHeight := sizeHeight (window m);
                         ignoreCursorEvents := ignoreCursorEvents (window m);
                         shown := true |} m in
  let m := setIgnoreCursorEvents false m in
  let m := setAffordances (Dom.classList_add "visible") m in
  set_listening true m.

(** [exitInteractionMode]. *)
Definition exitInteractionMode (m : t) : t :=
  let m := setIgnoreCursorEvents true m in
  let m := setAffordances (Dom.classList_remove "visible") m in
  let m := set_listening false m in
  let m := set_dragState
             {| isDragging := false; isResizing := false; isDraggingPet := false;
                resizeDirection := resizeDirection (dragState m);
                dragStartX := dragStartX (dragState m);
                dragStartY := dragStartY (dragState m);
                windowStartX := windowStartX (dragState m);
                windowStartY := windowStartY (dragState m);
                windowStartWidth := windowStartWidth (dragState m) |} m in
  set_petDragState {| draggingPetElement := None;
                      petStartX := petStartX (petDragState m) |} m.

(** [toggleInteractionMode]. *)
Definition toggleInteractionMode (m : t) : t :=
  let mode := negb (isInteractionMode (modeState m)) in
  let m := set_modeState {| isInteractionMode := mode;
                            hotkeyPressedAt := hotkeyPressedAt (modeState m);
                            holdCheckTimer := holdCheckTimer (modeState m) |} m in
  let m := set_modeLog (modeLog m ++ [mode]) m in
  if mode then enterInteractionMode m else exitInteractionMode m.

(** The callback handed to [setTimeout] by [onHotkeyPressed]. *)
Definition holdTimerFired (m : t) : t :=
  match hotkeyPressedAt (modeState m) with
  | Some _ => toggleInteractionMode m
  | None => m
  end.

(** [onHotkeyPressed]. *)
Definition onHotkeyPressed (m : t) : t :=
  match hotkeyPressedAt (modeState m) with
  | Some _ => m
  | None =>
      let now := clock (env m) in
      let '(id, m) := setTimeout HOLD_DURATION_MS m in
      set_modeState {| isInteractionMode := isInteractionMode (modeState m);
                       hotkeyPressedAt := Some now;
                       holdCheckTimer := Some id |} m
  end.

(** [onHotkeyReleased]: a timer id is truthy when it is not [0]. *)
Definition onHotkeyReleased (m : t) : t :=
  let m := match holdCheckTimer (modeState m) with
           | Some id =>
               if negb (id =? 0)%nat then
                 let m := clearTimeout id m in
                 set_modeState {| isInteractionMode := isInteractionMode (modeState m);
                                  hotkeyPressedAt := hotkeyPressedAt (modeState m);
                                  holdCheckTimer := None |} m
               else m
           | None => m
           end in
  set_modeState {| isInteractionMode := isInteractionMode (modeState m);
                   hotkeyPressedAt := None;
                   holdCheckTimer := holdCheckTimer (modeState m) |} m.

(** The passage of time up to [now]: every timer that is due fires, once,
    in the order it was set, and leaves the pending list. *)
Definition due (now : Q) (timer : nat * Q) : bool := Qle_bool (snd timer) now.

Definition advance (now : Q) (m : t) : t :=
  let fired := List.filter (due now) (timers m) in
  let m := set_timers (List.filter (fun timer => negb (due now timer)) (timers m))
                      (timerCount m) m in
  let m := set_env (set_clock now (env m)) m in
  fold_left (fun m _ => holdTimerFired m) fired m.

(** What the handlers read from a [MouseEvent]: whether the target is a
    resize handle (and its [dataset.direction]), the result of
    [target.closest('.pet')], the shift key and the pointer coordinates. *)
Record MouseEvent := {
  targetResizeHandle : option ResizeDirection;
  targetClosestPet : option nat;
  shiftKey : bool;
  screenX : Q;
  screenY : Q;
  clientX : Q
}.

(** A call of one of the two callbacks. *)
Inductive Notification :=
| PetPositionChange (petId : string) (x : Q)
| WindowConfigChange (x y width : Q).

(** [getCurrentWindowPosition]. *)
Definition getCurrentWindowPosition (m : t) : Q * Q :=
  (positionX (window m), positionY (window m)).

(** [setWindowPosition]. *)
Definition setWindowPosition (x y : Q) (m : t) : t :=
  set_window {| positionX := x; positionY := y;
                sizeWidth := sizeWidth (window m); sizeHeight := sizeHeight (window m);
                ignoreCursorEvents := ignoreCursorEvents (window m);
                shown := shown (window m) |} m.

(** [setWindowWidthAndPosition]. *)
Definition setWindowWidthAndPosition (width x y : Q) (m : t) : t :=
  let m := set_windowInfo {| windowWidth := width;
                             windowHeight := windowHeight (windowInfo m) |} m in
  set_window {| positionX := x; positionY := y;
                sizeWidth := width; sizeHeight := windowHeight (windowInfo m);
                ignoreCursorEvents := ignoreCursorEvents (window m);
                shown := shown (window m) |} m.

(** [updateWindowWidth]. *)
Definition updateWindowWidth (width : Q) (m : t) : t :=
  set_windowInfo {| windowWidth := width;
                    windowHeight := windowHeight (windowInfo m) |} m.

(** [onMouseDown]. *)
Definition onMouseDown (e : MouseEvent) (m : t) : t :=
  let d := dragState m in
  match targetResizeHandle e with
  | Some direction =>
      let pos := getCurrentWindowPosition m in
      set_dragState
        {| isDragging := isDragging d; isResizing := true;
           isDraggingPet := isDraggingPet d;
           resizeDirection := Some direction;
           dragStartX := screenX e; dragStartY := dragStartY d;
           windowStartX := fst pos; windowStartY := snd pos;
           windowStartWidth := windowWidth (windowInfo m) |} m
  | None =>
      if shiftKey e then
        let pos := getCurrentWindowPosition m in
        set_dragState
          {| isDragging := true; isResizing := isResizing d;
             isDraggingPet := isDraggingPet d;
             resizeDirection := resizeDirection d;
             dragStartX := screenX e; dragStartY := screenY e;
             windowStartX := fst pos; windowStartY := snd pos;
             windowStartWidth := windowStartWidth d |} m
      else
        match targetClosestPet e with
        | Some petElement =>
            let m := set_dragState
                       {| isDragging := isDragging d; isResizing := isResizing d;
                          isDraggingPet := true;
                          resizeDirection := resizeDirection d;
                          dragStartX := clientX e; dragStartY := dragStartY d;
                          windowStartX := windowStartX d;
                          windowStartY := windowStartY d;
                          windowStartWidth := windowStartWidth d |} m in
            let m := set_petDragState
                       {| draggingPetElement := Some petElement;
                          petStartX := inject_Z (Dom.offsetLeft
                                                   (element_at petElement (env m))) |} m in
            set_env (update_element petElement (Dom.set_styleCursor "grabbing") (env m)) m
        | None => m
        end
  end.

(** [onMouseMove]. *)
Definition onMouseMove (e : MouseEvent) (m : t) : t :=
  let d := dragState m in
  match isDraggingPet d, draggingPetElement (petDragState m) with
  | true, Some petElement =>
      let deltaX := clientX e - dragStartX d in
      let newX := petStartX (petDragState m) + deltaX in
      let petWidth := inject_Z (Dom.offsetWidth (element_at petElement (env m))) in
      let margin := 10 in
      let newX := Math.max margin
                    (Math.min (windowWidth (windowInfo m) - petWidth - margin) newX) in
      set_env (update_element petElement (Dom.set_styleLeft newX) (env m)) m
  | _, _ =>
      if isDragging d then
        let deltaX := screenX e - dragStartX d in
        let deltaY := screenY e - dragStartY d in
        let newX := windowStartX d + deltaX in
        let newY := windowStartY d + deltaY in
        let clampedY := Math.max 0 newY in
        setWindowPosition newX clampedY m
      else
        match isResizing d, resizeDirection d with
        | true, Some direction =>
            let deltaX := screenX e - dragStartX d in
            let '(newWidth, newX) :=
              match direction with
              | resize_right => (windowStartWidth d + deltaX, windowStartX d)
              | resize_left => (windowStartWidth d - deltaX, windowStartX d + deltaX)
              end in
            let newWidth := Math.max 400 newWidth in
            let newX := match direction with
                        | resize_left =>
                            if Qeq_bool newWidth 400
                            then windowStartX d + (windowStartWidth d - 400)
                            else newX
                        | resize_right => newX
                        end in
            setWindowWidthAndPosition newWidth newX (windowStartY d) m
        | _, _ => m
        end
  end.

(** [onMouseUp], with the callback calls it makes. *)
Definition onMouseUp (m : t) : t * list Notification :=
  let d := dragState m in
  match isDraggingPet d, draggingPetElement (petDragState m) with
  | true, Some petElement =>
      let el := element_at petElement (env m) in
      let petId := Dom.datasetPetId el in
      let newX := inject_Z (Dom.offsetLeft el) in
      let m := set_env (update_element petElement (Dom.set_styleCursor "") (env m)) m in
      let m := set_petDragState {| draggingPetElement := None;
                                   petStartX := petStartX (petDragState m) |} m in
      let m := set_dragState
                 {| isDragging := isDragging d; isResizing := isResizing d;
                    isDraggingPet := false;
                    resizeDirection := resizeDirection d;
                    dragStartX := dragStartX d; dragStartY := dragStartY d;
                    windowStartX := windowStartX d; windowStartY := windowStartY d;
                    windowStartWidth := windowStartWidth d |} m in
      match petId with
      | Some id =>
          if negb (String.eqb id "") && onPetPositionChange (callbacks m)
          then (m, [PetPositionChange id newX])
          else (m, [])
      | None => (m, [])
      end
  | _, _ =>
      if isDragging d || isResizing d then
        let m := set_dragState
                   {| isDragging := false; isResizing := false;
                      isDraggingPet := isDraggingPet d;
                      resizeDirection := None;
                      dragStartX := dragStartX d; dragStartY := dragStartY d;
                      windowStartX := windowStartX d; windowStartY := windowStartY d;
                      windowStartWidth := windowStartWidth d |} m in
        if onWindowConfigChange (callbacks m) then
          let pos := getCurrentWindowPosition m in
          (m, [WindowConfigChange (fst pos) (snd pos) (windowWidth (windowInfo m))])
        else (m, [])
      else (m, [])
  end.

(** What the host delivers to the module. *)
Inductive Event :=
| HotkeyPressed
| HotkeyReleased
| MouseDown (e : MouseEvent)
| MouseMove (e : MouseEvent)
| MouseUp.

(** One turn of the event loop at time [now]: the timers that are due run
    first, then the handler of the event.  The mouse handlers are attached
    to the document only in interaction mode. *)
Definition deliver (now : Q) (ev : Event) (m : t) : t * list Notification :=
  let m := advance now m in
  match ev with
  | HotkeyPressed => (onHotkeyPressed m, [])
  | HotkeyReleased => (onHotkeyReleased m, [])
  | MouseDown e => if listening m then (onMouseDown e m, []) else (m, [])
  | MouseMove e => if listening m then (onMouseMove e m, []) else (m, [])
  | MouseUp => if listening m then onMouseUp m else (m, [])
  end.

(** A fresh overlay element of the given class. *)
Definition overlayElement (className : string) : Dom.Element :=
  {| Dom.classList := {[className]}; Dom.datasetPetId := None;
     Dom.styleLeft := 0; Dom.styleSize := None; Dom.cssWidth := 0;
     Dom.styleCursor := ""; Dom.styleBackgroundColor := "";
     Dom.styleBorderRadius := ""; Dom.attached := true |}.

(** [initInteractionMode], from the initial values of the module variables:
    the overlay and the two resize handles are created, the hotkey is taken
    to register, and the window starts in pass-through. *)
Definition initInteractionMode (initialWidth height : Q)
    (configChangeCallback petPositionChangeCallback : bool)
    (w : Window) (e : Env) : t :=
  let border := nextNode e in
  let e := set_nextNode (S border)
             (set_dom (<[border := overlayElement "interaction-border"]> (dom e)) e) in
  let left := nextNode e in
  let e := set_nextNode (S left)
             (set_dom (<[left := overlayElement "resize-handle"]> (dom e)) e) in
  let right := nextNode e in
  let e := set_nextNode (S right)
             (set_dom (<[right := overlayElement "resize-handle"]> (dom e)) e) in
  setIgnoreCursorEvents true
    {| modeState := {| isInteractionMode := false; hotkeyPressedAt := None;
                       holdCheckTimer := None |};
       ui := {| borderOverlay := Some border; resizeHandles := [left; right] |};
       windowInfo := {| windowWidth := initialWidth; windowHeight := height |};
       dragState := {| isDragging := false; isResizing := false;
                       isDraggingPet := false; resizeDirection := None;
                       dragStartX := 0; dragStartY := 0; windowStartX := 0;
                       windowStartY := 0; windowStartWidth := 0 |};
       petDragState := {| draggingPetElement := None; petStartX := 0 |};
       callbacks := {| onWindowConfigChange := configChangeCallback;
                       onPetPositionChange := petPositionChangeCallback |};
       window := w; timers := []; timerCount := 0; listening := false;
       modeLog := []; env := e |}.

End Interaction.

(** ** The composition root *)

Module App.

Record t := {
  interaction : Interaction.t;
  pets : MultiPetManager.t
}.

(** Modelled from the spec: the bridge call [onEntityRepositioned(id)],
    which the composition root wires from the pet-position callback of the
    interaction module to [syncPetPosition] of the manager; the file that
    does the wiring is not part of the sources. *)
Definition onEntityRepositioned (petId : string) (w : t) : option t :=
  match MultiPetManager.syncPetPosition petId (pets w)
          (Interaction.env (interaction w)) with
  | Some (p, e) => Some {| interaction := Interaction.set_env e (interaction w);
                           pets := p |}
  | None => None
  end.

(** A callback call reaches its receiver; the window configuration only goes
    to persistent storage. *)
Definition notify (n : Interaction.Notification) (w : t) : option t :=
  match n with
  | Interaction.PetPositionChange petId _ => onEntityRepositioned petId w
  | Interaction.WindowConfigChange _ _ _ => Some w
  end.

(** One host event, with the callback calls it causes. *)
Definition deliver (now : Q) (ev : Interaction.Event) (w : t) : option t :=
  let '(i, ns) := Interaction.deliver now ev (interaction w) in
  fold_left (fun ow n => match ow with
                         | Some w => notify n w
                         | None => None
                         end)
            ns (Some {| interaction := i; pets := pets w |}).

(** One animation frame of the pet stored under [petId], at time [now]. *)
Definition tick (now : Q) (petId : string) (w : t) : option t :=
  match MultiPetManager.call petId PetController.animate (pets w)
          (Runtime.set_clock now (Interaction.env (interaction w))) with
  | Some (p, e) => Some {| interaction := Interaction.set_env e (interaction w);
                           pets := p |}
  | None => None
  end.

End App.

(** ** rateLimit.ts: client-side request limits *)

Module RateLimit.

#[local] Open Scope Z_scope.

(** [RateLimitData].  Counts and [Date.now()] timestamps are whole numbers;
    a [number | null] field is an optional number. *)
Record RateLimitData := {
  pairCodeRequests : Z;
  lastSuccessfulVerification : option Z;
  pairCodeBannedUntil : option Z;
  logoutCount : Z;
  logoutCountStartTime : option Z;
  loginCount : Z;
  loginCountStartTime : option Z;
  lastApiRequestTime : option Z
}.

(** [DEFAULT_RATE_LIMIT_DATA]. *)
Definition DEFAULT_RATE_LIMIT_DATA : RateLimitData :=
  {| pairCodeRequests := 0; lastSuccessfulVerification := None;
     pairCodeBannedUntil := None; logoutCount := 0; logoutCountStartTime := None;
     loginCount := 0; loginCountStartTime := None; lastApiRequestTime := None |}.

Definition MAX_PAIR_CODE_REQUESTS : Z := 5.
Definition PAIR_CODE_BAN_DURATION_MS : Z := 24 * 60 * 60 * 1000.
Definition MAX_LOGOUT_PER_DAY : Z := 5.
Definition MAX_LOGIN_PER_DAY : Z := 10.
Definition MIN_API_REQUEST_INTERVAL_MS : Z := 1000.
Definition MIN_PAIR_CODE_REQUEST_INTERVAL_MS : Z := 30 * 1000.
Definition DAY_MS : Z := 24 * 60 * 60 * 1000.
Definition WARNING_THRESHOLD : Z := 3.

(** The assignments the functions make to fields of the data object. *)
Definition set_pairCode (requests : Z) (verified bannedUntil : option Z)
    (d : RateLimitData) : RateLimitData :=
  {| pairCodeRequests := requests; lastSuccessfulVerification := verified;
     pairCodeBannedUntil := bannedUntil; logoutCount := logoutCount d;
     logoutCountStartTime := logoutCountStartTime d; loginCount := loginCount d;
     loginCountStartTime := loginCountStartTime d;
     lastApiRequestTime := lastApiRequestTime d |}.

Definition set_pairCodeRequests (v : Z) (d : RateLimitData) : RateLimitData :=
  set_pairCode v (lastSuccessfulVerification d) (pairCodeBannedUntil d) d.

Definition set_pairCodeBannedUntil (v : option Z) (d : RateLimitData) : RateLimitData :=
  set_pairCode (pairCodeRequests d) (lastSuccessfulVerification d) v d.

Definition set_logout (count : Z) (startTime : option Z) (d : RateLimitData)
  : RateLimitData :=
  {| pairCodeRequests := pairCodeRequests d;
     lastSuccessfulVerification := lastSuccessfulVerification d;
     pairCodeBannedUntil := pairCodeBannedUntil d; logoutCount := count;
     logoutCountStartTime := startTime; loginCount := loginCount d;
     loginCountStartTime := loginCountStartTime d;
     lastApiRequestTime := lastApiRequestTime d |}.

Definition set_login (count : Z) (startTime : option Z) (d : RateLimitData)
  : RateLimitData :=
  {| pairCodeRequests := pairCodeRequests d;
     lastSuccessfulVerification := lastSuccessfulVerification d;
     pairCodeBannedUntil := pairCodeBannedUntil d; logoutCount := logoutCount d;
     logoutCountStartTime := logoutCountStartTime d; loginCount := count;
     loginCountStartTime := startTime;
     lastApiRequestTime := lastApiRequestTime d |}.

Definition set_lastApiRequestTime (v : option Z) (d : RateLimitData) : RateLimitData :=
  {| pairCodeRequests := pairCodeRequests d;
     lastSuccessfulVerification := lastSuccessfulVerification d;
     pairCodeBannedUntil := pairCodeBannedUntil d; logoutCount := logoutCount d;
     logoutCountStartTime := logoutCountStartTime d; loginCount := loginCount d;
     loginCountStartTime := loginCountStartTime d;
     lastApiRequestTime := v |}.

(** The module variables [cachedData] and [lastPairCodeRequestTime], and the
    value the store file holds under the key [rateLimitData]. *)
Record t := {
  cachedData : option RateLimitData;
  lastPairCodeRequestTime : option Z;
  stored : option RateLimitData
}.

Definition set_cachedData (v : option RateLimitData) (s : t) : t :=
  {| cachedData := v; lastPairCodeRequestTime := lastPairCodeRequestTime s;
     stored := stored s |}.

Definition set_lastPairCodeRequestTime (v : option Z) (s : t) : t :=
  {| cachedData := cachedData s; lastPairCodeRequestTime := v; stored := stored s |}.

Definition set_stored (v : option RateLimitData) (s : t) : t :=
  {| cachedData := cachedData s; lastPairCodeRequestTime := lastPairCodeRequestTime s;
     stored := v |}.

(** The module as it is loaded, over a store file. *)
Definition init (stored : option RateLimitData) : t :=
  {| cachedData := None; lastPairCodeRequestTime := None; stored := stored |}.

(** What the host does during one call: the value of [Date.now()], and
    whether reading and writing the store succeed. *)
Record Host := {
  now : Z;
  loadOk : bool;
  saveOk : bool
}.

(** A timestamp in a condition: [null] and [0] are falsy. *)
Definition truthy (v : option Z) : bool :=
  match v with Some n => negb (n =? 0) | None => false end.

(** A timestamp in arithmetic: [null] counts as [0]. *)
Definition value (v : option Z) : Z :=
  match v with Some n => n | None => 0 end.

(** [Math.ceil(a / d)] for whole [a] and positive [d]. *)
Definition ceilDiv (a d : Z) : Z := - ((- a) / d).

(** [loadData]. *)
Definition loadData (h : Host) (s : t) : RateLimitData * t :=
  match cachedData s with
  | Some data => (data, s)
  | None =>
      let data := if loadOk h
                  then match stored s with
                       | Some data => data
                       | None => DEFAULT_RATE_LIMIT_DATA
                       end
                  else DEFAULT_RATE_LIMIT_DATA in
      (data, set_cachedData (Some data) s)
  end.

(** [saveData]. *)
Definition saveData (h : Host) (data : RateLimitData) (s : t) : t :=
  if saveOk h then set_cachedData (Some data) (set_stored (Some data) s) else s.

(** An assignment to a field of the object [loadData] returned: the object
    is the cached one, so the cache shows the write at once. *)
Definition assign (data : RateLimitData) (s : t) : t := set_cachedData (Some data) s.

(** The [reason] of a [RateLimitResult], by the message it selects and the
    number the message shows. *)
Inductive Reason :=
| PairCodeBanned (hoursLeft : Z)
| PairCodeTooSoon (secondsLeft : Z)
| PairCodeTooMany
| LogoutLimit (hoursLeft : Z)
| LoginLimit (hoursLeft : Z)
| ApiTooFrequent.

(** [RateLimitResult]. *)
Record RateLimitResult := {
  allowed : bool;
  reason : option Reason;
  retryAfterMs : option Z
}.

Definition allow : RateLimitResult :=
  {| allowed := true; reason := None; retryAfterMs := None |}.

Definition deny (r : Reason) (retry : Z) : RateLimitResult :=
  {| allowed := false; reason := Some r; retryAfterMs := Some retry |}.

(** [canRequestPairCode]. *)
Definition canRequestPairCode (h : Host) (s : t) : RateLimitResult * t :=
  let '(data, s) := loadData h s in
  let now := now h in
  if truthy (pairCodeBannedUntil data) && (now <? value (pairCodeBannedUntil data)) then
    let retryAfterMs := value (pairCodeBannedUntil data) - now in
    let hoursLeft := ceilDiv retryAfterMs (60 * 60 * 1000) in
    (deny (PairCodeBanned hoursLeft) retryAfterMs, s)
  else if truthy (lastPairCodeRequestTime s)
          && (now - value (lastPairCodeRequestTime s) <? MIN_PAIR_CODE_REQUEST_INTERVAL_MS)
  then
    let retryAfterMs :=
      MIN_PAIR_CODE_REQUEST_INTERVAL_MS - (now - value (lastPairCodeRequestTime s)) in
    let secondsLeft := ceilDiv retryAfterMs 1000 in
    (deny (PairCodeTooSoon secondsLeft) retryAfterMs, s)
  else if MAX_PAIR_CODE_REQUESTS <=? pairCodeRequests data then
    let data := set_pairCodeBannedUntil (Some (now + PAIR_CODE_BAN_DURATION_MS)) data in
    let s := assign data s in
    let s := saveData h data s in
    (deny PairCodeTooMany PAIR_CODE_BAN_DURATION_MS, s)
  else (allow, s).

(** [getPairCodeRequestCount]. *)
Definition getPairCodeRequestCount (h : Host) (s : t) : Z * t :=
  let '(data, s) := loadData h s in
  (pairCodeRequests data, s).

(** [shouldShowPairCodeWarning]. *)
Definition shouldShowPairCodeWarning (h : Host) (s : t) : option Z * t :=
  let '(data, s) := loadData h s in
  if WARNING_THRESHOLD <=? pairCodeRequests data then
    let remaining := MAX_PAIR_CODE_REQUESTS - pairCodeRequests data in
    (Some remaining, s)
  else (None, s).

(** [recordPairCodeRequest]. *)
Definition recordPairCodeRequest (h : Host) (s : t) : t :=
  let '(data, s) := loadData h s in
  let data := set_pairCodeRequests (pairCodeRequests data + 1) data in
  let s := assign data s in
  let s := set_lastPairCodeRequestTime (Some (now h)) s in
  saveData h data s.

(** [onVerificationSuccess]. *)
Definition onVerificationSuccess (h : Host) (s : t) : t :=
  let '(data, s) := loadData h s in
  let data := set_pairCode 0 (Some (now h)) None data in
  let s := assign data s in
  saveData h data s.

(** [canLogout]. *)
Definition canLogout (h : Host) (s : t) : RateLimitResult * t :=
  let '(data, s) := loadData h s in
  let now := now h in
  let '(data, s) :=
    if truthy (logoutCountStartTime data)
       && (DAY_MS <? now - value (logoutCountStartTime data))
    then
      let data := set_logout 0 None data in
      let s := assign data s in
      (data, saveData h data s)
    else (data, s) in
  if MAX_LOGOUT_PER_DAY <=? logoutCount data then
    let retryAfterMs := if truthy (logoutCountStartTime data)
                        then DAY_MS - (now - value (logoutCountStartTime data))
                        else 0 in
    let hoursLeft := ceilDiv retryAfterMs (60 * 60 * 1000) in
    (deny (LogoutLimit hoursLeft) retryAfterMs, s)
  else (allow, s).

(** [recordLogout]. *)
Definition recordLogout (h : Host) (s : t) : t :=
  let '(data, s) := loadData h s in
  let now := now h in
  let data :=
    if negb (truthy (logoutCountStartTime data))
       || (DAY_MS <? now - value (logoutCountStartTime data))
    then set_logout 1 (Some now) data
    else set_logout (logoutCount data + 1) (logoutCountStartTime data) data in
  let s := assign data s in
  saveData h data s.

(** [canLogin]. *)
Definition canLogin (h : Host) (s : t) : RateLimitResult * t :=
  let '(data, s) := loadData h s in
  let now := now h in
  let '(data, s) :=
    if truthy (loginCountStartTime data)
       && (DAY_MS <? now - value (loginCountStartTime data))
    then
      let data := set_login 0 None data in
      let s := assign data s in
      (data, saveData h data s)
    else (data, s) in
  if MAX_LOGIN_PER_DAY <=? loginCount data then
    let retryAfterMs := if truthy (loginCountStartTime data)
                        then DAY_MS - (now - value (loginCountStartTime data))
                        else 0 in
    let hoursLeft := ceilDiv retryAfterMs (60 * 60 * 1000) in
    (deny (LoginLimit hoursLeft) retryAfterMs, s)
  else (allow, s).

(** [recordLogin]. *)
Definition recordLogin (h : Host) (s : t) : t :=
  let '(data, s) := loadData h s in
  let now := now h in
  let data :=
    if negb (truthy (loginCountStartTime data))
       || (DAY_MS <? now - value (loginCountStartTime data))
    then set_login 1 (Some now) data
    else set_login (loginCount data + 1) (loginCountStartTime data) data in
  let s := assign data s in
  saveData h data s.

(** [canMakeApiRequest]. *)
Definition canMakeApiRequest (h : Host) (s : t) : RateLimitResult * t :=
  let '(data, s) := loadData h s in
  let now := now h in
  if truthy (lastApiRequestTime data)
     && (now - value (lastApiRequestTime data) <? MIN_API_REQUEST_INTERVAL_MS)
  then
    let retryAfterMs :=
      MIN_API_REQUEST_INTERVAL_MS - (now - value (lastApiRequestTime data)) in
    (deny ApiTooFrequent retryAfterMs, s)
  else (allow, s).

(** [recordApiRequest]. *)
Definition recordApiRequest (h : Host) (s : t) : t :=
  let '(data, s) := loadData h s in
  let data := set_lastApiRequestTime (Some (now h)) data in
  let s := assign data s in
  saveData h data s.

(** The object [getRateLimitStatus] returns, without the four constants. *)
Record Status := {
  status_pairCodeRequests : Z;
  isBanned : bool;
  bannedUntil : option Z;
  status_logoutCount : Z;
  status_loginCount : Z
}.

(** [getRateLimitStatus]. *)
Definition getRateLimitStatus (h : Host) (s : t) : Status * t :=
  let '(data, s) := loadData h s in
  let now := now h in
  ({| status_pairCodeRequests := pairCodeRequests data;
      isBanned := truthy (pairCodeBannedUntil data)
                  && (now <? value (pairCodeBannedUntil data));
      bannedUntil := if truthy (pairCodeBannedUntil data)
                     then pairCodeBannedUntil data else None;
      status_logoutCount := logoutCount data;
      status_loginCount := loginCount data |}, s).

(** [resetAllRateLimits]. *)
Definition resetAllRateLimits (h : Host) (s : t) : t :=
  let s := saveData h DEFAULT_RATE_LIMIT_DATA s in
  set_lastPairCodeRequestTime None s.

End RateLimit.

(** ** Properties the theorems speak about *)

Module Props.

Import Runtime.

(** The position lies in [[margin, containerWidth - renderedWidth - margin]],
    for the margin [10] of the tick. *)
Definition inBounds (c : PetController.t) (e : Env) : Prop :=
  10 <= PetController.x c
  /\ PetController.x c
     <= PetController.containerWidth c - PetController.petWidth c e - 10.

(** The range of walk targets, for the margin [20] of target selection. *)
Definition targetMax (c : PetController.t) (e : Env) : Q :=
  PetController.containerWidth c - PetController.petWidth c e - 20.

Definition usableSpan (c : PetController.t) (e : Env) : Q :=
  targetMax c e - 20.

(** The sprite of the element is drawn mirrored. *)
Definition mirrored (h : nat) (e : Env) : bool :=
  Dom.classList_contains "facing-right" (element_at h e)
  && negb (Dom.classList_contains "facing-left" (element_at h e)).

(** The orientation rule in the words of the specification: the default
    facing disagrees with the walk direction. *)
Definition disagrees (f : Types.SpriteFacing) (d : PetController.Direction) : bool :=
  match f, d with
  | Types.left, PetController.Forward => true
  | Types.right, PetController.Backward => true
  | Types.left, PetController.Backward => false
  | Types.right, PetController.Forward => false
  end.

(** A sequence of animation frames, one at each of the given times. *)
Fixpoint ticks (times : list Q) (c : PetController.t) : M PetController.t :=
  match times with
  | [] => ret c
  | now :: times' =>
      run modify (set_clock now);
      do c <- PetController.animate c;
      ticks times' c
  end.

(** A run of hotkey [Pressed] events at the given times. *)
Definition presses (times : list Q) (m : Interaction.t) : Interaction.t :=
  fold_left (fun m now => fst (Interaction.deliver now Interaction.HotkeyPressed m))
            times m.

(** The part of a controller that a snapshot entry determines. *)
Definition attributes (c : PetController.t)
  : string * Q * string * string * Types.SpriteFacing :=
  (PetController.petId c, PetController.scale c, PetController.spritePath c,
   PetController.stage c, PetController.defaultFacing c).

End Props.

(** ** Concrete states used by the examples *)

Module Examples.

Import Runtime.

(** A pet box of the given layout width, placed at [left]. *)
Definition pet_box (width : Z) (left : Q) : Dom.Element :=
  {| Dom.classList := {["pet"%string]}; Dom.datasetPetId := Some "a"%string;
     Dom.styleLeft := left; Dom.styleSize := Some width; Dom.cssWidth := 64;
     Dom.styleCursor := ""; Dom.styleBackgroundColor := "";
     Dom.styleBorderRadius := ""; Dom.attached := true |}.

(** A document that holds one element, under handle [0], and a tape. *)
Definition env_of (el : Dom.Element) (tape : list Q) : Env :=
  {| dom := {[ 0%nat := el ]}; nextNode := 1; random := tape; clock := 0;
     frameCount := 1; globalScreenScaleFactor := 1; petCssWidth := 64 |}.

(** A started, unpaused pet on that element. *)
Definition pet (stage : string) (containerWidth x : Q)
    (direction : PetController.Direction) (targetX : Q) : PetController.t :=
  {| PetController.element := 0;
     PetController.containerWidth := containerWidth;
     PetController.x := x;
     PetController.direction := direction;
     PetController.baseSpeed := 1;
     PetController.scale := 1;
     PetController.animationFrameId := Some 1%nat;
     PetController.isPaused := false;
     PetController.isMovementEnabled := true;
     PetController.petId := "a";
     PetController.spritePath := "a.gif";
     PetController.stage := stage;
     PetController.defaultFacing := Types.left;
     PetController.targetX := targetX;
     PetController.isResting := false;
     PetController.restEndTime := 0;
     PetController.speedMultiplier := 1 |}.

(** An egg as the snapshot feed describes it. *)
Definition egg_state : Types.PetState :=
  {| Types.odangoId := "a"; Types.scale := 1; Types.spritePath := "egg.gif";
     Types.stage := "egg"; Types.defaultFacing := Some Types.left |}.

(** A hatched pet with a right-facing sprite. *)
Definition hatched_state : Types.PetState :=
  {| Types.odangoId := "b"; Types.scale := 6 # 5; Types.spritePath := "stage1.gif";
     Types.stage := "stage1"; Types.defaultFacing := Some Types.right |}.

(** An empty document, a style sheet that makes pet boxes 64 wide, and a
    tape. *)
Definition empty_env (tape : list Q) : Env :=
  {| dom := ∅; nextNode := 1; random := tape; clock := 0; frameCount := 0;
     globalScreenScaleFactor := 1; petCssWidth := 64 |}.

(** The host window: 200 from the left, 50 from the top. *)
Definition host_window (width : Q) : Interaction.Window :=
  {| Interaction.positionX := 200; Interaction.positionY := 50;
     Interaction.sizeWidth := width; Interaction.sizeHeight := 200;
     Interaction.ignoreCursorEvents := false; Interaction.shown := true |}.

(** The interaction module after start-up, over a window of the given
    width. *)
Definition started (width : Q) (e : Env) : Interaction.t :=
  Interaction.initInteractionMode width 200 true true (host_window width) e.

(** The same after the hotkey was pressed at time 0 and held until 600. *)
Definition interactive (width : Q) (e : Env) : Interaction.t :=
  Interaction.advance 600
    (fst (Interaction.deliver 0 Interaction.HotkeyPressed (started width e))).

(** A pointer event on the left resize handle, and one with nothing under
    the pointer, at the given screen abscissa. *)
Definition on_left_handle (screenX : Q) : Interaction.MouseEvent :=
  {| Interaction.targetResizeHandle := Some Interaction.resize_left;
     Interaction.targetClosestPet := None; Interaction.shiftKey := false;
     Interaction.screenX := screenX; Interaction.screenY := 100;
     Interaction.clientX := screenX - 200 |}.

Definition pointer_at (screenX : Q) : Interaction.MouseEvent :=
  {| Interaction.targetResizeHandle := None;
     Interaction.targetClosestPet := None; Interaction.shiftKey := false;
     Interaction.screenX := screenX; Interaction.screenY := 100;
     Interaction.clientX := screenX - 200 |}.

(** A pointer event on the right resize handle, and one with the shift key
    held. *)
Definition on_right_handle (screenX : Q) : Interaction.MouseEvent :=
  {| Interaction.targetResizeHandle := Some Interaction.resize_right;
     Interaction.targetClosestPet := None; Interaction.shiftKey := false;
     Interaction.screenX := screenX; Interaction.screenY := 100;
     Interaction.clientX := screenX - 200 |}.

Definition with_shift (screenX screenY : Q) : Interaction.MouseEvent :=
  {| Interaction.targetResizeHandle := None;
     Interaction.targetClosestPet := None; Interaction.shiftKey := true;
     Interaction.screenX := screenX; Interaction.screenY := screenY;
     Interaction.clientX := screenX - 200 |}.

(** A pointer event on the pet box of handle [0]. *)
Definition on_pet (clientX : Q) : Interaction.MouseEvent :=
  {| Interaction.targetResizeHandle := None;
     Interaction.targetClosestPet := Some 0%nat; Interaction.shiftKey := false;
     Interaction.screenX := clientX + 200; Interaction.screenY := 100;
     Interaction.clientX := clientX |}.

(** A window of width 300 in interaction mode, with one walking pet, 64
    wide, at 50. *)
Definition one_pet : MultiPetManager.t :=
  {| MultiPetManager.container := 0;
     MultiPetManager.containerWidth := 300;
     MultiPetManager.controllers := [("a"%string, pet "stage1" 300 50 PetController.Forward 200)];
     MultiPetManager.petSettingsGetter := None |}.

Definition drag_scene : Interaction.t :=
  interactive 300 (env_of (pet_box 64 50) [9 # 10]).

(** A host of the request limiter whose store works, and one whose store
    fails, at the given time. *)
Definition online (now : Z) : RateLimit.Host :=
  {| RateLimit.now := now; RateLimit.loadOk := true; RateLimit.saveOk := true |}.

Definition offline (now : Z) : RateLimit.Host :=
  {| RateLimit.now := now; RateLimit.loadOk := false; RateLimit.saveOk := false |}.

End Examples.

(** ** Notions used in the proofs *)

Section StoreNotions.
Import Runtime.

(** A write that leaves the layout width of every element alone. *)
Definition keeps_width (f : Dom.Element -> Dom.Element) : Prop :=
  forall el, Dom.offsetWidth (f el) = Dom.offsetWidth el.

End StoreNotions.

Section PetNotions.
Import Runtime PetController Props.

(** A draw that ends the loop at once. *)
Definition accepted (minX maxX x r : Q) : Prop :=
  50 <= Math.abs (minX + r * (maxX - minX) - x) \/ maxX - minX <= 100.

(** Draws of [Math.random()] lie in [[0, 1)]. *)
Definition unit_draw (r : Q) : Prop := 0 <= r /\ r < 1.

(** The environment [updateDirection] leaves behind. *)
Definition updateDirection_env (c : t) (e : Env) : Env :=
  update_element (element c)
    (if needsFlip c
     then (fun el => Dom.classList_remove "facing-left"
                       (Dom.classList_add "facing-right" el))
     else (fun el => Dom.classList_remove "facing-right"
                       (Dom.classList_add "facing-left" el)))
    e.

(** The environments [updateSprite] and [updateScale] leave behind. *)
Definition updateSprite_env (c : t) (e : Env) : Env :=
  if negb (String.eqb (spritePath c) "")
  then update_element (element c) (Dom.set_placeholder "#7c3aed" "50%") e
  else e.

Definition updateScale_env (c : t) (e : Env) : Env :=
  let size := Math.round (BASE_PET_SIZE
                          * (scale c * BASE_DISPLAY_MULTIPLIER * globalScreenScaleFactor e)) in
  if (size <? 0)%Z then e
  else update_element (element c) (Dom.set_styleSize (Some size)) e.

(** The step of a walking pet. *)
Definition stepped (c : t) : Q :=
  x c + baseSpeed c * speedMultiplier c * sign (direction c).

(** The attributes a snapshot entry prescribes. *)
Definition prescribed (state : Types.PetState)
  : string * Q * string * string * Types.SpriteFacing :=
  (Types.odangoId state, Types.scale state, Types.spritePath state,
   Types.stage state,
   match Types.defaultFacing state with Some f => f | None => Types.left end).

End PetNotions.

Section HoldNotions.
Import Runtime Interaction Props.

(** The hold is armed for [deadline]: the key is down, and either the one
    timer is pending and nothing has happened yet, or it has fired, once. *)
Definition armed (deadline : Q) (mode : bool) (log : list bool) (m : t) : Prop :=
  (exists pressed, hotkeyPressedAt (modeState m) = Some pressed)
  /\ ((exists id, timers m = [(id, deadline)]
                  /\ isInteractionMode (modeState m) = mode
                  /\ modeLog m = log)
      \/ (timers m = []
          /\ isInteractionMode (modeState m) = negb mode
          /\ modeLog m = log ++ [negb mode])).

(** The states the module can be in: start-up, then any events at any
    times. *)
Inductive reachable : t -> Prop :=
| reachable_init width height cb1 cb2 w e :
    reachable (initInteractionMode width height cb1 cb2 w e)
| reachable_deliver now ev m :
    reachable m -> reachable (fst (deliver now ev m)).

(** While the key is up no timer is pending; while it is down the only
    timer that can be pending is the one [holdCheckTimer] names. *)
Definition hold_inv (m : t) : Prop :=
  match hotkeyPressedAt (modeState m) with
  | None => timers m = []
  | Some _ =>
      timers m = []
      \/ exists id deadline,
           holdCheckTimer (modeState m) = Some (S id)
           /\ timers m = [(S id, deadline)]
  end.

End HoldNotions.

Section GestureNotions.
Import Runtime Interaction Props.




(** A run of pointer moves. *)
Definition moves (events : list MouseEvent) (m : t) : t :=
  fold_left (fun m e => onMouseMove e m) events m.

End GestureNotions.

Section ReconcileNotions.
Import Runtime Props.
Import MultiPetManager.

Implicit Types (cs : list (string * PetController.t)) (pets : list Types.PetState).

(** The effect of the snapshot entries on one controller stored under
    [id]: every entry with that id assigns its attributes. *)
Definition overlay pets (id : string) (c : PetController.t) : PetController.t :=
  fold_left (fun c pet => if String.eqb (Types.odangoId pet) id
                          then PetController.set_state pet c else c)
            pets c.

(** Every stored controller already shows what the entries prescribe. *)
Definition settled pets cs : Prop :=
  forall id c, JsMap.get id cs = Some c -> overlay pets id c = c.

(** One step of the second loop of [updatePets]. *)
Definition reconcile_step (m : t) (pet : Types.PetState) : M t :=
  if JsMap.has (Types.odangoId pet) (controllers m)
  then call (Types.odangoId pet) (PetController.updateState pet) m
  else addPet pet m.

(** One step of the first loop of [updatePets]. *)
Definition remove_step (newIds : list string) (m : t) (id : string) : M t :=
  if negb (existsb (String.eqb id) newIds) then removePet id m else ret m.

(** The second loop when every listed pet exists: a sequence of in-place
    assignments. *)
Definition refresh pets cs : list (string * PetController.t) :=
  fold_left (fun cs pet =>
               match JsMap.get (Types.odangoId pet) cs with
               | Some c => JsMap.set (Types.odangoId pet)
                             (PetController.set_state pet c) cs
               | None => cs
               end)
            pets cs.

End ReconcileNotions.

Section RateLimitNotions.
Import RateLimit.

(** The exported operations that neither verify nor reset. *)
Inductive Call :=
| CanRequestPairCode
| GetPairCodeRequestCount
| ShouldShowPairCodeWarning
| RecordPairCodeRequest
| CanLogout
| RecordLogout
| CanLogin
| RecordLogin
| CanMakeApiRequest
| RecordApiRequest
| GetRateLimitStatus.

(** The state one call leaves behind. *)
Definition perform (c : Call) (h : Host) (s : t) : t :=
  match c with
  | CanRequestPairCode => snd (canRequestPairCode h s)
  | GetPairCodeRequestCount => snd (getPairCodeRequestCount h s)
  | ShouldShowPairCodeWarning => snd (shouldShowPairCodeWarning h s)
  | RecordPairCodeRequest => recordPairCodeRequest h s
  | CanLogout => snd (canLogout h s)
  | RecordLogout => recordLogout h s
  | CanLogin => snd (canLogin h s)
  | RecordLogin => recordLogin h s
  | CanMakeApiRequest => snd (canMakeApiRequest h s)
  | RecordApiRequest => recordApiRequest h s
  | GetRateLimitStatus => snd (getRateLimitStatus h s)
  end.

(** A run of calls, each with what the host does during it. *)
Definition performAll (l : list (Call * Host)) (s : t) : t :=
  fold_left (fun s ch => perform (fst ch) (snd ch) s) l s.

(** How many of the calls record a pair-code request. *)
Definition recorded (l : list (Call * Host)) : Z :=
  Z.of_nat (length (List.filter
                      (fun ch => match fst ch with
                                 | RecordPairCodeRequest => true
                                 | _ => false
                                 end) l)).

(** A logout as the caller performs it: the check, and the record when the
    check allows it. *)
Definition logoutAttempt (h : Host) (s : t) : bool * t :=
  let '(result, s) := canLogout h s in
  if allowed result then (true, recordLogout h s) else (false, s).

(** A run of logout attempts, with the outcome of each. *)
Fixpoint logoutAttempts (hs : list Host) (s : t) : list bool * t :=
  match hs with
  | [] => ([], s)
  | h :: hs' =>
      let '(ok, s) := logoutAttempt h s in
      let '(oks, s) := logoutAttempts hs' s in
      (ok :: oks, s)
  end.

End RateLimitNotions.

(** * Facts *)

(** ** Boolean comparisons of rationals *)

Lemma Qltb_lt (a b : Q) : Qltb a b = true <-> a < b.
Proof.
  unfold Qltb. rewrite negb_true_iff, <- not_true_iff_false, Qle_bool_iff.
  split; lra.
Qed.

Lemma Qltb_ge (a b : Q) : Qltb a b = false <-> b <= a.
Proof.
  unfold Qltb. rewrite negb_false_iff, Qle_bool_iff. reflexivity.
Qed.

Lemma Qle_bool_gt (a b : Q) : Qle_bool a b = false <-> b < a.
Proof.
  rewrite <- not_true_iff_false, Qle_bool_iff. split; lra.
Qed.

(** Case analysis on the test [a <= b], leaving the order fact in the
    context under the given name. *)
Ltac case_Qle a b H :=
  destruct (Qle_bool a b) eqn:H;
  [apply Qle_bool_iff in H | apply Qle_bool_gt in H].

Lemma Math_abs_ge (a b : Q) : b <= Math.abs a <-> (a <= - b \/ b <= a).
Proof.
  unfold Math.abs. split.
  - intros H. destruct (Qlt_le_dec a 0) as [Hn | Hp].
    + rewrite Qabs_neg in H by lra. left. lra.
    + rewrite Qabs_pos in H by lra. right. lra.
  - intros [H | H].
    + pose proof (Qle_Qabs (- a)) as Hle. rewrite Qabs_opp in Hle. lra.
    + pose proof (Qle_Qabs a). lra.
Qed.

(** ** The element store *)

Section StoreFacts.
Import Runtime.

(** A sequence of two steps returns when both do. *)
Lemma bind_Some {A B : Type} (m : M A) (k : A -> M B) e b e2 :
  bind m k e = Some (b, e2) ->
  exists a e1, m e = Some (a, e1) /\ k a e1 = Some (b, e2).
Proof.
  unfold bind. destruct (m e) as [[a e1] |]; [| discriminate]. eauto.
Qed.

Lemma element_at_update_eq h f e :
  element_at h (update_element h f e) = f (element_at h e).
Proof.
  unfold element_at, update_element. simpl. apply lookup_total_insert_eq.
Qed.

Lemma element_at_update_ne h h' f e :
  h <> h' -> element_at h' (update_element h f e) = element_at h' e.
Proof.
  intros Hne. unfold element_at, update_element. simpl.
  by apply lookup_total_insert_ne.
Qed.

Lemma offsetWidth_update h h' f e :
  keeps_width f ->
  Dom.offsetWidth (element_at h' (update_element h f e))
  = Dom.offsetWidth (element_at h' e).
Proof.
  intros Hf. destruct (decide (h = h')) as [-> | Hne].
  - rewrite element_at_update_eq. apply Hf.
  - by rewrite element_at_update_ne.
Qed.

Lemma keeps_width_classList_remove c : keeps_width (Dom.classList_remove c).
Proof. intros el. reflexivity. Qed.

Lemma keeps_width_styleLeft v : keeps_width (Dom.set_styleLeft v).
Proof. intros el. reflexivity. Qed.

End StoreFacts.

(** ** Target selection *)

Section TargetFacts.
Import Runtime PetController Props.

Lemma drawTarget_step minX maxX x r rest :
  drawTarget minX maxX x (r :: rest)
  = if Qltb (Math.abs (minX + r * (maxX - minX) - x)) 50 && Qltb 100 (maxX - minX)
    then drawTarget minX maxX x rest
    else Some (minX + r * (maxX - minX), rest).
Proof. reflexivity. Qed.

(** The loop returns exactly when the tape holds an accepted draw. *)
Lemma drawTarget_total minX maxX x tape :
  Exists (accepted minX maxX x) tape ->
  exists target rest, drawTarget minX maxX x tape = Some (target, rest).
Proof.
  induction 1 as [r rest Hacc | r rest _ IH]; rewrite drawTarget_step.
  - destruct Hacc as [Hfar | Hnarrow].
    + apply Qltb_ge in Hfar. rewrite Hfar. simpl. eauto.
    + apply Qltb_ge in Hnarrow. rewrite Hnarrow, andb_false_r. eauto.
  - destruct (_ && _); eauto.
Qed.

(** What it returns is an accepted draw of the tape, and the draws before
    it were all refused. *)
Lemma drawTarget_result minX maxX x tape target rest :
  drawTarget minX maxX x tape = Some (target, rest) ->
  exists r skipped,
    tape = skipped ++ r :: rest
    /\ target = minX + r * (maxX - minX)
    /\ accepted minX maxX x r
    /\ Forall (fun s => ~ accepted minX maxX x s) skipped.
Proof.
  induction tape as [| r tape IH]; [discriminate |].
  rewrite drawTarget_step.
  destruct (Qltb _ 50) eqn:Hnear; simpl.
  - destruct (Qltb 100 _) eqn:Hwide; simpl.
    + intros Hrec. destruct (IH Hrec) as (r' & skipped & -> & Ht & Hacc & Hsk).
      exists r', (r :: skipped). repeat split; auto.
      constructor; [| exact Hsk].
      apply Qltb_lt in Hnear, Hwide. intros [Hfar | Hnarrow]; lra.
    + intros [= <- <-]. exists r, []. repeat split; auto.
      right. by apply Qltb_ge.
  - intros [= <- <-]. exists r, []. repeat split; auto.
    left. by apply Qltb_ge.
Qed.

(** In a range wider than 100 the result is at least 50 away from [x]. *)
Lemma drawTarget_far minX maxX x tape target rest :
  100 < maxX - minX ->
  drawTarget minX maxX x tape = Some (target, rest) ->
  50 <= Math.abs (target - x).
Proof.
  intros Hwide Hdraw.
  destruct (drawTarget_result _ _ _ _ _ _ Hdraw) as (r & _ & _ & -> & Hacc & _).
  destruct Hacc as [Hfar | Hnarrow]; [exact Hfar | lra].
Qed.

(** In a range of at most 100 the first draw is taken, whatever it is. *)
Lemma drawTarget_narrow minX maxX x r rest :
  maxX - minX <= 100 ->
  drawTarget minX maxX x (r :: rest) = Some (minX + r * (maxX - minX), rest).
Proof.
  intros Hnarrow. rewrite drawTarget_step.
  apply Qltb_ge in Hnarrow. by rewrite Hnarrow, andb_false_r.
Qed.

Lemma drawTarget_range minX maxX x tape target rest :
  Forall unit_draw tape ->
  minX <= maxX ->
  drawTarget minX maxX x tape = Some (target, rest) ->
  minX <= target /\ target <= maxX.
Proof.
  intros Hunit Hle Hdraw.
  destruct (drawTarget_result _ _ _ _ _ _ Hdraw) as (r & skipped & -> & -> & _ & _).
  apply Forall_app in Hunit as [_ Hunit].
  apply Forall_cons_1 in Hunit as [[H0 H1] _].
  split; nra.
Qed.

Lemma updateDirection_eq c e :
  updateDirection c e = Some (tt, updateDirection_env c e).
Proof.
  unfold updateDirection, updateDirection_env. by destruct (needsFlip c).
Qed.

(** [pickNewTarget] is the loop followed by three writes. *)
Lemma pickNewTarget_inv c e c' e' :
  pickNewTarget c e = Some (c', e') ->
  exists target rest,
    drawTarget 20 (containerWidth c - petWidth c e - 20) (x c) (random e)
    = Some (target, rest)
    /\ c' = set_target target (if Qltb (x c) target then Forward else Backward) c
    /\ e' = updateDirection_env c' (set_random rest e).
Proof.
  unfold pickNewTarget, bind, gets, ret. simpl.
  destruct (drawTarget _ _ _ _) as [[target rest] |] eqn:Hdraw; [| discriminate].
  rewrite updateDirection_eq. intros [= <- <-]. eauto.
Qed.

Lemma pickNewTarget_total c e :
  Exists (accepted 20 (containerWidth c - petWidth c e - 20) (x c)) (random e) ->
  exists c' e', pickNewTarget c e = Some (c', e').
Proof.
  intros Hex. destruct (drawTarget_total _ _ _ _ Hex) as (target & rest & Hdraw).
  unfold pickNewTarget, bind, gets, ret. simpl. rewrite Hdraw.
  rewrite updateDirection_eq. eauto.
Qed.

Lemma petWidth_updateDirection_env c c' e :
  petWidth c (updateDirection_env c' e) = petWidth c e.
Proof.
  unfold petWidth, updateDirection_env.
  rewrite offsetWidth_update; [reflexivity |].
  destruct (needsFlip c'); intros el; reflexivity.
Qed.

Lemma petWidth_pickNewTarget c e c' e' :
  pickNewTarget c e = Some (c', e') ->
  petWidth c' e' = petWidth c e.
Proof.
  intros H. destruct (pickNewTarget_inv _ _ _ _ H) as (target & rest & _ & -> & ->).
  rewrite petWidth_updateDirection_env. reflexivity.
Qed.

End TargetFacts.

Section TargetClaims.
Import Runtime PetController Props.

(** C2 (as amended).  [pickNewTarget] returns exactly when the tape holds a
    draw that ends the loop.  When the usable span
    [containerWidth - petWidth - 2 * 20] is strictly greater than 100, the
    chosen target is at least 50 away from the current position.  When the
    span is at most 100, the first draw is taken without a retry, however
    close it is. *)
Theorem pickNewTarget_distance (c : t) (e : Env) :
  ((exists c' e', pickNewTarget c e = Some (c', e'))
   <-> Exists (accepted 20 (targetMax c e) (x c)) (random e))
  /\ (100 < usableSpan c e ->
      forall c' e', pickNewTarget c e = Some (c', e') ->
                    50 <= Math.abs (targetX c' - x c))
  /\ (usableSpan c e <= 100 ->
      forall r rest, random e = r :: rest ->
      exists c' e', pickNewTarget c e = Some (c', e')
                    /\ targetX c' = 20 + r * usableSpan c e
                    /\ random e' = rest).
Proof.
  unfold usableSpan, targetMax. repeat split.
  - intros (c' & e' & H).
    destruct (pickNewTarget_inv _ _ _ _ H) as (target & rest & Hdraw & _ & _).
    destruct (drawTarget_result _ _ _ _ _ _ Hdraw) as (r & skipped & -> & _ & Hacc & _).
    apply Exists_app. right. by constructor.
  - apply pickNewTarget_total.
  - intros Hwide c' e' H.
    destruct (pickNewTarget_inv _ _ _ _ H) as (target & rest & Hdraw & -> & _).
    simpl. eapply drawTarget_far; eauto.
  - intros Hnarrow r rest Htape.
    unfold pickNewTarget, bind, gets, ret. simpl.
    rewrite Htape, drawTarget_narrow by exact Hnarrow.
    rewrite updateDirection_eq. do 2 eexists. split; [reflexivity |]. by split.
Qed.

(** C2, the statement as given, fails on a span of exactly 100: container
    204, pet width 64, position 70, draw 1/2.  The target is 70, the
    position itself. *)
Lemma pickNewTarget_span_100_counterexample :
  let c := Examples.pet "stage1" 204 70 Forward 0 in
  let e := Examples.env_of (Examples.pet_box 64 70) [1 # 2] in
  usableSpan c e == 100
  /\ exists c' e', pickNewTarget c e = Some (c', e')
                   /\ ~ 50 <= Math.abs (targetX c' - x c).
Proof.
  split; [reflexivity |].
  do 2 eexists. split; [vm_compute; reflexivity |].
  vm_compute. intros H. apply H. reflexivity.
Qed.

(** C2 at concrete inputs: a span of 296 with the draw 1/2 from position
    70, and a span of 60 with the same draw. *)
Lemma pickNewTarget_distance_witness :
  (let c := Examples.pet "stage1" 400 70 Forward 0 in
   let e := Examples.env_of (Examples.pet_box 64 70) [1 # 2] in
   100 < usableSpan c e
   /\ exists c' e', pickNewTarget c e = Some (c', e')
                    /\ 50 <= Math.abs (targetX c' - x c))
  /\ (let c := Examples.pet "stage1" 164 70 Forward 0 in
      let e := Examples.env_of (Examples.pet_box 64 70) [1 # 2] in
      usableSpan c e <= 100
      /\ exists c' e', pickNewTarget c e = Some (c', e')
                       /\ targetX c' = 20 + (1 # 2) * usableSpan c e
                       /\ random e' = []).
Proof.
  split.
  - set (c := Examples.pet "stage1" 400 70 Forward 0).
    set (e := Examples.env_of (Examples.pet_box 64 70) [1 # 2]).
    assert (Hwide : 100 < usableSpan c e) by (vm_compute; reflexivity).
    split; [exact Hwide |].
    do 2 eexists. split; [vm_compute; reflexivity |].
    eapply (proj1 (proj2 (pickNewTarget_distance c e)) Hwide).
    vm_compute. reflexivity.
  - set (c := Examples.pet "stage1" 164 70 Forward 0).
    set (e := Examples.env_of (Examples.pet_box 64 70) [1 # 2]).
    assert (Hnarrow : usableSpan c e <= 100) by (vm_compute; discriminate).
    split; [exact Hnarrow |].
    exact (proj2 (proj2 (pickNewTarget_distance c e)) Hnarrow (1 # 2) [] eq_refl).
Defined.

End TargetClaims.

Section RangeClaims.
Import Runtime PetController Props.

(** C10 (as amended).  When the draws lie in [[0, 1)] and the container
    leaves room for the margin on both sides
    ([20 <= containerWidth - petWidth - 20]), the target chosen by
    [pickNewTarget] lies within [[20, containerWidth - petWidth - 20]], hence
    strictly inside the interval of margin 10 used by the tick; the
    position is not moved, and the direction is forward when the target is
    to the right of the position and backward otherwise. *)
Theorem pickNewTarget_range (c : t) (e : Env) (c' : t) (e' : Env) :
  Forall unit_draw (random e) ->
  20 <= targetMax c e ->
  pickNewTarget c e = Some (c', e') ->
  (20 <= targetX c' /\ targetX c' <= targetMax c' e')
  /\ (10 < targetX c' /\ targetX c' < containerWidth c' - petWidth c' e' - 10)
  /\ x c' = x c
  /\ direction c' = (if Qltb (x c) (targetX c') then Forward else Backward).
Proof.
  intros Hunit Hroom H.
  pose proof (petWidth_pickNewTarget _ _ _ _ H) as Hw.
  destruct (pickNewTarget_inv _ _ _ _ H) as (target & rest & Hdraw & Hc & He).
  unfold targetMax in *. rewrite Hw.
  apply drawTarget_range in Hdraw as [Hlo Hhi]; [| exact Hunit | exact Hroom].
  subst c'. simpl. repeat split; try lra.
Qed.

(** C10, the statement as given, fails when the pet is wider than the
    container allows: container 400, pet width 384, position 10 (where
    [clampPositionToContainer] puts it), draw 1/2.  The target is 8. *)
Lemma pickNewTarget_wide_pet_counterexample :
  let c := Examples.pet "stage1" 400 10 Forward 0 in
  let e := Examples.env_of (Examples.pet_box 384 10) [1 # 2] in
  Forall unit_draw (random e)
  /\ exists c' e', pickNewTarget c e = Some (c', e')
                   /\ targetX c' == 8
                   /\ ~ (20 <= targetX c' /\ targetX c' <= targetMax c' e').
Proof.
  split.
  - repeat constructor; unfold unit_draw; lra.
  - do 2 eexists. split; [vm_compute; reflexivity |].
    split; [reflexivity |].
    intros [Hlo _]. vm_compute in Hlo. apply Hlo. reflexivity.
Qed.

(** C10 at a concrete input: container 400, pet width 64, position 70,
    draw 1/2; the target is 168. *)
Lemma pickNewTarget_range_witness :
  let c := Examples.pet "stage1" 400 70 Backward 0 in
  let e := Examples.env_of (Examples.pet_box 64 70) [1 # 2] in
  exists c' e',
    pickNewTarget c e = Some (c', e')
    /\ targetX c' == 168
    /\ (20 <= targetX c' /\ targetX c' <= targetMax c' e')
    /\ direction c' = Forward.
Proof.
  set (c := Examples.pet "stage1" 400 70 Backward 0).
  set (e := Examples.env_of (Examples.pet_box 64 70) [1 # 2]).
  destruct (pickNewTarget c e) as [[c' e'] |] eqn:H; [| vm_compute in H; discriminate].
  assert (Hunit : Forall unit_draw (random e))
    by (repeat constructor; unfold unit_draw; lra).
  assert (Hroom : 20 <= targetMax c e) by (vm_compute; discriminate).
  destruct (pickNewTarget_range c e c' e' Hunit Hroom H) as (Hin & _ & _ & Hdir).
  exists c', e'. split; [exact H |].
  vm_compute in H. injection H as <- <-.
  split; [vm_compute; reflexivity |]. split; [exact Hin | reflexivity].
Defined.

End RangeClaims.

(** ** Orientation *)

Section OrientationFacts.
Import Runtime PetController Props.

Lemma needsFlip_disagrees c : needsFlip c = disagrees (defaultFacing c) (direction c).
Proof. unfold needsFlip. by destruct (defaultFacing c), (direction c). Qed.

Lemma mirrored_updateDirection_env c e :
  mirrored (element c) (updateDirection_env c e) = needsFlip c.
Proof.
  unfold mirrored, updateDirection_env. rewrite element_at_update_eq.
  unfold Dom.classList_contains.
  destruct (needsFlip c); simpl.
  - apply andb_true_iff. split.
    + apply bool_decide_eq_true_2, elem_of_difference. split.
      * apply elem_of_union. right. by apply elem_of_singleton.
      * rewrite elem_of_singleton. discriminate.
    + apply negb_true_iff, bool_decide_eq_false_2.
      rewrite elem_of_difference, elem_of_singleton. intros [_ Hne]. by apply Hne.
  - apply andb_false_iff. left.
    apply bool_decide_eq_false_2.
    rewrite elem_of_difference, elem_of_singleton. intros [_ Hne]. by apply Hne.
Qed.

Lemma updateSprite_eq c e : updateSprite c e = Some (tt, updateSprite_env c e).
Proof. unfold updateSprite, updateSprite_env. by destruct (negb _). Qed.

Lemma updateScale_eq c e : updateScale c e = Some (tt, updateScale_env c e).
Proof.
  unfold updateScale, updateScale_env, bind, gets. simpl.
  by destruct (_ <? 0)%Z.
Qed.

(** [updateState] always returns: five assignments and three writes to the
    element. *)
Lemma updateState_eq state c e :
  updateState state c e
  = Some (set_state state c,
          updateDirection_env (set_state state c)
            (updateScale_env (set_state state c)
               (updateSprite_env (set_state state c) e))).
Proof.
  unfold updateState, bind, ret.
  by rewrite updateSprite_eq, updateScale_eq, updateDirection_eq.
Qed.

End OrientationFacts.

Section OrientationClaims.
Import Runtime PetController Props.

(** C9.  [updateDirection] leaves the sprite mirrored exactly when the
    default facing disagrees with the walk direction: left with forward and
    right with backward mirror, the two other combinations do not.  The rule
    is applied again by every state refresh ([updateState]), by every
    change of direction ([pickNewTarget]) and by the constructor: afterwards
    the element is mirrored exactly when the new facing disagrees with the
    new direction. *)
Theorem updateDirection_mirrors_iff_disagrees (c : t) (e : Env) :
  (exists e', updateDirection c e = Some (tt, e')
              /\ mirrored (element c) e' = disagrees (defaultFacing c) (direction c))
  /\ (disagrees Types.left Forward = true
      /\ disagrees Types.right Backward = true
      /\ disagrees Types.left Backward = false
      /\ disagrees Types.right Forward = false)
  /\ (forall state,
        exists c' e', updateState state c e = Some (c', e')
                      /\ mirrored (element c') e'
                         = disagrees (defaultFacing c') (direction c'))
  /\ (forall c' e',
        pickNewTarget c e = Some (c', e') ->
        mirrored (element c') e' = disagrees (defaultFacing c') (direction c'))
  /\ (forall h width initialX c' e',
        new h width initialX e = Some (c', e') ->
        mirrored (element c') e' = disagrees (defaultFacing c') (direction c')).
Proof.
  split; [| split; [| split; [| split]]].
  - exists (updateDirection_env c e). split; [apply updateDirection_eq |].
    rewrite mirrored_updateDirection_env. apply needsFlip_disagrees.
  - by repeat split.
  - intros state. do 2 eexists. split; [apply updateState_eq |].
    rewrite mirrored_updateDirection_env. apply needsFlip_disagrees.
  - intros c' e' H.
    destruct (pickNewTarget_inv _ _ _ _ H) as (target & rest & _ & Hc & ->).
    rewrite mirrored_updateDirection_env. apply needsFlip_disagrees.
  - intros h width initialX c' e' H. unfold new in H.
    apply bind_Some in H as (x0 & e1 & _ & H).
    apply bind_Some in H as (r1 & e2 & _ & H).
    apply bind_Some in H as (r2 & e3 & _ & H).
    apply bind_Some in H as (c1 & e4 & _ & H).
    unfold updatePosition, bind, modify in H. rewrite updateDirection_eq in H.
    injection H as <- <-.
    rewrite mirrored_updateDirection_env. apply needsFlip_disagrees.
Qed.

(** C9 at a concrete input: a left-facing sprite that turns to walk forward
    to its new target is mirrored. *)
Lemma updateDirection_mirrors_witness :
  let c := Examples.pet "stage1" 400 70 Backward 0 in
  let e := Examples.env_of (Examples.pet_box 64 70) [1 # 2] in
  exists c' e',
    pickNewTarget c e = Some (c', e')
    /\ direction c' = Forward
    /\ mirrored (element c') e' = true.
Proof.
  set (c := Examples.pet "stage1" 400 70 Backward 0).
  set (e := Examples.env_of (Examples.pet_box 64 70) [1 # 2]).
  destruct (pickNewTarget c e) as [[c' e'] |] eqn:H; [| vm_compute in H; discriminate].
  pose proof (proj1 (proj2 (proj2 (proj2 (updateDirection_mirrors_iff_disagrees c e))))
                c' e' H) as Hm.
  exists c', e'. split; [exact H |].
  rewrite Hm. vm_compute in H. injection H as <- <-. by split.
Defined.

End OrientationClaims.

(** ** The animation tick *)

Section AnimateFacts.
Import Runtime PetController Props.

(** The two-sided clamp, as the chain of tests the tick makes. *)
Lemma clamp_cases (lo hi v : Q) :
  lo <= hi ->
  Math.max lo (Math.min hi v)
  == (if Qle_bool v lo then lo else if Qle_bool hi v then hi else v).
Proof.
  intros Hle. unfold Math.max, Math.min.
  case_Qle v lo Hlow.
  - rewrite Q.min_r by lra. apply Q.max_l. lra.
  - case_Qle hi v Hhigh.
    + rewrite Q.min_l by lra. apply Q.max_r. lra.
    + rewrite Q.min_r by lra. apply Q.max_r. lra.
Qed.

Lemma petWidth_same_element c1 c2 e :
  element c1 = element c2 -> petWidth c1 e = petWidth c2 e.
Proof. unfold petWidth. by intros ->. Qed.

Lemma startResting_inv c e c' e' :
  startResting c e = Some (c', e') ->
  exists r rest,
    random e = r :: rest
    /\ c' = set_resting true (clock e + (2000 + r * 6000)) c
    /\ e' = update_element (element c) (Dom.classList_remove "walking")
              (set_random rest e).
Proof.
  unfold startResting, bind, Math_random, Date_now, gets, modify, ret.
  destruct (random e) as [| r rest]; [discriminate |].
  simpl. intros [= <- <-]. eauto.
Qed.

Lemma startResting_total c e r rest :
  random e = r :: rest ->
  startResting c e
  = Some (set_resting true (clock e + (2000 + r * 6000)) c,
          update_element (element c) (Dom.classList_remove "walking")
            (set_random rest e)).
Proof.
  intros Htape.
  unfold startResting, bind, Math_random, Date_now, gets, modify, ret.
  by rewrite Htape.
Qed.

Lemma petWidth_startResting c0 c e c' e' :
  startResting c e = Some (c', e') -> petWidth c0 e' = petWidth c0 e.
Proof.
  intros H. destruct (startResting_inv _ _ _ _ H) as (r & rest & _ & _ & ->).
  unfold petWidth. rewrite offsetWidth_update; [reflexivity |].
  apply keeps_width_classList_remove.
Qed.

Lemma petWidth_pickNewTarget_any c0 c e c' e' :
  pickNewTarget c e = Some (c', e') -> petWidth c0 e' = petWidth c0 e.
Proof.
  intros H. destruct (pickNewTarget_inv _ _ _ _ H) as (target & rest & _ & _ & ->).
  by rewrite petWidth_updateDirection_env.
Qed.

Lemma pickNewTarget_x c e c' e' :
  pickNewTarget c e = Some (c', e') ->
  x c' = x c /\ containerWidth c' = containerWidth c /\ element c' = element c.
Proof.
  intros H. destruct (pickNewTarget_inv _ _ _ _ H) as (target & rest & _ & -> & _).
  by repeat split.
Qed.

Lemma startResting_x c e c' e' :
  startResting c e = Some (c', e') ->
  x c' = x c /\ containerWidth c' = containerWidth c /\ element c' = element c.
Proof.
  intros H. destruct (startResting_inv _ _ _ _ H) as (r & rest & _ & -> & _).
  by repeat split.
Qed.

(** Contact with an edge: a rest, then a new target; the position stays. *)
Lemma rest_and_retarget_x c e c' e' :
  (do c <- startResting c; pickNewTarget c) e = Some (c', e') ->
  x c' = x c /\ containerWidth c' = containerWidth c /\ element c' = element c
  /\ forall c0, petWidth c0 e' = petWidth c0 e.
Proof.
  intros H. apply bind_Some in H as (c1 & e1 & Hrest & Hpick).
  destruct (startResting_x _ _ _ _ Hrest) as (Hx1 & Hw1 & Hel1).
  destruct (pickNewTarget_x _ _ _ _ Hpick) as (Hx2 & Hw2 & Hel2).
  repeat split; try congruence.
  intros c0. rewrite (petWidth_pickNewTarget_any c0 _ _ _ _ Hpick).
  apply (petWidth_startResting c0 _ _ _ _ Hrest).
Qed.

(** What a tick of a walking pet leaves behind. *)
Lemma animate_moving_inv c e c' e' :
  isEgg c = false -> isPaused c = false -> isMovementEnabled c = true ->
  isResting c = false ->
  animate c e = Some (c', e') ->
  x c' = (if Qle_bool (stepped c) 10 then 10
          else if Qle_bool (containerWidth c - petWidth c e - 10) (stepped c)
               then containerWidth c - petWidth c e - 10
               else stepped c)
  /\ containerWidth c' = containerWidth c
  /\ petWidth c' e' = petWidth c e.
Proof.
  intros Hegg Hpaused Hen Hrest H.
  unfold animate in H. rewrite Hegg, Hpaused, Hen, Hrest in H. simpl in H.
  apply bind_Some in H as (c1 & e1 & H & Hraf).
  apply bind_Some in H as (now & e0 & Hnow & H).
  apply bind_Some in H as (pw & e0' & Hpw & H).
  apply bind_Some in H as (c2 & e2 & Hedge & H).
  apply bind_Some in H as (c3 & e3 & Hdist & H).
  unfold Date_now, gets in Hnow, Hpw. injection Hnow as <- <-. injection Hpw as <- <-.
  unfold requestAnimationFrame, bind, ret in Hraf. injection Hraf as <- <-.
  unfold updatePosition, bind, modify, ret in H. injection H as <- <-.
  change (petWidth (set_x _ c) e) with (petWidth c e) in Hedge.
  fold (stepped c) in Hedge.
  assert (Hc3 : x c3 = x c2 /\ containerWidth c3 = containerWidth c2
                /\ element c3 = element c2
                /\ forall c0, petWidth c0 e3 = petWidth c0 e2).
  { destruct (Qltb _ _).
    - destruct (startResting_x _ _ _ _ Hdist) as (? & ? & ?).
      repeat split; auto. intros c0. eapply petWidth_startResting; eauto.
    - injection Hdist as <- <-. by repeat split. }
  destruct Hc3 as (Hx3 & Hw3 & Hel3 & Hpw3).
  assert (Hc2 : x c2 = (if Qle_bool (stepped c) 10 then 10
                        else if Qle_bool (containerWidth c - petWidth c e - 10) (stepped c)
                             then containerWidth c - petWidth c e - 10
                             else stepped c)
                /\ containerWidth c2 = containerWidth c
                /\ element c2 = element c
                /\ forall c0, petWidth c0 e2 = petWidth c0 e).
  { destruct (Qle_bool (stepped c) 10).
    - apply rest_and_retarget_x in Hedge as (? & ? & ? & ?). by repeat split.
    - destruct (Qle_bool _ (stepped c)).
      + apply rest_and_retarget_x in Hedge as (? & ? & ? & ?). by repeat split.
      + injection Hedge as <- <-. by repeat split. }
  destruct Hc2 as (Hx2 & Hw2 & Hel2 & Hpw2).
  simpl. repeat split; try congruence.
  change (petWidth c3 (update_element (element c3) (Dom.set_styleLeft (x c3)) e3)
          = petWidth c e).
  unfold petWidth at 1. rewrite offsetWidth_update by apply keeps_width_styleLeft.
  fold (petWidth c3 e3). rewrite Hpw3, Hpw2.
  apply petWidth_same_element. congruence.
Qed.

End AnimateFacts.
Section AnimateTotality.
Import Runtime PetController Props.

Lemma pickNewTarget_first c e r rest :
  random e = r :: rest ->
  accepted 20 (containerWidth c - petWidth c e - 20) (x c) r ->
  exists c', pickNewTarget c e
             = Some (c', updateDirection_env c' (set_random rest e))
             /\ x c' = x c /\ element c' = element c.
Proof.
  intros Htape Hacc.
  unfold pickNewTarget, bind, gets, ret. simpl.
  rewrite Htape, drawTarget_step.
  replace (_ && _) with false.
  - rewrite updateDirection_eq. eexists. split; [reflexivity |]. by split.
  - symmetry. destruct Hacc as [Hfar | Hnarrow].
    + apply Qltb_ge in Hfar. by rewrite Hfar.
    + apply Qltb_ge in Hnarrow. by rewrite Hnarrow, andb_false_r.
Qed.

(** At either edge the draw 1/2 is always taken. *)
Lemma half_accepted_at_edges (width v : Q) :
  20 <= width ->
  v == 10 \/ v == width - 10 ->
  accepted 20 (width - 20) v (1 # 2).
Proof.
  intros Hroom Hedge. unfold accepted.
  destruct (Qlt_le_dec 100 (width - 20 - 20)) as [Hwide | Hnarrow]; [left | by right].
  apply Math_abs_ge. destruct Hedge as [Hv | Hv]; [right | left]; lra.
Qed.

Lemma rest_and_retarget_total c e a b rest :
  random e = a :: (1 # 2) :: b :: rest ->
  20 <= containerWidth c - petWidth c e ->
  x c == 10 \/ x c == containerWidth c - petWidth c e - 10 ->
  exists c' e', (do c <- startResting c; pickNewTarget c) e = Some (c', e')
                /\ random e' = b :: rest.
Proof.
  intros Htape Hroom Hedge. unfold bind.
  rewrite (startResting_total _ _ _ _ Htape).
  set (c1 := set_resting _ _ c). set (e1 := update_element _ _ _).
  assert (Hw : petWidth c1 e1 = petWidth c e).
  { unfold e1, petWidth. rewrite offsetWidth_update by apply keeps_width_classList_remove.
    reflexivity. }
  destruct (pickNewTarget_first c1 e1 (1 # 2) (b :: rest)) as (c' & Hpick & _).
  - reflexivity.
  - rewrite Hw. unfold c1. simpl. apply half_accepted_at_edges; [lra | exact Hedge].
  - rewrite Hpick. do 2 eexists. split; [reflexivity | reflexivity].
Qed.

Lemma animate_moving_total c e a b rest :
  isEgg c = false -> isPaused c = false -> isMovementEnabled c = true ->
  isResting c = false ->
  10 <= containerWidth c - petWidth c e - 10 ->
  random e = a :: (1 # 2) :: b :: rest ->
  exists c' e', animate c e = Some (c', e').
Proof.
  intros Hegg Hpaused Hen Hrest Hroom Htape.
  unfold animate. rewrite Hegg, Hpaused, Hen, Hrest. simpl.
  unfold bind at 1. unfold bind at 1. unfold Date_now, gets.
  unfold bind at 1.
  change (petWidth (set_x _ c) e) with (petWidth c e).
  fold (stepped c).
  assert (Hedge : exists c2 e2 r rs,
             (if Qle_bool (stepped c) 10
              then do c0 <- startResting (set_x 10 (set_x (stepped c) c));
                   pickNewTarget c0
              else if Qle_bool (containerWidth c - petWidth c e - 10) (stepped c)
                   then do c0 <- startResting
                                   (set_x (containerWidth c - petWidth c e - 10)
                                      (set_x (stepped c) c));
                        pickNewTarget c0
                   else ret (set_x (stepped c) c)) e = Some (c2, e2)
             /\ random e2 = r :: rs).
  { destruct (Qle_bool (stepped c) 10).
    - assert (Hfit : 20 <= containerWidth c - petWidth c e) by lra.
      destruct (rest_and_retarget_total (set_x 10 (set_x (stepped c) c)) e a b rest
                  Htape Hfit (or_introl (Qeq_refl _)))
        as (c2 & e2 & H2 & Ht2).
      eauto 6.
    - destruct (Qle_bool _ (stepped c)).
      + assert (Hfit : 20 <= containerWidth c - petWidth c e) by lra.
        destruct (rest_and_retarget_total
                    (set_x (containerWidth c - petWidth c e - 10) (set_x (stepped c) c))
                    e a b rest Htape Hfit (or_intror (Qeq_refl _)))
          as (c2 & e2 & H2 & Ht2).
        eauto 6.
      + unfold ret. eauto 6. }
  destruct Hedge as (c2 & e2 & r & rs & Hedge & Ht2).
  unfold bind at 1. rewrite Hedge.
  unfold bind at 1.
  assert (Hdist : exists c3 e3,
             (if Qltb (Math.abs (x c2 - targetX c2)) (baseSpeed c * speedMultiplier c * 2)
              then startResting c2 else ret c2) e2 = Some (c3, e3)).
  { destruct (Qltb _ _).
    - rewrite (startResting_total _ _ _ _ Ht2). eauto.
    - unfold ret. eauto. }
  destruct Hdist as (c3 & e3 & Hdist). rewrite Hdist.
  unfold updatePosition, requestAnimationFrame, bind, modify, ret. eauto.
Qed.
End AnimateTotality.

Section StillFacts.
Import Runtime PetController Props.

(** The tick of an egg: nothing but the next frame request. *)
Lemma animate_egg_eq c e :
  isEgg c = true ->
  animate c e = Some (set_animationFrameId (Some (S (frameCount e))) c,
                      set_frameCount (S (frameCount e)) e).
Proof. intros Hegg. unfold animate. by rewrite Hegg. Qed.

(** A tick that does not walk leaves the position alone. *)
Lemma animate_still c e c' e' :
  isEgg c = true \/ isPaused c = true \/ isMovementEnabled c = false
  \/ isResting c = true ->
  animate c e = Some (c', e') ->
  x c' = x c.
Proof.
  intros Hstill H. unfold animate in H.
  destruct (isEgg c) eqn:Hegg.
  { injection H as <- <-. reflexivity. }
  apply bind_Some in H as (c1 & e1 & H & Hraf).
  unfold requestAnimationFrame, bind, ret in Hraf. injection Hraf as <- <-.
  simpl.
  destruct (isPaused c) eqn:Hpaused; simpl in H.
  { injection H as <- <-. reflexivity. }
  destruct (isMovementEnabled c) eqn:Hen; simpl in H.
  2: { injection H as <- <-. reflexivity. }
  destruct (isResting c) eqn:Hrest.
  2: { destruct Hstill as [? | [? | [? | ?]]]; discriminate. }
  apply bind_Some in H as (now & e0 & Hnow & H).
  destruct (Qle_bool _ _).
  - apply bind_Some in H as (c2 & e2 & Hpick & H).
    unfold bind, modify, ret in H. injection H as <- <-.
    by destruct (pickNewTarget_x _ _ _ _ Hpick) as (-> & _).
  - injection H as <- <-. reflexivity.
Qed.

Lemma ticks_egg times c e :
  isEgg c = true ->
  exists c' e',
    ticks times c e = Some (c', e')
    /\ x c' = x c
    /\ isEgg c' = true
    /\ element c' = element c
    /\ dom e' = dom e.
Proof.
  revert c e. induction times as [| now times IH]; intros c e Hegg.
  - exists c, e. by repeat split.
  - simpl. unfold bind at 1. unfold modify. unfold bind at 1.
    rewrite animate_egg_eq by exact Hegg.
    destruct (IH (set_animationFrameId (Some (S (frameCount (set_clock now e)))) c)
                 (set_frameCount (S (frameCount (set_clock now e))) (set_clock now e))
                 Hegg)
      as (c' & e' & Hticks & Hx & Hegg' & Hel & Hdom).
    exists c', e'. by repeat split.
Qed.

End StillFacts.

Section TickClaims.
Import Runtime PetController Props.

(** C1 (as amended).  A tick that walks (the pet is not an egg, not paused,
    movement is enabled, it is not resting) in a container that leaves room
    for the margin on both sides ([10 <= containerWidth - width - 10]) adds
    [baseSpeed * speedMultiplier * direction] to the position and clamps the
    sum into [[10, containerWidth - width - 10]]: the new position lies in
    that interval.  Such a tick returns as soon as the tape has three draws
    of which the second is 1/2.  Every other tick (egg, paused, movement
    disabled, resting) leaves the position as it was. *)
Theorem animate_position (c : t) (e : Env) :
  (isEgg c = false -> isPaused c = false -> isMovementEnabled c = true ->
   isResting c = false ->
   10 <= containerWidth c - petWidth c e - 10 ->
   (forall c' e',
      animate c e = Some (c', e') ->
      x c' == Math.max 10 (Math.min (containerWidth c - petWidth c e - 10)
                             (x c + baseSpeed c * speedMultiplier c * sign (direction c)))
      /\ inBounds c' e')
   /\ (forall a b rest,
         random e = a :: (1 # 2) :: b :: rest ->
         exists c' e', animate c e = Some (c', e')))
  /\ (isEgg c = true \/ isPaused c = true \/ isMovementEnabled c = false
      \/ isResting c = true ->
      forall c' e', animate c e = Some (c', e') -> x c' = x c).
Proof.
  split.
  - intros Hegg Hpaused Hen Hrest Hroom. split.
    + intros c' e' H.
      destruct (animate_moving_inv _ _ _ _ Hegg Hpaused Hen Hrest H) as (Hx & Hw & Hpw).
      pose proof (clamp_cases 10 (containerWidth c - petWidth c e - 10) (stepped c) Hroom)
        as Hclamp.
      fold (stepped c). rewrite <- Hx in Hclamp. split.
      * symmetry. exact Hclamp.
      * unfold inBounds. rewrite Hw, Hpw, <- Hclamp.
        unfold Math.max, Math.min. split.
        -- apply Q.le_max_l.
        -- apply Q.max_lub; [exact Hroom | apply Q.le_min_l].
    + intros a b rest Htape. eapply animate_moving_total; eauto.
  - intros Hstill c' e' H. eapply animate_still; eauto.
Qed.

(** C1, the statement as given, fails for an egg.  The manager adds an egg
    to a container of width 400; the constructor draws 29/30 and places it
    at 340; its box is 96 wide, so the interval ends at 294.  The tick
    returns before it looks at the position. *)
Lemma animate_egg_outside_counterexample :
  let m0 := MultiPetManager.new 0 400 in
  let e0 := Examples.empty_env [29 # 30; 1 # 2; 1 # 2; 1 # 2] in
  exists m1 e1 c c' e',
    MultiPetManager.updatePets [Examples.egg_state] m0 e0 = Some (m1, e1)
    /\ JsMap.get "a" (MultiPetManager.controllers m1) = Some c
    /\ animate c e1 = Some (c', e')
    /\ x c' == 340
    /\ containerWidth c' - petWidth c' e' - 10 == 294
    /\ ~ inBounds c' e'.
Proof.
  do 5 eexists.
  split; [vm_compute; reflexivity |].
  split; [vm_compute; reflexivity |].
  split; [vm_compute; reflexivity |].
  split; [vm_compute; reflexivity |].
  split; [vm_compute; reflexivity |].
  intros [_ Hhi]. vm_compute in Hhi. apply Hhi. reflexivity.
Qed.

(** C1 at concrete inputs: a pet that walks forward from 70 in a container
    of width 400 ends at 71, inside [[10, 326]]; a resting pet stays at 70. *)
Lemma animate_position_witness :
  (let c := Examples.pet "stage1" 400 70 Forward 200 in
   let e := Examples.env_of (Examples.pet_box 64 70) [1 # 2; 1 # 2; 1 # 2] in
   exists c' e', animate c e = Some (c', e') /\ x c' == 71 /\ inBounds c' e')
  /\ (let c := set_resting true 5000 (Examples.pet "stage1" 400 70 Forward 200) in
      let e := Examples.env_of (Examples.pet_box 64 70) [] in
      exists c' e', animate c e = Some (c', e') /\ x c' = 70).
Proof.
  split.
  - set (c := Examples.pet "stage1" 400 70 Forward 200).
    set (e := Examples.env_of (Examples.pet_box 64 70) [1 # 2; 1 # 2; 1 # 2]).
    assert (Hroom : 10 <= containerWidth c - petWidth c e - 10)
      by (vm_compute; discriminate).
    destruct (proj1 (animate_position c e) eq_refl eq_refl eq_refl eq_refl Hroom)
      as [Hin Hret].
    destruct (Hret (1 # 2) (1 # 2) [] eq_refl) as (c' & e' & H).
    destruct (Hin c' e' H) as [Hx Hb].
    exists c', e'. split; [exact H |]. split; [| exact Hb].
    rewrite Hx. vm_compute. reflexivity.
  - set (c := set_resting true 5000 (Examples.pet "stage1" 400 70 Forward 200)).
    set (e := Examples.env_of (Examples.pet_box 64 70) []).
    destruct (animate c e) as [[c' e'] |] eqn:H; [| vm_compute in H; discriminate].
    exists c', e'. split; [exact H |].
    exact (proj2 (animate_position c e) (or_intror (or_intror (or_intror eq_refl))) c' e' H).
Defined.

(** C7.  For a pet whose stage is ["egg"], any number of ticks, at any
    times, return and leave the position as it was, whatever the resting,
    pause and movement flags are; the stage is still ["egg"] and the
    element has not moved. *)
Theorem egg_position_invariant (c : t) (e : Env) (times : list Q) :
  stage c = "egg"%string ->
  exists c' e',
    ticks times c e = Some (c', e')
    /\ x c' = x c
    /\ stage c' = "egg"%string
    /\ Dom.styleLeft (element_at (element c') e')
       = Dom.styleLeft (element_at (element c) e).
Proof.
  intros Hstage.
  assert (Hegg : isEgg c = true) by (unfold isEgg; by rewrite Hstage).
  destruct (ticks_egg times c e Hegg) as (c' & e' & H & Hx & Hegg' & Hel & Hdom).
  exists c', e'. repeat split; auto.
  - by apply String.eqb_eq.
  - unfold element_at. by rewrite Hel, Hdom.
Qed.

(** C7 at a concrete input: three frames of a paused egg at 340. *)
Lemma egg_position_invariant_witness :
  let c := set_isPaused true (Examples.pet "egg" 400 340 Forward 100) in
  let e := Examples.env_of (Examples.pet_box 64 340) [] in
  exists c' e', ticks [0; 16; 32] c e = Some (c', e') /\ x c' = 340.
Proof.
  set (c := set_isPaused true (Examples.pet "egg" 400 340 Forward 100)).
  set (e := Examples.env_of (Examples.pet_box 64 340) []).
  destruct (egg_position_invariant c e [0; 16; 32] eq_refl)
    as (c' & e' & H & Hx & _ & _).
  exists c', e'. split; [exact H | exact Hx].
Defined.

End TickClaims.

(** ** Window resize *)

Section ResizeClaims.
Import Runtime Interaction.

(** Any resize move keeps the width at 400 or more, and a left-edge move
    keeps the right edge of the window where it was at the start of the
    gesture. *)
Lemma resize_floor_and_right_edge (e : MouseEvent) (m : t) (d : ResizeDirection) :
  isDraggingPet (dragState m) = false ->
  isDragging (dragState m) = false ->
  isResizing (dragState m) = true ->
  resizeDirection (dragState m) = Some d ->
  let m' := onMouseMove e m in
  400 <= windowWidth (windowInfo m')
  /\ sizeWidth (window m') = windowWidth (windowInfo m')
  /\ (d = resize_left ->
      positionX (window m') + sizeWidth (window m')
      == windowStartX (dragState m) + windowStartWidth (dragState m)).
Proof.
  intros Hpet Hdrag Hres Hdir. unfold onMouseMove.
  rewrite Hpet, Hdrag, Hres, Hdir.
  destruct d; simpl.
  - split; [apply Q.le_max_l |]. split; [reflexivity |]. intros _.
    set (narrowed := windowStartWidth (dragState m)
                     - (screenX e - dragStartX (dragState m))).
    destruct (Qeq_bool (Math.max 400 narrowed) 400) eqn:Hfloor; simpl.
    + apply Qeq_bool_iff in Hfloor. rewrite Hfloor. lra.
    + apply Qeq_bool_neq in Hfloor. unfold Math.max in *.
      destruct (Q.max_spec 400 narrowed) as [[_ Hmax] | [_ Hmax]];
        [| contradiction].
      rewrite Hmax. unfold narrowed. lra.
  - split; [apply Q.le_max_l |]. split; [reflexivity |]. discriminate.
Qed.

(** C3.  During a left-edge resize with anchor width 500, a pointer that has
    moved 150 to the right (a width delta of -150) leaves the width at the
    floor, 400, and the window origin at the anchor origin plus 100, not
    plus 150; the window never gets narrower than 400. *)
Theorem left_resize_stops_at_floor (e : MouseEvent) (m : t) :
  isDraggingPet (dragState m) = false ->
  isDragging (dragState m) = false ->
  isResizing (dragState m) = true ->
  resizeDirection (dragState m) = Some resize_left ->
  windowStartWidth (dragState m) == 500 ->
  screenX e - dragStartX (dragState m) == 150 ->
  let m' := onMouseMove e m in
  windowWidth (windowInfo m') == 400
  /\ sizeWidth (window m') == 400
  /\ positionX (window m') == windowStartX (dragState m) + 100
  /\ ~ positionX (window m') == windowStartX (dragState m) + 150
  /\ positionY (window m') = windowStartY (dragState m).
Proof.
  intros Hpet Hdrag Hres Hdir Hw Hdx. unfold onMouseMove.
  rewrite Hpet, Hdrag, Hres, Hdir. simpl.
  assert (Hmax : Math.max 400 (windowStartWidth (dragState m)
                                - (screenX e - dragStartX (dragState m))) == 400).
  { unfold Math.max. apply Q.max_l. lra. }
  assert (Hfloor : Qeq_bool (Math.max 400 (windowStartWidth (dragState m)
                                - (screenX e - dragStartX (dragState m)))) 400 = true)
    by (apply Qeq_bool_iff; exact Hmax).
  rewrite Hfloor. simpl. repeat split; try exact Hmax; lra.
Qed.

(** C3 at a concrete input: in interaction mode over a window of width 500
    at 200, the left handle is grabbed at 1000 and dragged to 1150; the
    window ends 400 wide at 300. *)
Lemma left_resize_stops_at_floor_witness :
  let m := fst (deliver 700 (MouseDown (Examples.on_left_handle 1000))
                  (Examples.interactive 500 (Examples.empty_env []))) in
  let m' := onMouseMove (Examples.pointer_at 1150) m in
  listening m = true
  /\ windowStartWidth (dragState m) == 500
  /\ windowStartX (dragState m) == 200
  /\ windowWidth (windowInfo m') == 400
  /\ positionX (window m') == 300.
Proof.
  set (m := fst (deliver 700 (MouseDown (Examples.on_left_handle 1000))
                   (Examples.interactive 500 (Examples.empty_env [])))).
  assert (Hw : windowStartWidth (dragState m) == 500) by (vm_compute; reflexivity).
  assert (Hdx : screenX (Examples.pointer_at 1150) - dragStartX (dragState m) == 150)
    by (vm_compute; reflexivity).
  destruct (left_resize_stops_at_floor (Examples.pointer_at 1150) m
              eq_refl eq_refl eq_refl eq_refl Hw Hdx)
    as (Hwidth & _ & Hx & _ & _).
  split; [reflexivity |]. split; [exact Hw |].
  split; [vm_compute; reflexivity |]. split; [exact Hwidth |].
  rewrite Hx. vm_compute. reflexivity.
Defined.

End ResizeClaims.

(** ** Hold detection *)

Section HoldFacts.
Import Runtime Interaction Props.

(** What a toggle changes in the hold-detection state: the mode flips, a
    console line is written, nothing else. *)
Lemma toggleInteractionMode_hold m :
  modeState (toggleInteractionMode m)
  = {| isInteractionMode := negb (isInteractionMode (modeState m));
       hotkeyPressedAt := hotkeyPressedAt (modeState m);
       holdCheckTimer := holdCheckTimer (modeState m) |}
  /\ timers (toggleInteractionMode m) = timers m
  /\ timerCount (toggleInteractionMode m) = timerCount m
  /\ modeLog (toggleInteractionMode m)
     = modeLog m ++ [negb (isInteractionMode (modeState m))].
Proof.
  unfold toggleInteractionMode.
  destruct (negb (isInteractionMode (modeState m))); by repeat split.
Qed.

(** A press while the key is already down does nothing. *)
Lemma onHotkeyPressed_repeat m :
  hotkeyPressedAt (modeState m) <> None -> onHotkeyPressed m = m.
Proof.
  intros Hdown. unfold onHotkeyPressed.
  destruct (hotkeyPressedAt (modeState m)); [reflexivity | contradiction].
Qed.

(** Time passing with no timer pending only moves the clock. *)
Lemma advance_no_timers now m :
  timers m = [] ->
  modeState (advance now m) = modeState m
  /\ timers (advance now m) = []
  /\ timerCount (advance now m) = timerCount m
  /\ modeLog (advance now m) = modeLog m.
Proof.
  intros Hnone. unfold advance. rewrite Hnone. simpl. by repeat split.
Qed.

(** One timer pending, not yet due. *)
Lemma advance_before now m id deadline :
  timers m = [(id, deadline)] ->
  now < deadline ->
  modeState (advance now m) = modeState m
  /\ timers (advance now m) = [(id, deadline)]
  /\ timerCount (advance now m) = timerCount m
  /\ modeLog (advance now m) = modeLog m.
Proof.
  intros Hone Hlt. unfold advance. rewrite Hone. simpl. unfold due. simpl.
  apply Qle_bool_gt in Hlt. rewrite Hlt. simpl. by repeat split.
Qed.

(** One timer pending and due, with the key still down: it fires. *)
Lemma advance_fires now m id deadline pressed :
  timers m = [(id, deadline)] ->
  deadline <= now ->
  hotkeyPressedAt (modeState m) = Some pressed ->
  modeState (advance now m)
  = {| isInteractionMode := negb (isInteractionMode (modeState m));
       hotkeyPressedAt := Some pressed;
       holdCheckTimer := holdCheckTimer (modeState m) |}
  /\ timers (advance now m) = []
  /\ timerCount (advance now m) = timerCount m
  /\ modeLog (advance now m) = modeLog m ++ [negb (isInteractionMode (modeState m))].
Proof.
  intros Hone Hle Hdown. unfold advance. rewrite Hone. simpl. unfold due. simpl.
  apply Qle_bool_iff in Hle. rewrite Hle. simpl.
  unfold holdTimerFired. simpl. rewrite Hdown.
  match goal with
  | |- context [toggleInteractionMode ?m0] =>
      destruct (toggleInteractionMode_hold m0) as (Hms & Ht & Hc & Hlog)
  end.
  rewrite Hms, Ht, Hc, Hlog. simpl. rewrite Hdown. by repeat split.
Qed.

Lemma advance_armed now deadline mode log m :
  armed deadline mode log m -> armed deadline mode log (advance now m).
Proof.
  intros [[pressed Hdown] [(id & Hone & Hmode & Hlog) | (Hnone & Hmode & Hlog)]].
  - destruct (Qlt_le_dec now deadline) as [Hlt | Hle].
    + destruct (advance_before now m id deadline Hone Hlt) as (Hms & Ht & _ & Hl).
      split; [rewrite Hms; eauto |]. left. exists id. by rewrite Hms, Ht, Hl.
    + destruct (advance_fires now m id deadline pressed Hone Hle Hdown)
        as (Hms & Ht & _ & Hl).
      split; [rewrite Hms; simpl; eauto |]. right.
      rewrite Hms, Ht, Hl. simpl. by rewrite Hmode, Hlog.
  - destruct (advance_no_timers now m Hnone) as (Hms & Ht & _ & Hl).
    split; [rewrite Hms; eauto |]. right. by rewrite Hms, Ht, Hl.
Qed.

Lemma advance_armed_due now deadline mode log m :
  deadline <= now ->
  armed deadline mode log m ->
  timers (advance now m) = []
  /\ isInteractionMode (modeState (advance now m)) = negb mode
  /\ modeLog (advance now m) = log ++ [negb mode].
Proof.
  intros Hle [[pressed Hdown] [(id & Hone & Hmode & Hlog) | (Hnone & Hmode & Hlog)]].
  - destruct (advance_fires now m id deadline pressed Hone Hle Hdown)
      as (Hms & Ht & _ & Hl).
    rewrite Hms, Ht, Hl. simpl. by rewrite Hmode, Hlog.
  - destruct (advance_no_timers now m Hnone) as (Hms & Ht & _ & Hl).
    by rewrite Hms, Ht, Hl.
Qed.

Lemma presses_armed times deadline mode log m :
  armed deadline mode log m -> armed deadline mode log (presses times m).
Proof.
  revert m. induction times as [| now times IH]; intros m Harmed; [exact Harmed |].
  unfold presses. simpl. apply IH.
  apply (advance_armed now) in Harmed.
  rewrite onHotkeyPressed_repeat; [exact Harmed |].
  destruct Harmed as [[pressed Hdown] _]. by rewrite Hdown.
Qed.

(** The first press from a released key arms exactly one timer, due after
    the hold duration. *)
Lemma first_press_arms now m :
  hotkeyPressedAt (modeState m) = None ->
  timers m = [] ->
  let m1 := fst (deliver now HotkeyPressed m) in
  armed (now + HOLD_DURATION_MS) (isInteractionMode (modeState m)) (modeLog m) m1
  /\ timers m1 = [(S (timerCount m), now + HOLD_DURATION_MS)]
  /\ modeState m1 = {| isInteractionMode := isInteractionMode (modeState m);
                       hotkeyPressedAt := Some now;
                       holdCheckTimer := Some (S (timerCount m)) |}
  /\ modeLog m1 = modeLog m.
Proof.
  intros Hup Hnone. simpl.
  destruct (advance_no_timers now m Hnone) as (Hms & Ht & Hc & Hl).
  unfold onHotkeyPressed. rewrite Hms, Hup.
  unfold setTimeout. rewrite Ht, Hc.
  assert (Hclock : clock (env (advance now m)) = now).
  { unfold advance. rewrite Hnone. reflexivity. }
  rewrite Hclock. simpl. rewrite Hms, Hl.
  split; [| by repeat split].
  unfold armed. simpl. rewrite ?Hms, ?Hl.
  split; [eauto |]. left. exists (S (timerCount m)). by repeat split.
Qed.

(** A release clears a pending hold timer and forgets the press. *)
Lemma onHotkeyReleased_clears m id deadline :
  holdCheckTimer (modeState m) = Some (S id) ->
  timers m = [(S id, deadline)] ->
  timers (onHotkeyReleased m) = []
  /\ modeState (onHotkeyReleased m)
     = {| isInteractionMode := isInteractionMode (modeState m);
          hotkeyPressedAt := None; holdCheckTimer := None |}
  /\ modeLog (onHotkeyReleased m) = modeLog m.
Proof.
  intros Hid Hone. unfold onHotkeyReleased. rewrite Hid. simpl.
  unfold clearTimeout. rewrite Hone. simpl. rewrite Nat.eqb_refl. simpl.
  by repeat split.
Qed.

End HoldFacts.

Section HoldClaims.
Import Runtime Interaction Props.

(** C4.  From a released key, a [Pressed] event at [pressed], any run of
    further [Pressed] events (key repeat) and no [Released] event, observed
    at a time at least 500 ms after the first press: the first press arms a
    single timer, every further press leaves the state as it is, and the
    mode has been toggled exactly once (one console line, the mode is the
    opposite of what it was, no timer is left). *)
Theorem hold_toggles_once (m : t) (pressed : Q) (repeats : list Q) (later : Q) :
  hotkeyPressedAt (modeState m) = None ->
  timers m = [] ->
  pressed + 500 <= later ->
  let m1 := fst (deliver pressed HotkeyPressed m) in
  let m2 := advance later (presses repeats m1) in
  length (timers m1) = 1%nat
  /\ (forall m', hotkeyPressedAt (modeState m') <> None -> onHotkeyPressed m' = m')
  /\ isInteractionMode (modeState m2) = negb (isInteractionMode (modeState m))
  /\ modeLog m2 = modeLog m ++ [negb (isInteractionMode (modeState m))]
  /\ timers m2 = [].
Proof.
  intros Hup Hnone Hheld m1 m2.
  destruct (first_press_arms pressed m Hup Hnone) as (Harmed & Htimers & _ & _).
  fold m1 in Harmed, Htimers.
  apply (presses_armed repeats) in Harmed.
  apply (advance_armed_due later) in Harmed as (Ht & Hmode & Hlog); [| exact Hheld].
  fold m2 in Ht, Hmode, Hlog.
  split; [by rewrite Htimers |]. split; [apply onHotkeyPressed_repeat |]. by repeat split.
Qed.

(** C4 at a concrete input: after start-up the key goes down at 0, repeats
    five times and is still down at 600; pass-through has become
    interaction mode, by one toggle. *)
Lemma hold_toggles_once_witness :
  let m := Examples.started 500 (Examples.empty_env []) in
  let m1 := fst (deliver 0 HotkeyPressed m) in
  let m2 := advance 600 (presses [30; 60; 90; 550; 580] m1) in
  isInteractionMode (modeState m) = false
  /\ isInteractionMode (modeState m2) = true
  /\ modeLog m2 = [true].
Proof.
  set (m := Examples.started 500 (Examples.empty_env [])).
  assert (Hheld : 0 + 500 <= 600) by lra.
  destruct (hold_toggles_once m 0 [30; 60; 90; 550; 580] 600 eq_refl eq_refl Hheld)
    as (_ & _ & Hmode & Hlog & _).
  split; [reflexivity |]. split; [exact Hmode | exact Hlog].
Defined.

(** C5.  From a released key, a [Pressed] event followed by a [Released]
    event less than 500 ms later: the release clears the pending timer and
    the pressed timestamp, and at no later time has the mode changed or a
    toggle been logged. *)
Theorem early_release_never_toggles (m : t) (pressed released later : Q) :
  hotkeyPressedAt (modeState m) = None ->
  timers m = [] ->
  released < pressed + 500 ->
  let m1 := fst (deliver pressed HotkeyPressed m) in
  let m2 := fst (deliver released HotkeyReleased m1) in
  let m3 := advance later m2 in
  timers m2 = []
  /\ hotkeyPressedAt (modeState m2) = None
  /\ holdCheckTimer (modeState m2) = None
  /\ isInteractionMode (modeState m3) = isInteractionMode (modeState m)
  /\ modeLog m3 = modeLog m.
Proof.
  intros Hup Hnone Hearly m1 m2 m3.
  destruct (first_press_arms pressed m Hup Hnone) as (_ & Htimers & Hms & Hlog).
  fold m1 in Htimers, Hms, Hlog.
  destruct (advance_before released m1 _ _ Htimers Hearly) as (Hms' & Ht' & _ & Hl').
  destruct (onHotkeyReleased_clears (advance released m1) (timerCount m)
              (pressed + HOLD_DURATION_MS))
    as (Ht2 & Hms2 & Hl2).
  { by rewrite Hms', Hms. }
  { exact Ht'. }
  change (onHotkeyReleased (advance released m1)) with m2 in Ht2, Hms2, Hl2.
  destruct (advance_no_timers later m2 Ht2) as (Hms3 & _ & _ & Hl3).
  fold m3 in Hms3, Hl3.
  rewrite Hms3, Hl3, Hms2, Hl2, Hms', Hl', Hms, Hlog. by repeat split.
Qed.

(** C5 at a concrete input: the key goes down at 0 and up at 499; at 10000
    the window is still in pass-through. *)
Lemma early_release_never_toggles_witness :
  let m := Examples.started 500 (Examples.empty_env []) in
  let m2 := fst (deliver 499 HotkeyReleased (fst (deliver 0 HotkeyPressed m))) in
  isInteractionMode (modeState (advance 10000 m2)) = false
  /\ modeLog (advance 10000 m2) = [].
Proof.
  set (m := Examples.started 500 (Examples.empty_env [])).
  assert (Hearly : 499 < 0 + 500) by lra.
  destruct (early_release_never_toggles m 0 499 10000 eq_refl eq_refl Hearly)
    as (_ & _ & _ & Hmode & Hlog).
  split; [exact Hmode | exact Hlog].
Defined.

End HoldClaims.

Section HoldReachability.
Import Runtime Interaction Props.

Lemma advance_hold_inv now m : hold_inv m -> hold_inv (advance now m).
Proof.
  unfold hold_inv. destruct (hotkeyPressedAt (modeState m)) as [pressed |] eqn:Hdown.
  - intros [Hnone | (id & deadline & Hid & Hone)].
    + destruct (advance_no_timers now m Hnone) as (Hms & Ht & _ & _).
      rewrite Hms, Hdown. by left.
    + destruct (Qlt_le_dec now deadline) as [Hlt | Hle].
      * destruct (advance_before now m _ _ Hone Hlt) as (Hms & Ht & _ & _).
        rewrite Hms, Hdown. right. exists id, deadline. by rewrite Ht.
      * destruct (advance_fires now m _ _ pressed Hone Hle Hdown) as (Hms & Ht & _ & _).
        rewrite Hms. simpl. by left.
  - intros Hnone. destruct (advance_no_timers now m Hnone) as (Hms & Ht & _ & _).
    by rewrite Hms, Hdown.
Qed.

Lemma onHotkeyPressed_hold_inv m : hold_inv m -> hold_inv (onHotkeyPressed m).
Proof.
  unfold hold_inv, onHotkeyPressed.
  destruct (hotkeyPressedAt (modeState m)) eqn:Hdown.
  - by rewrite Hdown.
  - intros Hnone. simpl. rewrite Hnone. right. eauto.
Qed.

Lemma onHotkeyReleased_hold_inv m : hold_inv m -> hold_inv (onHotkeyReleased m).
Proof.
  unfold hold_inv, onHotkeyReleased, clearTimeout. intros Hinv.
  destruct (holdCheckTimer (modeState m)) as [[| id] |] eqn:Hid; simpl.
  - destruct (hotkeyPressedAt (modeState m)); [| exact Hinv].
    destruct Hinv as [Hnone | (id & deadline & Hid' & _)]; [exact Hnone | congruence].
  - destruct (hotkeyPressedAt (modeState m)).
    + destruct Hinv as [-> | (id' & deadline & Hid' & ->)]; [reflexivity |].
      injection Hid' as ->. simpl. by rewrite Nat.eqb_refl.
    + by rewrite Hinv.
  - destruct (hotkeyPressedAt (modeState m)); [| exact Hinv].
    destruct Hinv as [Hnone | (id & deadline & Hid' & _)]; [exact Hnone | congruence].
Qed.

(** The mouse handlers touch neither the hotkey state nor the timers. *)
Lemma onMouseDown_hold e m :
  modeState (onMouseDown e m) = modeState m /\ timers (onMouseDown e m) = timers m.
Proof.
  unfold onMouseDown.
  destruct (targetResizeHandle e); [by split |].
  destruct (shiftKey e); [by split |].
  destruct (targetClosestPet e); by split.
Qed.

Lemma onMouseMove_hold e m :
  modeState (onMouseMove e m) = modeState m /\ timers (onMouseMove e m) = timers m.
Proof.
  unfold onMouseMove.
  destruct (isDraggingPet (dragState m)), (draggingPetElement (petDragState m));
    try (by split);
    (destruct (isDragging (dragState m)); [by split |]);
    (destruct (isResizing (dragState m)); [| by split]);
    (destruct (resizeDirection (dragState m)) as [[|] |]; by split).
Qed.

Lemma onMouseUp_hold m :
  modeState (fst (onMouseUp m)) = modeState m
  /\ timers (fst (onMouseUp m)) = timers m.
Proof.
  unfold onMouseUp.
  destruct (isDraggingPet (dragState m)), (draggingPetElement (petDragState m));
    try (destruct (Dom.datasetPetId _); [destruct (_ && _) |]; by split);
    (destruct (_ || _); [destruct (onWindowConfigChange _) |]; by split).
Qed.

Lemma deliver_hold_inv now ev m : hold_inv m -> hold_inv (fst (deliver now ev m)).
Proof.
  intros Hinv. apply (advance_hold_inv now) in Hinv. unfold deliver.
  set (m' := advance now m) in *. clearbody m'.
  assert (Hframe : forall m'', modeState m'' = modeState m' -> timers m'' = timers m' ->
                               hold_inv m'').
  { intros m'' Hms Ht. unfold hold_inv in *. by rewrite Hms, Ht. }
  destruct ev as [| | e | e |]; simpl.
  - by apply onHotkeyPressed_hold_inv.
  - by apply onHotkeyReleased_hold_inv.
  - destruct (listening m'); [| exact Hinv]. apply Hframe; apply onMouseDown_hold.
  - destruct (listening m'); [| exact Hinv]. apply Hframe; apply onMouseMove_hold.
  - destruct (listening m'); [| exact Hinv]. apply Hframe; apply onMouseUp_hold.
Qed.

(** Every reachable state with the key up has no timer pending: the two
    hypotheses of the hold theorems describe any moment at which the key is
    up. *)
Lemma reachable_hold_inv m : reachable m -> hold_inv m.
Proof.
  induction 1 as [| now ev m _ IH]; [reflexivity |].
  by apply deliver_hold_inv.
Qed.

Lemma reachable_key_up m :
  reachable m -> hotkeyPressedAt (modeState m) = None -> timers m = [].
Proof.
  intros Hreach Hup. apply reachable_hold_inv in Hreach.
  unfold hold_inv in Hreach. by rewrite Hup in Hreach.
Qed.

End HoldReachability.

(** ** The registry map *)

Section JsMapFacts.
Context {V : Type}.
Implicit Types (m : list (string * V)) (k : string) (v : V).

Lemma JsMap_get_set_eq k v m : JsMap.get k (JsMap.set k v m) = Some v.
Proof.
  unfold JsMap.get. induction m as [| [k' v'] m IH]; simpl.
  - by rewrite String.eqb_refl.
  - destruct (String.eqb k' k) eqn:Hk; simpl.
    + by rewrite String.eqb_refl.
    + by rewrite Hk.
Qed.

Lemma JsMap_get_set_ne k k' v m :
  k <> k' -> JsMap.get k' (JsMap.set k v m) = JsMap.get k' m.
Proof.
  intros Hne. unfold JsMap.get. induction m as [| [k0 v0] m IH]; simpl.
  - apply String.eqb_neq in Hne. by rewrite Hne.
  - destruct (String.eqb k0 k) eqn:Hk; simpl.
    + apply String.eqb_eq in Hk as ->.
      apply String.eqb_neq in Hne. by rewrite Hne.
    + destruct (String.eqb k0 k'); [reflexivity | exact IH].
Qed.

Lemma JsMap_has_get k m : JsMap.has k m = true <-> exists v, JsMap.get k m = Some v.
Proof.
  unfold JsMap.has, JsMap.get. induction m as [| [k0 v0] m IH]; simpl.
  - split; [discriminate | intros [v [=]]].
  - destruct (String.eqb k0 k); simpl; [| exact IH].
    split; eauto.
Qed.

Lemma JsMap_has_keys k m : JsMap.has k m = true <-> In k (JsMap.keys m).
Proof.
  unfold JsMap.has, JsMap.keys. induction m as [| [k0 v0] m IH]; simpl.
  - split; [discriminate | tauto].
  - destruct (String.eqb k0 k) eqn:Hk; simpl.
    + apply String.eqb_eq in Hk. tauto.
    + apply String.eqb_neq in Hk. rewrite IH. split; [tauto | intros [? | ?]; tauto].
Qed.

Lemma JsMap_keys_set_has k v m :
  JsMap.has k m = true -> JsMap.keys (JsMap.set k v m) = JsMap.keys m.
Proof.
  unfold JsMap.has, JsMap.keys. induction m as [| [k0 v0] m IH]; simpl; [discriminate |].
  destruct (String.eqb k0 k) eqn:Hk; simpl.
  - apply String.eqb_eq in Hk as ->. reflexivity.
  - intros Hhas. by rewrite IH.
Qed.

Lemma JsMap_keys_set_new k v m :
  JsMap.has k m = false -> JsMap.keys (JsMap.set k v m) = JsMap.keys m ++ [k].
Proof.
  unfold JsMap.has, JsMap.keys. induction m as [| [k0 v0] m IH]; simpl; [reflexivity |].
  destruct (String.eqb k0 k) eqn:Hk; simpl; [discriminate |].
  intros Hhas. by rewrite IH.
Qed.

End JsMapFacts.

(** ** Dragging a pet *)

Section DragFacts.
Import Runtime Props.

(** [syncPosition] reads the position back from the element; a new target
    does not move the pet. *)
Lemma syncPosition_x c e c' e' :
  PetController.syncPosition c e = Some (c', e') ->
  PetController.x c'
  = inject_Z (Dom.offsetLeft (element_at (PetController.element c) e)).
Proof.
  unfold PetController.syncPosition, bind, gets, ret.
  destruct (_ && _).
  - intros H. by destruct (pickNewTarget_x _ _ _ _ H) as (-> & _).
  - by intros [= <- <-].
Qed.

Lemma syncPetPosition_x petId p e p' e' c :
  JsMap.get petId (MultiPetManager.controllers p) = Some c ->
  MultiPetManager.syncPetPosition petId p e = Some (p', e') ->
  exists c',
    JsMap.get petId (MultiPetManager.controllers p') = Some c'
    /\ PetController.x c'
       = inject_Z (Dom.offsetLeft (element_at (PetController.element c) e)).
Proof.
  intros Hget. unfold MultiPetManager.syncPetPosition, MultiPetManager.call.
  rewrite Hget. intros H. apply bind_Some in H as (c' & e1 & Hsync & H).
  injection H as <- <-. exists c'. simpl.
  split; [apply JsMap_get_set_eq | by eapply syncPosition_x].
Qed.

End DragFacts.

Section DragClaims.
Import Runtime Interaction Props.

(** C8.  While a pet is being dragged, a pointer move writes one thing: the
    [left] of the dragged element, set to the anchor position plus the
    pointer delta, clamped into [[10, windowWidth - width - 10]].  The
    module state, every other element and, at the level of the application,
    the registry of pets with their internal positions are as before.  The
    internal position changes at pointer-up: the callback is called with
    the pet's id, and the bridge call reads the position back from the
    element.  From 50 with a delta of +30, window width 300 and pet width
    64, the visual position is 80. *)
Theorem pet_drag_is_visual_only (e : MouseEvent) (m : t)
    (p : MultiPetManager.t) (h : nat) :
  isDraggingPet (dragState m) = true ->
  draggingPetElement (petDragState m) = Some h ->
  let width := inject_Z (Dom.offsetWidth (element_at h (env m))) in
  let visual :=
    Math.max 10
      (Math.min (windowWidth (windowInfo m) - width - 10)
         (petStartX (petDragState m) + (clientX e - dragStartX (dragState m)))) in
  (onMouseMove e m = set_env (update_element h (Dom.set_styleLeft visual) (env m)) m
   /\ Dom.styleLeft (element_at h (env (onMouseMove e m))) = visual
   /\ (forall h', h' <> h ->
         element_at h' (env (onMouseMove e m)) = element_at h' (env m))
   /\ (10 <= windowWidth (windowInfo m) - width - 10 ->
       10 <= visual /\ visual <= windowWidth (windowInfo m) - width - 10))
  /\ (forall now (w : App.t),
        exists w', App.deliver now (MouseMove e) w = Some w'
                   /\ App.pets w' = App.pets w)
  /\ (forall petId c,
        Dom.datasetPetId (element_at h (env m)) = Some petId ->
        petId <> ""%string ->
        onPetPositionChange (callbacks m) = true ->
        JsMap.get petId (MultiPetManager.controllers p) = Some c ->
        PetController.element c = h ->
        let released := inject_Z (Dom.offsetLeft (element_at h (env m))) in
        exists m',
          onMouseUp m = (m', [PetPositionChange petId released])
          /\ isDraggingPet (dragState m') = false
          /\ forall w',
               App.notify (PetPositionChange petId released)
                 {| App.interaction := m'; App.pets := p |} = Some w' ->
               exists c',
                 JsMap.get petId (MultiPetManager.controllers (App.pets w')) = Some c'
                 /\ PetController.x c' = released)
  /\ Math.max 10 (Math.min (300 - inject_Z 64 - 10) (50 + 30)) == 80.
Proof.
  intros Hpet Hel width visual. split; [| split; [| split]].
  - assert (Hmove : onMouseMove e m
                    = set_env (update_element h (Dom.set_styleLeft visual) (env m)) m).
    { unfold onMouseMove. by rewrite Hpet, Hel. }
    rewrite Hmove. simpl. split; [reflexivity |].
    split; [by rewrite element_at_update_eq |].
    split; [intros h' Hne; by apply element_at_update_ne |].
    intros Hroom. unfold visual, Math.max, Math.min. split.
    + apply Q.le_max_l.
    + apply Q.max_lub; [exact Hroom | apply Q.le_min_l].
  - intros now w. unfold App.deliver, deliver.
    destruct (listening (advance now (App.interaction w))); simpl; eauto.
  - intros petId c Hid Hne Hcb Hget Hc released.
    unfold onMouseUp. rewrite Hpet, Hel, Hid. simpl. rewrite Hcb.
    apply String.eqb_neq in Hne. rewrite Hne. simpl.
    eexists. split; [reflexivity |]. split; [reflexivity |].
    intros w'. unfold App.notify, App.onEntityRepositioned. simpl.
    destruct (MultiPetManager.syncPetPosition _ _ _) as [[p' e'] |] eqn:Hsync;
      [| discriminate].
    intros [= <-]. simpl.
    destruct (syncPetPosition_x _ _ _ _ _ _ Hget Hsync) as (c' & Hget' & Hx).
    exists c'. split; [exact Hget' |]. rewrite Hx, Hc.
    by rewrite element_at_update_eq.
  - vm_compute. reflexivity.
Qed.

(** C8 at the concrete input of the claim: the pet at 50 is grabbed at
    pointer abscissa 120 and the pointer moves to 150; the element is at 80
    while the controller still says 50; at pointer-up the controller reads
    80 back. *)
Lemma pet_drag_is_visual_only_witness :
  let m1 := fst (deliver 700 (MouseDown (Examples.on_pet 120)) Examples.drag_scene) in
  let m2 := onMouseMove (Examples.on_pet 150) m1 in
  petStartX (petDragState m1) == 50
  /\ windowWidth (windowInfo m1) == 300
  /\ Dom.styleLeft (element_at 0 (env m2)) == 80
  /\ exists w3 c3,
       App.notify (PetPositionChange "a" 80)
         {| App.interaction := fst (onMouseUp m2); App.pets := Examples.one_pet |}
       = Some w3
       /\ JsMap.get "a" (MultiPetManager.controllers (App.pets w3)) = Some c3
       /\ PetController.x c3 == 80.
Proof.
  intros m1 m2.
  destruct (pet_drag_is_visual_only (Examples.on_pet 150) m1 Examples.one_pet 0
              eq_refl eq_refl) as ((_ & Hvisual & _ & _) & _ & _ & _).
  destruct (pet_drag_is_visual_only (Examples.on_pet 150) m2 Examples.one_pet 0
              eq_refl eq_refl) as (_ & _ & Hup & _).
  destruct (Hup "a"%string (Examples.pet "stage1" 300 50 PetController.Forward 200)
              eq_refl ltac:(discriminate) eq_refl eq_refl eq_refl)
    as (m3 & Hm3 & _ & Hsync).
  split; [vm_compute; reflexivity |].
  split; [vm_compute; reflexivity |].
  split; [fold m2 in Hvisual; rewrite Hvisual; vm_compute; reflexivity |].
  assert (Hfst : fst (onMouseUp m2) = m3) by (by rewrite Hm3).
  rewrite Hfst.
  destruct (App.notify (PetPositionChange "a" 80)
              {| App.interaction := m3; App.pets := Examples.one_pet |})
    as [w3 |] eqn:Hnotify.
  - destruct (Hsync w3 Hnotify) as (c3 & Hget & Hx).
    exists w3, c3. split; [reflexivity |]. split; [exact Hget |].
    rewrite Hx. vm_compute. reflexivity.
  - exfalso. rewrite <- Hfst in Hnotify. vm_compute in Hnotify. discriminate.
Defined.

End DragClaims.

(** ** Reconciliation *)

Section AttributeFacts.
Import Runtime PetController Props.

Lemma attributes_set_state state c : attributes (set_state state c) = prescribed state.
Proof. reflexivity. Qed.

(** A controller that already has the prescribed attributes is not changed
    by the five assignments. *)
Lemma set_state_fixed state c :
  attributes c = prescribed state -> set_state state c = c.
Proof.
  destruct c. unfold attributes, prescribed, set_state. simpl.
  intros [= -> -> -> -> ->]. reflexivity.
Qed.

Lemma attributes_pickNewTarget c e c' e' :
  pickNewTarget c e = Some (c', e') -> attributes c' = attributes c.
Proof.
  intros H. by destruct (pickNewTarget_inv _ _ _ _ H) as (? & ? & _ & -> & _).
Qed.

Lemma attributes_startResting c e c' e' :
  startResting c e = Some (c', e') -> attributes c' = attributes c.
Proof.
  intros H. by destruct (startResting_inv _ _ _ _ H) as (? & ? & _ & -> & _).
Qed.

Lemma attributes_rest_and_retarget c e c' e' :
  (do c <- startResting c; pickNewTarget c) e = Some (c', e') ->
  attributes c' = attributes c.
Proof.
  intros H. apply bind_Some in H as (c1 & e1 & Hrest & Hpick).
  rewrite (attributes_pickNewTarget _ _ _ _ Hpick).
  apply (attributes_startResting _ _ _ _ Hrest).
Qed.

Lemma attributes_animate c e c' e' :
  animate c e = Some (c', e') -> attributes c' = attributes c.
Proof.
  unfold animate. destruct (isEgg c).
  { by intros [= <- <-]. }
  intros H. apply bind_Some in H as (c1 & e1 & H & Hraf).
  unfold requestAnimationFrame, bind, ret in Hraf. injection Hraf as <- <-.
  change (attributes c1 = attributes c).
  destruct (negb (isPaused c) && isMovementEnabled c).
  2: { by injection H as <- <-. }
  apply bind_Some in H as (now & e0 & _ & H).
  destruct (isResting c).
  - destruct (Qle_bool _ _).
    + apply bind_Some in H as (c2 & e2 & Hpick & H).
      unfold bind, modify, ret in H. injection H as <- <-.
      by rewrite (attributes_pickNewTarget _ _ _ _ Hpick).
    + by injection H as <- <-.
  - apply bind_Some in H as (pw & e0' & _ & H).
    apply bind_Some in H as (c2 & e2 & Hedge & H).
    apply bind_Some in H as (c3 & e3 & Hdist & H).
    unfold updatePosition, bind, modify, ret in H. injection H as <- <-.
    assert (H3 : attributes c3 = attributes c2).
    { destruct (Qltb _ _).
      - by apply attributes_startResting in Hdist.
      - by injection Hdist as <- <-. }
    rewrite H3. clear H3 Hdist.
    destruct (Qle_bool _ 10).
    + by apply attributes_rest_and_retarget in Hedge.
    + destruct (Qle_bool _ _).
      * by apply attributes_rest_and_retarget in Hedge.
      * by injection Hedge as <- <-.
Qed.

Lemma attributes_start c e c' e' :
  start c e = Some (c', e') -> attributes c' = attributes c.
Proof.
  unfold start. destruct (animationFrameId c).
  - by intros [= <- <-].
  - unfold bind, modify. apply attributes_animate.
Qed.

Lemma attributes_setMovementEnabled enabled c e c' e' :
  setMovementEnabled enabled c e = Some (c', e') -> attributes c' = attributes c.
Proof.
  unfold setMovementEnabled. intros H. apply bind_Some in H as (? & ? & _ & H).
  by injection H as <- <-.
Qed.

End AttributeFacts.

Section ReconcileFacts.
Import Runtime Props.
Import MultiPetManager.

Implicit Types (cs : list (string * PetController.t)) (pets : list Types.PetState).

Lemma overlay_app pets pets' id c :
  overlay (pets ++ pets') id c = overlay pets' id (overlay pets id c).
Proof. unfold overlay. apply fold_left_app. Qed.

Lemma set_state_overlay state pets id c :
  PetController.set_state state (overlay pets id c) = PetController.set_state state c.
Proof.
  revert c. induction pets as [| pet pets IH]; intros c; [reflexivity |].
  simpl. rewrite IH. by destruct (String.eqb _ id).
Qed.

(** The refresh of a listed pet that exists: always returns, no draw. *)
Lemma call_updateState pet m e c :
  JsMap.get (Types.odangoId pet) (controllers m) = Some c ->
  exists e',
    call (Types.odangoId pet) (PetController.updateState pet) m e
    = Some (set_controllers
              (JsMap.set (Types.odangoId pet) (PetController.set_state pet c)
                 (controllers m)) m, e')
    /\ random e' = random e.
Proof.
  intros Hget. unfold call. rewrite Hget. unfold bind.
  rewrite updateState_eq. eexists. split; [reflexivity |].
  unfold updateDirection_env, updateScale_env, updateSprite_env.
  destruct (negb _), (_ <? 0)%Z; reflexivity.
Qed.

(** What [addPet] stores: a controller with the prescribed attributes,
    under the id of the entry. *)
Lemma addPet_inv pet m e m' e' :
  addPet pet m e = Some (m', e') ->
  exists c,
    controllers m' = JsMap.set (Types.odangoId pet) c (controllers m)
    /\ attributes c = prescribed pet.
Proof.
  unfold addPet. intros H.
  apply bind_Some in H as (width & e1 & _ & H).
  apply bind_Some in H as (h & e2 & _ & H).
  apply bind_Some in H as (c0 & e3 & _ & H).
  apply bind_Some in H as (c1 & e4 & Hstate & H).
  apply bind_Some in H as (c2 & e5 & Hsettings & H).
  apply bind_Some in H as (c3 & e6 & Hstart & H).
  injection H as <- <-. exists c3. split; [reflexivity |].
  rewrite (attributes_start _ _ _ _ Hstart).
  rewrite updateState_eq in Hstate. injection Hstate as <- <-.
  destruct (petSettingsGetter m) as [getter |].
  - apply bind_Some in Hsettings as (c2' & e5' & Hen & Hsettings).
    injection Hsettings as <- <-.
    change (attributes c2' = prescribed pet).
    by rewrite (attributes_setMovementEnabled _ _ _ _ _ Hen).
  - by injection Hsettings as <- <-.
Qed.

Lemma overlay_other pets id c :
  (forall pet, In pet pets -> Types.odangoId pet <> id) -> overlay pets id c = c.
Proof.
  revert c. induction pets as [| pet pets IH]; intros c Hother; [reflexivity |].
  simpl. assert (Hne : Types.odangoId pet <> id) by (apply Hother; by left).
  apply String.eqb_neq in Hne. rewrite Hne. apply IH.
  intros pet' Hin. apply Hother. by right.
Qed.

(** Entries listed under another id do not matter. *)
Lemma overlay_filter pets id k c :
  id <> k ->
  overlay (List.filter (fun pet => negb (String.eqb (Types.odangoId pet) k)) pets) id c
  = overlay pets id c.
Proof.
  intros Hne. revert c. induction pets as [| pet pets IH]; intros c; [reflexivity |].
  simpl. destruct (String.eqb (Types.odangoId pet) k) eqn:Hk; simpl.
  - apply String.eqb_eq in Hk.
    assert (Hid : String.eqb (Types.odangoId pet) id = false)
      by (apply String.eqb_neq; congruence).
    rewrite Hid. apply IH.
  - by rewrite IH.
Qed.

Lemma settled_step prefix pet cs c' :
  settled prefix cs ->
  attributes c' = prescribed pet ->
  settled (prefix ++ [pet]) (JsMap.set (Types.odangoId pet) c' cs).
Proof.
  intros Hsettled Hattr id c Hget. rewrite overlay_app. simpl.
  destruct (String.eqb (Types.odangoId pet) id) eqn:Hid.
  - apply String.eqb_eq in Hid as <-.
    rewrite JsMap_get_set_eq in Hget. injection Hget as <-.
    rewrite set_state_overlay. by apply set_state_fixed.
  - apply String.eqb_neq in Hid.
    rewrite JsMap_get_set_ne in Hget by exact Hid. by apply Hsettled.
Qed.

Lemma reconcile_step_inv m pet e m' e' :
  reconcile_step m pet e = Some (m', e') ->
  exists c',
    controllers m' = JsMap.set (Types.odangoId pet) c' (controllers m)
    /\ attributes c' = prescribed pet.
Proof.
  unfold reconcile_step.
  destruct (JsMap.has _ _) eqn:Hhas; [| apply addPet_inv].
  apply JsMap_has_get in Hhas as [c Hget].
  destruct (call_updateState pet m e c Hget) as (e1 & Hcall & _).
  rewrite Hcall. intros [= <- <-]. eexists. split; [reflexivity |].
  apply attributes_set_state.
Qed.

Lemma JsMap_keys_set (k id : string) (v : PetController.t) cs :
  In k (JsMap.keys (JsMap.set id v cs)) <-> In k (JsMap.keys cs) \/ k = id.
Proof.
  destruct (JsMap.has id cs) eqn:Hhas.
  - rewrite JsMap_keys_set_has by exact Hhas.
    apply JsMap_has_keys in Hhas. split; [tauto | intros [? | ->]; tauto].
  - rewrite JsMap_keys_set_new by exact Hhas. rewrite in_app_iff. simpl.
    split; [intros [? | [-> | []]] | intros [? | ->]]; tauto.
Qed.

(** The second loop, from a registry that is settled for the entries
    already processed. *)
Lemma reconcile_loop pets prefix m e m' e' :
  settled prefix (controllers m) ->
  foldM reconcile_step pets m e = Some (m', e') ->
  settled (prefix ++ pets) (controllers m')
  /\ (forall k, In k (JsMap.keys (controllers m'))
                <-> In k (JsMap.keys (controllers m))
                    \/ In k (List.map Types.odangoId pets)).
Proof.
  revert prefix m e. induction pets as [| pet pets IH]; intros prefix m e Hsettled H.
  - injection H as <- <-. rewrite app_nil_r. split; [exact Hsettled |].
    intros k. simpl. tauto.
  - simpl in H. apply bind_Some in H as (m1 & e1 & Hstep & H).
    destruct (reconcile_step_inv _ _ _ _ _ Hstep) as (c' & Hcs & Hattr).
    assert (Hsettled1 : settled (prefix ++ [pet]) (controllers m1)).
    { rewrite Hcs. by apply settled_step. }
    destruct (IH _ _ _ Hsettled1 H) as [Hfinal Hkeys].
    rewrite <- app_assoc in Hfinal. split; [exact Hfinal |].
    intros k. rewrite Hkeys, Hcs, JsMap_keys_set. simpl.
    split; [intros [[? | ->] | ?] | intros [? | [<- | ?]]]; tauto.
Qed.

Lemma existsb_eqb_In (k : string) (ids : list string) :
  existsb (String.eqb k) ids = true <-> In k ids.
Proof.
  rewrite existsb_exists. split.
  - intros (k' & Hin & Heq). apply String.eqb_eq in Heq. by subst.
  - intros Hin. exists k. split; [exact Hin | apply String.eqb_refl].
Qed.

Lemma JsMap_keys_delete (k id : string) cs :
  In k (JsMap.keys (JsMap.delete id cs)) <-> In k (JsMap.keys cs) /\ k <> id.
Proof.
  unfold JsMap.keys, JsMap.delete. induction cs as [| [k0 v0] cs IH]; simpl.
  - tauto.
  - destruct (String.eqb k0 id) eqn:Hk; simpl.
    + apply String.eqb_eq in Hk as ->. rewrite IH.
      split; [tauto | intros [[<- | ?] ?]; tauto].
    + apply String.eqb_neq in Hk. rewrite IH.
      split; [intros [<- | ?]; tauto | tauto].
Qed.

Lemma removePet_keys id m e m' e' :
  removePet id m e = Some (m', e') ->
  forall k, In k (JsMap.keys (controllers m')) ->
            In k (JsMap.keys (controllers m)) /\ k <> id.
Proof.
  unfold removePet. destruct (JsMap.get id (controllers m)) as [c |] eqn:Hget.
  - intros H. apply bind_Some in H as ([] & e1 & _ & H). injection H as <- <-.
    intros k. simpl. apply JsMap_keys_delete.
  - intros [= <- <-] k Hin. split; [exact Hin |].
    intros ->. apply JsMap_has_keys, JsMap_has_get in Hin as [c Hc]. congruence.
Qed.

(** After the first loop every id that was looked at and is still stored
    is an id of the snapshot. *)
Lemma remove_loop newIds ids m e m' e' :
  foldM (remove_step newIds) ids m e = Some (m', e') ->
  forall k, In k (JsMap.keys (controllers m')) ->
            In k (JsMap.keys (controllers m)) /\ (In k ids -> In k newIds).
Proof.
  revert m e. induction ids as [| id ids IH]; intros m e H k Hin.
  - injection H as <- <-. split; [exact Hin | intros []].
  - simpl in H. apply bind_Some in H as (m1 & e1 & Hstep & H).
    destruct (IH _ _ H k Hin) as [Hin1 Hrest].
    unfold remove_step in Hstep.
    destruct (existsb (String.eqb id) newIds) eqn:Hlisted; simpl in Hstep.
    + injection Hstep as <- <-. split; [exact Hin1 |].
      intros [<- | Hids]; [by apply existsb_eqb_In | by apply Hrest].
    + destruct (removePet_keys _ _ _ _ _ Hstep k Hin1) as [Hin0 Hne].
      split; [exact Hin0 |]. intros [-> | Hids]; [congruence | by apply Hrest].
Qed.

(** With every stored id listed, the first loop does nothing. *)
Lemma remove_loop_listed newIds ids m e :
  (forall k, In k ids -> In k newIds) ->
  foldM (remove_step newIds) ids m e = Some (m, e).
Proof.
  induction ids as [| id ids IH]; intros Hlisted; [reflexivity |].
  simpl. unfold bind, remove_step at 1.
  assert (Hid : existsb (String.eqb id) newIds = true)
    by (apply existsb_eqb_In, Hlisted; by left).
  rewrite Hid. simpl. apply IH. intros k Hin. apply Hlisted. by right.
Qed.

Lemma reconcile_loop_present pets m e :
  (forall pet, In pet pets -> In (Types.odangoId pet) (JsMap.keys (controllers m))) ->
  exists e',
    foldM reconcile_step pets m e
    = Some (set_controllers (refresh pets (controllers m)) m, e')
    /\ random e' = random e.
Proof.
  revert m e. induction pets as [| pet pets IH]; intros m e Hpresent.
  - exists e. split; [by destruct m | reflexivity].
  - assert (Hhas : JsMap.has (Types.odangoId pet) (controllers m) = true)
      by (apply JsMap_has_keys, Hpresent; by left).
    pose proof Hhas as Hget. apply JsMap_has_get in Hget as [c Hget].
    destruct (call_updateState pet m e c Hget) as (e1 & Hcall & Htape1).
    set (m1 := set_controllers _ m) in Hcall.
    destruct (IH m1 e1) as (e' & Hloop & Htape).
    { intros pet' Hin. unfold m1. simpl. apply JsMap_keys_set. left.
      apply Hpresent. by right. }
    exists e'. split; [| congruence].
    simpl. unfold bind, reconcile_step at 1. rewrite Hhas, Hcall, Hloop.
    unfold m1. simpl. by rewrite Hget.
Qed.

(** The assignments for the first stored pet, and those for the others. *)
Lemma refresh_cons pets k c cs :
  refresh pets ((k, c) :: cs)
  = (k, overlay pets k c)
    :: refresh (List.filter (fun pet => negb (String.eqb (Types.odangoId pet) k)) pets) cs.
Proof.
  revert c cs. induction pets as [| pet pets IH]; intros c cs; [reflexivity |].
  simpl. unfold JsMap.get at 1. simpl.
  rewrite (String.eqb_sym k). destruct (String.eqb (Types.odangoId pet) k) eqn:Hk; simpl.
  - apply String.eqb_eq in Hk. rewrite Hk. apply IH.
  - fold (JsMap.get (Types.odangoId pet) cs).
    destruct (JsMap.get (Types.odangoId pet) cs); apply IH.
Qed.

Lemma refresh_settled pets cs : settled pets cs -> refresh pets cs = cs.
Proof.
  revert pets. induction cs as [| [k c] cs IH]; intros pets Hsettled.
  - clear Hsettled. unfold refresh.
    induction pets as [| pet pets IHp]; [reflexivity | exact IHp].
  - rewrite refresh_cons. f_equal.
    + f_equal. apply Hsettled. unfold JsMap.get. simpl. by rewrite String.eqb_refl.
    + apply IH. intros id c' Hget.
      destruct (String.eqb k id) eqn:Hk.
      * apply String.eqb_eq in Hk as ->. apply overlay_other.
        intros pet Hin. apply filter_In in Hin as [_ Hne].
        apply negb_true_iff, String.eqb_neq in Hne. exact Hne.
      * apply String.eqb_neq in Hk. rewrite overlay_filter by congruence.
        apply Hsettled. unfold JsMap.get. simpl.
        apply String.eqb_neq in Hk. rewrite Hk. exact Hget.
Qed.

End ReconcileFacts.

Section ReconcileClaims.
Import Runtime Props.
Import MultiPetManager.

(** C6.  When [updatePets] has returned for a snapshot, a second run with
    the same snapshot returns as well, draws no random number and leaves the
    registry as the first run left it: the same ids in the same order, and
    for every id the same scale, sprite path, stage and default facing (and
    id), indeed the same controller. *)
Theorem updatePets_idempotent (pets : list Types.PetState) (m : t) (e : Env)
    (m1 : t) (e1 : Env) :
  updatePets pets m e = Some (m1, e1) ->
  exists m2 e2,
    updatePets pets m1 e1 = Some (m2, e2)
    /\ JsMap.keys (controllers m2) = JsMap.keys (controllers m1)
    /\ (forall id c1,
          JsMap.get id (controllers m1) = Some c1 ->
          exists c2, JsMap.get id (controllers m2) = Some c2
                     /\ attributes c2 = attributes c1)
    /\ m2 = m1
    /\ random e2 = random e1.
Proof.
  intros H. unfold updatePets in H.
  apply bind_Some in H as (mr & er & Hremove & Hloop).
  change (foldM (remove_step (List.map Types.odangoId pets))
            (JsMap.keys (controllers m)) m e = Some (mr, er)) in Hremove.
  change (foldM reconcile_step pets mr er = Some (m1, e1)) in Hloop.
  assert (Hsettled0 : settled [] (controllers mr)) by (intros id c _; reflexivity).
  destruct (reconcile_loop pets [] mr er m1 e1 Hsettled0 Hloop) as [Hsettled Hkeys].
  simpl in Hsettled.
  assert (Hlisted : forall k, In k (JsMap.keys (controllers m1)) ->
                              In k (List.map Types.odangoId pets)).
  { intros k Hin. apply Hkeys in Hin as [Hin | Hin]; [| exact Hin].
    destruct (remove_loop _ _ _ _ _ _ Hremove k Hin) as [Hin0 Himp]. by apply Himp. }
  assert (Hpresent : forall pet, In pet pets ->
                                 In (Types.odangoId pet) (JsMap.keys (controllers m1))).
  { intros pet Hin. apply Hkeys. right. by apply in_map. }
  destruct (reconcile_loop_present pets m1 e1 Hpresent) as (e2 & Hloop2 & Htape).
  rewrite refresh_settled in Hloop2 by exact Hsettled.
  assert (Hsame : set_controllers (controllers m1) m1 = m1) by (by destruct m1).
  rewrite Hsame in Hloop2.
  exists m1, e2. split.
  - unfold updatePets, bind.
    change (match foldM (remove_step (List.map Types.odangoId pets))
                    (JsMap.keys (controllers m1)) m1 e1 with
            | Some (a, e') => foldM reconcile_step pets a e'
            | None => None
            end = Some (m1, e2)).
    by rewrite remove_loop_listed.
  - split; [reflexivity |]. split; [eauto |]. by split.
Qed.

(** C6 at a concrete input: an empty manager over a container of width 400
    receives an egg and a hatched pet; the second run with the same two
    entries returns the registry of the first. *)
Lemma updatePets_idempotent_witness :
  let m0 := MultiPetManager.new 0 400 in
  let e0 := Examples.empty_env
              [29 # 30; 1 # 2; 1 # 2; 1 # 2; 1 # 10; 3 # 4; 1 # 2; 9 # 10; 1 # 2; 1 # 2] in
  let pets := [Examples.egg_state; Examples.hatched_state] in
  exists m1 e1 e2,
    updatePets pets m0 e0 = Some (m1, e1)
    /\ JsMap.keys (controllers m1) = ["a"%string; "b"%string]
    /\ updatePets pets m1 e1 = Some (m1, e2).
Proof.
  intros m0 e0 pets.
  destruct (updatePets pets m0 e0) as [[m1 e1] |] eqn:H;
    [| vm_compute in H; discriminate].
  destruct (updatePets_idempotent pets m0 e0 m1 e1 H)
    as (m2 & e2 & H2 & _ & _ & -> & _).
  exists m1, e1, e2. split; [reflexivity |]. split; [| exact H2].
  vm_compute in H. injection H as <- _. reflexivity.
Defined.

End ReconcileClaims.

(** * Further properties of the interaction module *)

Section ModeInvariant.
Import Runtime Interaction Props.


















End ModeInvariant.

Section ModeProperties.
Import Runtime Interaction Props.



End ModeProperties.

Section HoldProperties.
Import Runtime Interaction Props.

(** X2.  In every reachable state at most one hold timer is pending, and
    none is pending while the key is up. *)
Theorem reachable_one_timer (m : t) :
  reachable m ->
  (length (timers m) <= 1)%nat
  /\ (hotkeyPressedAt (modeState m) = None -> timers m = []).
Proof.
  intros Hreach. apply reachable_hold_inv in Hreach. unfold hold_inv in Hreach.
  destruct (hotkeyPressedAt (modeState m)).
  - split; [| discriminate].
    destruct Hreach as [-> | (id & deadline & _ & ->)]; simpl; lia.
  - rewrite Hreach. split; [simpl; lia | reflexivity].
Qed.

(** X2 at a concrete input: three presses in a row leave one timer. *)
Lemma reachable_one_timer_witness :
  let m := presses [0; 30; 60] (Examples.started 500 (Examples.empty_env [])) in
  length (timers m) = 1%nat.
Proof.
  intros m.
  assert (Hreach : reachable m).
  { apply (reachable_deliver 60 HotkeyPressed), (reachable_deliver 30 HotkeyPressed),
      (reachable_deliver 0 HotkeyPressed), reachable_init. }
  destruct (reachable_one_timer m Hreach) as [Hle _].
  assert (Hpos : (1 <= length (timers m))%nat) by (vm_compute; lia).
  lia.
Defined.

(** A release with no timer pending forgets the press and changes nothing
    else of the hold state. *)
Lemma onHotkeyReleased_after_fire m :
  timers m = [] ->
  timers (onHotkeyReleased m) = []
  /\ hotkeyPressedAt (modeState (onHotkeyReleased m)) = None
  /\ isInteractionMode (modeState (onHotkeyReleased m)) = isInteractionMode (modeState m)
  /\ modeLog (onHotkeyReleased m) = modeLog m.
Proof.
  intros Hnone. unfold onHotkeyReleased, clearTimeout.
  destruct (holdCheckTimer (modeState m)) as [[| id] |]; simpl; rewrite ?Hnone;
    by repeat split.
Qed.

(** X3.  The hold must be continuous.  From a released key: a press, a
    release less than 500 ms later and a second press.  The mode is not
    toggled before 500 ms have passed since the second press, however long
    ago the first press was; it is toggled, once, when they have. *)
Theorem interrupted_hold_restarts (m : t) (first released second : Q) :
  hotkeyPressedAt (modeState m) = None ->
  timers m = [] ->
  released < first + 500 ->
  let m3 := fst (deliver second HotkeyPressed
                   (fst (deliver released HotkeyReleased
                           (fst (deliver first HotkeyPressed m))))) in
  (forall later, later < second + 500 ->
     isInteractionMode (modeState (advance later m3)) = isInteractionMode (modeState m)
     /\ modeLog (advance later m3) = modeLog m)
  /\ (forall later, second + 500 <= later ->
        isInteractionMode (modeState (advance later m3))
        = negb (isInteractionMode (modeState m))
        /\ modeLog (advance later m3)
           = modeLog m ++ [negb (isInteractionMode (modeState m))]).
Proof.
  intros Hup Hnone Hearly.
  set (m1 := fst (deliver first HotkeyPressed m)).
  set (m2 := fst (deliver released HotkeyReleased m1)).
  intros m3.
  destruct (first_press_arms first m Hup Hnone) as (_ & Htimers & Hms & Hlog).
  fold m1 in Htimers, Hms, Hlog.
  destruct (advance_before released m1 _ _ Htimers Hearly) as (Hms' & Ht' & _ & Hl').
  destruct (onHotkeyReleased_clears (advance released m1) (timerCount m)
              (first + HOLD_DURATION_MS)) as (Ht2 & Hms2 & Hl2).
  { by rewrite Hms', Hms. }
  { exact Ht'. }
  change (onHotkeyReleased (advance released m1)) with m2 in Ht2, Hms2, Hl2.
  assert (Hup2 : hotkeyPressedAt (modeState m2) = None) by (by rewrite Hms2).
  assert (Hmode2 : isInteractionMode (modeState m2) = isInteractionMode (modeState m))
    by (by rewrite Hms2, Hms', Hms).
  assert (Hlog2 : modeLog m2 = modeLog m) by (by rewrite Hl2, Hl', Hlog).
  destruct (first_press_arms second m2 Hup2 Ht2) as (Harmed & Htimers3 & Hms3 & Hlog3).
  fold m3 in Harmed, Htimers3, Hms3, Hlog3.
  split.
  - intros later Hbefore.
    destruct (advance_before later m3 _ _ Htimers3 Hbefore) as (Hms4 & _ & _ & Hl4).
    rewrite Hms4, Hl4, Hms3, Hlog3. split; [exact Hmode2 | exact Hlog2].
  - intros later Hheld.
    destruct (advance_armed_due later _ _ _ m3 Hheld Harmed) as (_ & Hmode & Hl4).
    by rewrite Hmode, Hl4, Hmode2, Hlog2.
Qed.

(** X3 at a concrete input: pressed at 0, released at 300, pressed again at
    400; at 800 nothing has happened, at 900 the mode is on. *)
Lemma interrupted_hold_restarts_witness :
  let m := Examples.started 500 (Examples.empty_env []) in
  let m3 := fst (deliver 400 HotkeyPressed
                   (fst (deliver 300 HotkeyReleased
                           (fst (deliver 0 HotkeyPressed m))))) in
  isInteractionMode (modeState (advance 800 m3)) = false
  /\ isInteractionMode (modeState (advance 900 m3)) = true.
Proof.
  intros m m3.
  assert (Hearly : 300 < 0 + 500) by lra.
  destruct (interrupted_hold_restarts m 0 300 400 eq_refl eq_refl Hearly)
    as [Hbefore Hafter].
  split.
  - apply (Hbefore 800). lra.
  - apply (Hafter 900). lra.
Defined.

(** X4.  Two complete holds bring the mode back.  From a released key: a
    press held for at least 500 ms (with any key repeats), a release, and a
    second press held for at least 500 ms.  The mode is what it was, after
    exactly two toggles. *)
Theorem two_holds_restore_mode (m : t) (first : Q) (repeats : list Q)
    (released second later : Q) :
  hotkeyPressedAt (modeState m) = None ->
  timers m = [] ->
  first + 500 <= released ->
  second + 500 <= later ->
  let m1 := presses repeats (fst (deliver first HotkeyPressed m)) in
  let m2 := fst (deliver released HotkeyReleased m1) in
  let m3 := advance later (fst (deliver second HotkeyPressed m2)) in
  isInteractionMode (modeState m2) = negb (isInteractionMode (modeState m))
  /\ isInteractionMode (modeState m3) = isInteractionMode (modeState m)
  /\ modeLog m3 = modeLog m ++ [negb (isInteractionMode (modeState m));
                                isInteractionMode (modeState m)].
Proof.
  intros Hup Hnone Hheld1 Hheld2 m1 m2 m3.
  destruct (first_press_arms first m Hup Hnone) as (Harmed & _ & _ & _).
  apply (presses_armed repeats) in Harmed. fold m1 in Harmed.
  apply (advance_armed_due released) in Harmed as (Ht & Hmode & Hlog);
    [| exact Hheld1].
  destruct (onHotkeyReleased_after_fire _ Ht) as (Ht2 & Hup2 & Hmode2 & Hlog2).
  change (onHotkeyReleased (advance released m1)) with m2 in Ht2, Hup2, Hmode2, Hlog2.
  rewrite Hmode in Hmode2. rewrite Hlog in Hlog2.
  destruct (first_press_arms second m2 Hup2 Ht2) as (Harmed2 & _ & _ & _).
  apply (advance_armed_due later) in Harmed2 as (_ & Hmode3 & Hlog3);
    [| exact Hheld2].
  fold m3 in Hmode3, Hlog3.
  split; [exact Hmode2 |].
  rewrite Hmode3, Hlog3, Hmode2, Hlog2, negb_involutive, <- app_assoc. by split.
Qed.

(** X4 at a concrete input: held from 0 to 700, then from 1000 to 1600. *)
Lemma two_holds_restore_mode_witness :
  let m := Examples.started 500 (Examples.empty_env []) in
  let m2 := fst (deliver 700 HotkeyReleased
                   (presses [30; 60] (fst (deliver 0 HotkeyPressed m)))) in
  let m3 := advance 1600 (fst (deliver 1000 HotkeyPressed m2)) in
  isInteractionMode (modeState m2) = true
  /\ isInteractionMode (modeState m3) = false
  /\ modeLog m3 = [true; false].
Proof.
  intros m m2 m3.
  assert (H1 : 0 + 500 <= 700) by lra.
  assert (H2 : 1000 + 500 <= 1600) by lra.
  exact (two_holds_restore_mode m 0 [30; 60] 700 1000 1600 eq_refl eq_refl H1 H2).
Defined.

End HoldProperties.

Section GestureProperties.
Import Runtime Interaction Props.

Lemma update_element_twice h f g e :
  (forall el, g (f el) = g el) ->
  update_element h g (update_element h f e) = update_element h g e.
Proof.
  intros Hfg. unfold update_element at 1 3. rewrite element_at_update_eq, Hfg.
  unfold update_element. simpl. by rewrite insert_insert_eq.
Qed.

(** A pointer move forgets the move before it. *)
Lemma onMouseMove_absorbs e1 e2 m :
  onMouseMove e2 (onMouseMove e1 m) = onMouseMove e2 m.
Proof.
  unfold onMouseMove at 2.
  destruct (isDraggingPet (dragState m)) eqn:Hpet;
    [destruct (draggingPetElement (petDragState m)) as [h |] eqn:Hel |].
  - unfold onMouseMove. simpl. rewrite Hpet, Hel, element_at_update_eq.
    change (Dom.offsetWidth (Dom.set_styleLeft _ ?el)) with (Dom.offsetWidth el).
    by rewrite update_element_twice.
  - destruct (isDragging (dragState m)) eqn:Hdrag.
    + unfold onMouseMove. simpl. by rewrite Hpet, Hel, Hdrag.
    + destruct (isResizing (dragState m)) eqn:Hres;
        [destruct (resizeDirection (dragState m)) as [[|] |] eqn:Hdir |];
        unfold onMouseMove; simpl; by rewrite ?Hpet, ?Hel, ?Hdrag, ?Hres, ?Hdir.
  - destruct (isDragging (dragState m)) eqn:Hdrag.
    + unfold onMouseMove. simpl. by rewrite Hpet, Hdrag.
    + destruct (isResizing (dragState m)) eqn:Hres;
        [destruct (resizeDirection (dragState m)) as [[|] |] eqn:Hdir |];
        unfold onMouseMove; simpl; by rewrite ?Hpet, ?Hdrag, ?Hres, ?Hdir.
Qed.

(** X5.  During any gesture the geometry depends on the anchor and on the
    latest pointer position only: a pointer move after any run of pointer
    moves leaves the same state as that move alone, so no drift builds up,
    whatever the gesture (window drag, resize, pet drag, or none). *)
Theorem last_move_wins (events : list MouseEvent) (e : MouseEvent) (m : t) :
  onMouseMove e (moves events m) = onMouseMove e m.
Proof.
  revert m. induction events as [| e0 events IH] using rev_ind; intros m; [reflexivity |].
  unfold moves. rewrite fold_left_app. simpl.
  rewrite onMouseMove_absorbs. apply IH.
Qed.

(** X6.  While the window is dragged, a pointer move puts the window at the
    anchor position plus the pointer delta, except that the ordinate is
    never negative; the abscissa is not limited.  The size, the recorded
    width and the gesture state are untouched.  When the pointer is back
    where the drag started and the anchor ordinate was not negative, the
    window is back at the anchor. *)
Theorem window_drag_geometry (e : MouseEvent) (m : t) :
  (isDraggingPet (dragState m) = false \/ draggingPetElement (petDragState m) = None) ->
  isDragging (dragState m) = true ->
  let d := dragState m in
  let m' := onMouseMove e m in
  positionX (window m') = windowStartX d + (screenX e - dragStartX d)
  /\ positionY (window m') = Math.max 0 (windowStartY d + (screenY e - dragStartY d))
  /\ 0 <= positionY (window m')
  /\ sizeWidth (window m') = sizeWidth (window m)
  /\ sizeHeight (window m') = sizeHeight (window m)
  /\ windowInfo m' = windowInfo m
  /\ dragState m' = dragState m
  /\ env m' = env m
  /\ (screenX e == dragStartX d -> screenY e == dragStartY d -> 0 <= windowStartY d ->
      positionX (window m') == windowStartX d
      /\ positionY (window m') == windowStartY d).
Proof.
  intros Hnopet Hdrag d m'. subst d m'.
  assert (Hmove : onMouseMove e m
                  = setWindowPosition
                      (windowStartX (dragState m) + (screenX e - dragStartX (dragState m)))
                      (Math.max 0 (windowStartY (dragState m)
                                   + (screenY e - dragStartY (dragState m)))) m).
  { unfold onMouseMove. rewrite Hdrag.
    destruct Hnopet as [-> | ->]; [reflexivity |].
    by destruct (isDraggingPet (dragState m)). }
  rewrite Hmove. simpl. repeat split.
  - unfold Math.max. apply Q.le_max_l.
  - lra.
  - unfold Math.max. rewrite Q.max_r by lra. lra.
Qed.

(** X6 at a concrete input: the window at (200, 50) is grabbed with shift
    at (1000, 100) and the pointer goes to (1100, 20): the window is at
    (300, 0), not at (300, -30). *)
Lemma window_drag_geometry_witness :
  let m := fst (deliver 700 (MouseDown (Examples.with_shift 1000 100))
                  (Examples.interactive 500 (Examples.empty_env []))) in
  let m' := onMouseMove (Examples.with_shift 1100 20) m in
  positionX (window m') == 300 /\ positionY (window m') == 0.
Proof.
  intros m m'.
  destruct (window_drag_geometry (Examples.with_shift 1100 20) m
              (or_introl eq_refl) eq_refl) as (Hx & Hy & _).
  fold m' in Hx, Hy. rewrite Hx, Hy. split; vm_compute; reflexivity.
Defined.

(** X7.  A pointer move during a resize never leaves the window narrower
    than 400; the recorded width and the width of the window agree; the
    ordinate is the anchor ordinate.  A right-edge resize leaves the origin
    at the anchor origin and sets the width to the anchor width plus the
    pointer delta, floored at 400.  A left-edge resize sets the width to the
    anchor width minus the pointer delta, floored at 400, and keeps the
    right edge of the window where it was when the gesture started. *)
Theorem resize_geometry (e : MouseEvent) (m : t) (direction : ResizeDirection) :
  (isDraggingPet (dragState m) = false \/ draggingPetElement (petDragState m) = None) ->
  isDragging (dragState m) = false ->
  isResizing (dragState m) = true ->
  resizeDirection (dragState m) = Some direction ->
  let d := dragState m in
  let delta := screenX e - dragStartX d in
  let m' := onMouseMove e m in
  400 <= windowWidth (windowInfo m')
  /\ sizeWidth (window m') = windowWidth (windowInfo m')
  /\ positionY (window m') = windowStartY d
  /\ match direction with
     | resize_right =>
         windowWidth (windowInfo m') = Math.max 400 (windowStartWidth d + delta)
         /\ positionX (window m') = windowStartX d
     | resize_left =>
         windowWidth (windowInfo m') = Math.max 400 (windowStartWidth d - delta)
         /\ positionX (window m') + sizeWidth (window m')
            == windowStartX d + windowStartWidth d
     end.
Proof.
  intros Hnopet Hdrag Hres Hdir d delta m'. subst d delta m'.
  assert (Hbranch :
            onMouseMove e m
            = match isResizing (dragState m), resizeDirection (dragState m) with
              | true, Some direction0 =>
                  let deltaX := screenX e - dragStartX (dragState m) in
                  let '(newWidth, newX) :=
                    match direction0 with
                    | resize_right => (windowStartWidth (dragState m) + deltaX,
                                       windowStartX (dragState m))
                    | resize_left => (windowStartWidth (dragState m) - deltaX,
                                      windowStartX (dragState m) + deltaX)
                    end in
                  let newWidth := Math.max 400 newWidth in
                  let newX := match direction0 with
                              | resize_left =>
                                  if Qeq_bool newWidth 400
                                  then windowStartX (dragState m)
                                       + (windowStartWidth (dragState m) - 400)
                                  else newX
                              | resize_right => newX
                              end in
                  setWindowWidthAndPosition newWidth newX (windowStartY (dragState m)) m
              | _, _ => m
              end).
  { unfold onMouseMove. rewrite Hdrag.
    destruct Hnopet as [-> | ->]; [reflexivity |].
    by destruct (isDraggingPet (dragState m)). }
  rewrite Hbranch, Hres, Hdir. clear Hbranch.
  destruct direction; simpl.
  - split; [apply Q.le_max_l |]. split; [reflexivity |]. split; [reflexivity |].
    split; [reflexivity |].
    set (narrowed := windowStartWidth (dragState m)
                     - (screenX e - dragStartX (dragState m))).
    destruct (Qeq_bool (Math.max 400 narrowed) 400) eqn:Hfloor; simpl.
    + apply Qeq_bool_iff in Hfloor. rewrite Hfloor. lra.
    + apply Qeq_bool_neq in Hfloor. unfold Math.max in *.
      destruct (Q.max_spec 400 narrowed) as [[_ Hmax] | [_ Hmax]];
        [| contradiction].
      rewrite Hmax. unfold narrowed. lra.
  - split; [apply Q.le_max_l |]. by repeat split.
Qed.

(** X7 at a concrete input: the right handle of a window 500 wide at 200 is
    grabbed at 1200 and dragged to 1150, then to 900: the width is 450,
    then 400, and the origin stays at 200. *)
Lemma resize_geometry_witness :
  let m := fst (deliver 700 (MouseDown (Examples.on_right_handle 1200))
                  (Examples.interactive 500 (Examples.empty_env []))) in
  let m1 := onMouseMove (Examples.pointer_at 1150) m in
  let m2 := onMouseMove (Examples.pointer_at 900) m in
  windowWidth (windowInfo m1) == 450
  /\ windowWidth (windowInfo m2) == 400
  /\ positionX (window m2) == 200.
Proof.
  intros m m1 m2.
  destruct (resize_geometry (Examples.pointer_at 1150) m resize_right
              (or_introl eq_refl) eq_refl eq_refl eq_refl) as (_ & _ & _ & Hw1 & _).
  destruct (resize_geometry (Examples.pointer_at 900) m resize_right
              (or_introl eq_refl) eq_refl eq_refl eq_refl) as (_ & _ & _ & Hw2 & Hx2).
  fold m1 in Hw1. fold m2 in Hw2, Hx2. rewrite Hw1, Hw2, Hx2.
  repeat split; vm_compute; reflexivity.
Defined.






End GestureProperties.
(** * Further properties of the pet module *)

Section BoundsProperties.
Import Runtime PetController Props.

Lemma keeps_width_classList_add c : keeps_width (Dom.classList_add c).
Proof. intros el. reflexivity. Qed.

(** A tick never changes the container width or the rendered width. *)
Lemma animate_frame c e c' e' :
  animate c e = Some (c', e') ->
  containerWidth c' = containerWidth c /\ petWidth c' e' = petWidth c e.
Proof.
  intros H.
  destruct (isEgg c) eqn:Hegg.
  { rewrite animate_egg_eq in H by exact Hegg. injection H as <- <-. by split. }
  destruct (isPaused c) eqn:Hpaused.
  { unfold animate in H. rewrite Hegg, Hpaused in H. simpl in H.
    injection H as <- <-. by split. }
  destruct (isMovementEnabled c) eqn:Hen.
  2: { unfold animate in H. rewrite Hegg, Hpaused, Hen in H. simpl in H.
       injection H as <- <-. by split. }
  destruct (isResting c) eqn:Hrest.
  2: { destruct (animate_moving_inv _ _ _ _ Hegg Hpaused Hen Hrest H) as (_ & ? & ?).
       by split. }
  unfold animate in H. rewrite Hegg, Hpaused, Hen, Hrest in H. simpl in H.
  apply bind_Some in H as (c1 & e1 & H & Hraf).
  unfold requestAnimationFrame, bind, ret in Hraf. injection Hraf as <- <-.
  apply bind_Some in H as (now & e0 & Hnow & H).
  unfold Date_now, gets in Hnow. injection Hnow as <- <-.
  destruct (Qle_bool _ _).
  - apply bind_Some in H as (c2 & e2 & Hpick & H).
    unfold bind, modify, ret in H. injection H as <- <-.
    destruct (pickNewTarget_x _ _ _ _ Hpick) as (_ & Hw & Hel).
    split; [exact Hw |].
    change (petWidth c2 (update_element (element c2) (Dom.classList_add "walking") e2)
            = petWidth c e).
    unfold petWidth at 1. rewrite offsetWidth_update by apply keeps_width_classList_add.
    fold (petWidth c2 e2). rewrite (petWidth_pickNewTarget_any c2 _ _ _ _ Hpick).
    apply petWidth_same_element. exact Hel.
  - injection H as <- <-. by split.
Qed.

(** One tick keeps a pet inside the band. *)
Lemma animate_keeps_bounds c e c' e' :
  inBounds c e -> animate c e = Some (c', e') -> inBounds c' e'.
Proof.
  intros [Hlo Hhi] H. destruct (animate_frame _ _ _ _ H) as [Hw Hpw].
  unfold inBounds. rewrite Hw, Hpw.
  destruct (isEgg c) eqn:Hegg.
  { rewrite (animate_still c e c' e') by auto. by split. }
  destruct (isPaused c) eqn:Hpaused.
  { rewrite (animate_still c e c' e') by auto. by split. }
  destruct (isMovementEnabled c) eqn:Hen.
  2: { rewrite (animate_still c e c' e') by auto. by split. }
  destruct (isResting c) eqn:Hrest.
  { rewrite (animate_still c e c' e') by auto. by split. }
  destruct (animate_moving_inv _ _ _ _ Hegg Hpaused Hen Hrest H) as (Hx & _ & _).
  rewrite Hx.
  case_Qle (stepped c) 10 H1; [split; lra |].
  case_Qle (containerWidth c - petWidth c e - 10) (stepped c) H2; split; lra.
Qed.

(** X9.  Once a pet is inside the band
    [[10, containerWidth - renderedWidth - 10]] it stays inside it over any
    number of animation frames, whatever its state (egg, paused, resting or
    walking) and whatever the frame times and the random draws are; the
    container width and the rendered width do not change either. *)
Theorem ticks_keep_bounds (times : list Q) (c : t) (e : Env) (c' : t) (e' : Env) :
  inBounds c e ->
  ticks times c e = Some (c', e') ->
  inBounds c' e'
  /\ containerWidth c' = containerWidth c
  /\ petWidth c' e' = petWidth c e.
Proof.
  revert c e. induction times as [| now times IH]; intros c e Hin H.
  - injection H as <- <-. split; [exact Hin | by split].
  - simpl in H. apply bind_Some in H as ([] & e0 & Hclock & H).
    unfold modify in Hclock. injection Hclock as <-.
    apply bind_Some in H as (c1 & e1 & Htick & H).
    assert (Hin0 : inBounds c (set_clock now e)) by exact Hin.
    pose proof (animate_keeps_bounds _ _ _ _ Hin0 Htick) as Hin1.
    destruct (animate_frame _ _ _ _ Htick) as [Hw1 Hpw1].
    destruct (IH _ _ Hin1 H) as (Hin' & Hw' & Hpw').
    split; [exact Hin' |]. split; [congruence |].
    rewrite Hpw', Hpw1. reflexivity.
Qed.

(** X9 at a concrete input: a pet 64 wide at 325.5 in a container 400 wide
    walks forward; the first of three frames would carry it past 326, the
    position is clamped there, and the pet is still there after the third
    frame. *)
Lemma ticks_keep_bounds_witness :
  let c := Examples.pet "stage1" 400 (651 # 2) Forward 380 in
  let e := Examples.env_of (Examples.pet_box 64 (651 # 2)) [1 # 2; 1 # 2; 1 # 2; 1 # 2] in
  exists c' e',
    ticks [0; 16; 32] c e = Some (c', e')
    /\ inBounds c' e' /\ x c' == 326.
Proof.
  intros c e.
  destruct (ticks [0; 16; 32] c e) as [[c' e'] |] eqn:H;
    [| vm_compute in H; discriminate].
  exists c', e'. split; [reflexivity |].
  split.
  - apply (ticks_keep_bounds [0; 16; 32] c e c' e'); [| exact H].
    unfold inBounds. vm_compute. split; discriminate.
  - vm_compute in H. injection H as <- _. reflexivity.
Defined.

End BoundsProperties.

Section SettingsProperties.
Import Runtime Props.
Import MultiPetManager.




End SettingsProperties.

Section ContainerResizeProperties.
Import Runtime Props.
Import PetController.

Lemma petWidth_set_containerWidth width c e :
  petWidth (set_containerWidth width c) e = petWidth c e.
Proof. reflexivity. Qed.

(** What [setContainerWidth] leaves behind. *)
Lemma setContainerWidth_inv width c e c' e' :
  setContainerWidth width c e = Some (c', e') ->
  containerWidth c' = width
  /\ element c' = element c
  /\ (forall c0, petWidth c0 e' = petWidth c0 e)
  /\ (x c <= width - petWidth c e - 10 -> c' = set_containerWidth width c /\ e' = e)
  /\ (width - petWidth c e - 10 < x c ->
      x c' = Math.max 10 (width - petWidth c e - 10)
      /\ Dom.styleLeft (element_at (element c') e') = x c').
Proof.
  unfold setContainerWidth, clampPositionToContainer. intros H.
  apply bind_Some in H as (pw & e0 & Hpw & H).
  unfold gets in Hpw. injection Hpw as <- <-.
  rewrite petWidth_set_containerWidth in H. simpl in H.
  destruct (Qltb (width - petWidth c e - 10) (x c)) eqn:Hover.
  - apply Qltb_lt in Hover.
    apply bind_Some in H as ([] & e1 & Hpos & H).
    unfold updatePosition, modify in Hpos. injection Hpos as <-. simpl in H.
    set (c1 := set_x _ _) in H.
    assert (Hleft : Dom.styleLeft
                      (element_at (element c)
                         (update_element (element c) (Dom.set_styleLeft (x c1)) e))
                    = x c1)
      by (by rewrite element_at_update_eq).
    assert (Hw1 : forall c0,
               petWidth c0 (update_element (element c) (Dom.set_styleLeft (x c1)) e)
               = petWidth c0 e).
    { intros c0. unfold petWidth. by rewrite offsetWidth_update by apply keeps_width_styleLeft. }
    destruct (_ && _).
    + destruct (pickNewTarget_inv _ _ _ _ H) as (target & rest & _ & Hc' & He').
      destruct (pickNewTarget_x _ _ _ _ H) as (Hx & Hw & Hel).
      split; [by rewrite Hw |]. split; [by rewrite Hel |].
      split; [intros c0; rewrite (petWidth_pickNewTarget_any c0 _ _ _ _ H); apply Hw1 |].
      split; [intros; lra |]. intros _. split; [by rewrite Hx |].
      rewrite Hx, Hel, He'. unfold updateDirection_env.
      rewrite Hc'. simpl.
      destruct (needsFlip _); rewrite element_at_update_eq; simpl; exact Hleft.
    + injection H as <- <-. split; [reflexivity |]. split; [reflexivity |].
      split; [exact Hw1 |]. split; [intros; lra |]. intros _. split; [reflexivity |].
      exact Hleft.
  - apply Qltb_ge in Hover. injection H as <- <-.
    split; [reflexivity |]. split; [reflexivity |]. split; [reflexivity |].
    split; [by split | intros; lra].
Qed.

(** X11.  [setContainerWidth] of one pet stores the new width and clamps the
    position from above only: a pet that fits ([x <= width - renderedWidth -
    10]) is left exactly where it is, without a draw and without a write to
    the document, even when it stands left of the margin; a pet that no
    longer fits is put at [max(10, width - renderedWidth - 10)], and the
    inline [left] of its element shows that position.  A pet that was
    inside the band for the old width is inside the band for the new one,
    provided the new container has room for the pet and both margins. *)
Theorem setContainerWidth_clamps_from_above (width : Q) (c : t) (e : Env)
    (c' : t) (e' : Env) :
  setContainerWidth width c e = Some (c', e') ->
  containerWidth c' = width
  /\ petWidth c' e' = petWidth c e
  /\ x c' <= Math.max 10 (width - petWidth c e - 10)
  /\ (x c <= width - petWidth c e - 10 -> c' = set_containerWidth width c /\ e' = e)
  /\ (width - petWidth c e - 10 < x c ->
      x c' = Math.max 10 (width - petWidth c e - 10)
      /\ Dom.styleLeft (element_at (element c') e') = x c')
  /\ (10 <= x c -> 10 <= width - petWidth c e - 10 -> inBounds c' e').
Proof.
  intros H.
  destruct (setContainerWidth_inv _ _ _ _ _ H) as (Hw & Hel & Hpw & Hfits & Hover).
  assert (Hpw' : petWidth c' e' = petWidth c e).
  { rewrite Hpw. by apply petWidth_same_element. }
  split; [exact Hw |]. split; [exact Hpw' |].
  split; [| split; [exact Hfits |]; split; [exact Hover |]].
  - destruct (Qlt_le_dec (width - petWidth c e - 10) (x c)) as [Hgt | Hle].
    + destruct (Hover Hgt) as [-> _]. lra.
    + destruct (Hfits Hle) as [-> _]. simpl.
      pose proof (Q.le_max_r 10 (width - petWidth c e - 10)). unfold Math.max. lra.
  - intros Hlo Hroom. unfold inBounds. rewrite Hw, Hpw'.
    destruct (Qlt_le_dec (width - petWidth c e - 10) (x c)) as [Hgt | Hle].
    + destruct (Hover Hgt) as [-> _]. unfold Math.max.
      rewrite Q.max_r by lra. split; lra.
    + destruct (Hfits Hle) as [-> _]. simpl. split; lra.
Qed.

(** X11 at a concrete input: a walking pet 64 wide at 300 in a container
    400 wide; the container shrinks to 200, the pet is put at 126. *)
Lemma setContainerWidth_clamps_from_above_witness :
  let c := Examples.pet "stage1" 400 300 Forward 320 in
  let e := Examples.env_of (Examples.pet_box 64 300) [1 # 2] in
  exists c' e',
    setContainerWidth 200 c e = Some (c', e')
    /\ x c' = Math.max 10 (200 - petWidth c e - 10)
    /\ x c' == 126
    /\ inBounds c' e'.
Proof.
  intros c e.
  destruct (setContainerWidth 200 c e) as [[c' e'] |] eqn:H;
    [| vm_compute in H; discriminate].
  destruct (setContainerWidth_clamps_from_above 200 c e c' e' H)
    as (_ & _ & _ & _ & Hover & Hin).
  exists c', e'. split; [reflexivity |].
  assert (Hgt : 200 - petWidth c e - 10 < x c) by (vm_compute; reflexivity).
  destruct (Hover Hgt) as [Hx _].
  split; [exact Hx |]. split.
  - rewrite Hx. vm_compute. reflexivity.
  - apply Hin; vm_compute; discriminate.
Defined.

End ContainerResizeProperties.

Section ManagerResizeProperties.
Import Runtime Props.
Import MultiPetManager.

(** A method call on a stored controller, step by step. *)
Lemma call_inv petId method m e m' e' :
  call petId method m e = Some (m', e') ->
  match JsMap.get petId (controllers m) with
  | Some c => exists c', method c e = Some (c', e')
                         /\ m' = set_controllers (JsMap.set petId c' (controllers m)) m
  | None => m' = m /\ e' = e
  end.
Proof.
  unfold call. destruct (JsMap.get petId (controllers m)) as [c |].
  - intros H. apply bind_Some in H as (c' & e1 & Hm & H). injection H as <- <-. eauto.
  - intros [= <- <-]. by split.
Qed.

(** The loop of [setContainerWidth] over a list of ids. *)
Lemma setContainerWidth_loop width ids m e m' e' :
  foldM (fun m id => call id (PetController.setContainerWidth width) m) ids m e
  = Some (m', e') ->
  containerWidth m' = containerWidth m
  /\ JsMap.keys (controllers m') = JsMap.keys (controllers m)
  /\ (forall c0, PetController.petWidth c0 e' = PetController.petWidth c0 e)
  /\ forall id,
       match JsMap.get id (controllers m) with
       | None => JsMap.get id (controllers m') = None
       | Some c =>
           exists c',
             JsMap.get id (controllers m') = Some c'
             /\ PetController.element c' = PetController.element c
             /\ (In id ids ->
                 PetController.containerWidth c' = width
                 /\ PetController.x c'
                    <= Math.max 10 (width - PetController.petWidth c e - 10))
             /\ (~ In id ids -> c' = c)
             /\ (PetController.x c <= width - PetController.petWidth c e - 10 ->
                 PetController.x c' = PetController.x c)
       end.
Proof.
  revert m e. induction ids as [| id0 ids IH]; intros m e H.
  - injection H as <- <-. do 3 (split; [reflexivity |]). intros id.
    destruct (JsMap.get id (controllers m)) as [c |]; [| reflexivity].
    exists c. do 2 (split; [reflexivity |]). split; [intros [] |]. by split.
  - simpl in H. apply bind_Some in H as (m1 & e1 & Hstep & H).
    destruct (IH _ _ H) as (Hcw & Hkeys & Hpw & Hall).
    apply call_inv in Hstep.
    destruct (JsMap.get id0 (controllers m)) as [c0 |] eqn:Hget0.
    + destruct Hstep as (c1 & Hset & ->).
      destruct (setContainerWidth_inv _ _ _ _ _ Hset) as (Hw1 & Hel1 & Hpw1 & Hfits1 & Hover1).
      split; [exact Hcw |].
      split.
      { rewrite Hkeys. simpl. apply JsMap_keys_set_has. apply JsMap_has_get. eauto. }
      split; [intros c; by rewrite Hpw, Hpw1 |].
      intros id. specialize (Hall id). simpl in Hall.
      destruct (String.eqb id0 id) eqn:Hid.
      * apply String.eqb_eq in Hid as <-. rewrite Hget0.
        rewrite JsMap_get_set_eq in Hall.
        destruct Hall as (c' & Hget' & Hel' & Hin' & Hout' & Hfit').
        assert (Hpwc : PetController.petWidth c1 e1 = PetController.petWidth c0 e).
        { rewrite Hpw1. by apply petWidth_same_element. }
        rewrite Hpwc in Hin', Hfit'.
        assert (Hx1 : PetController.x c1
                      <= Math.max 10 (width - PetController.petWidth c0 e - 10)).
        { destruct (Qlt_le_dec (width - PetController.petWidth c0 e - 10)
                      (PetController.x c0)) as [Hgt | Hle].
          - destruct (Hover1 Hgt) as [-> _]. lra.
          - destruct (Hfits1 Hle) as [-> _]. simpl.
            pose proof (Q.le_max_r 10 (width - PetController.petWidth c0 e - 10)).
            unfold Math.max. lra. }
        exists c'. split; [exact Hget' |]. split; [congruence |].
        split; [| split].
        -- intros _. destruct (in_dec string_dec id0 ids) as [Hin | Hout].
           ++ by apply Hin'.
           ++ rewrite (Hout' Hout). by split.
        -- intros Hout. exfalso. apply Hout. by left.
        -- intros Hle. destruct (Hfits1 Hle) as [-> _]. simpl in *. by apply Hfit'.
      * apply String.eqb_neq in Hid.
        rewrite JsMap_get_set_ne in Hall by exact Hid.
        destruct (JsMap.get id (controllers m)) as [c |]; [| exact Hall].
        destruct Hall as (c' & Hget' & Hel' & Hin' & Hout' & Hfit').
        assert (Hpwc : PetController.petWidth c e1 = PetController.petWidth c e)
          by apply Hpw1.
        rewrite Hpwc in Hin', Hfit'.
        exists c'. split; [exact Hget' |]. split; [exact Hel' |].
        split; [| split; [| exact Hfit']].
        -- intros [Heq | Hin]; [congruence | by apply Hin'].
        -- intros Hout. apply Hout'. intros Hin. apply Hout. by right.
    + destruct Hstep as [-> ->].
      split; [exact Hcw |]. split; [exact Hkeys |]. split; [exact Hpw |].
      intros id. specialize (Hall id).
      destruct (JsMap.get id (controllers m)) as [c |] eqn:Hget; [| exact Hall].
      destruct Hall as (c' & Hget' & Hel' & Hin' & Hout' & Hfit').
      exists c'. split; [exact Hget' |]. split; [exact Hel' |].
      split; [| split; [| exact Hfit']].
      * intros [Heq | Hin]; [congruence | by apply Hin'].
      * intros Hout. apply Hout'. intros Hin. apply Hout. by right.
Qed.

(** X12.  [setContainerWidth] of the manager stores the new width in the
    manager and in every stored pet, keeps the set and the order of the
    ids, and leaves every pet at or left of [max(10, width - renderedWidth -
    10)]; a pet that fitted is where it was, and no rendered width
    changes. *)
Theorem manager_setContainerWidth_reaches_all (width : Q) (m : t) (e : Env)
    (m' : t) (e' : Env) :
  setContainerWidth width m e = Some (m', e') ->
  containerWidth m' = width
  /\ JsMap.keys (controllers m') = JsMap.keys (controllers m)
  /\ forall id c,
       JsMap.get id (controllers m) = Some c ->
       exists c',
         JsMap.get id (controllers m') = Some c'
         /\ PetController.containerWidth c' = width
         /\ PetController.petWidth c' e' = PetController.petWidth c e
         /\ PetController.x c' <= Math.max 10 (width - PetController.petWidth c e - 10)
         /\ (PetController.x c <= width - PetController.petWidth c e - 10 ->
             PetController.x c' = PetController.x c).
Proof.
  unfold setContainerWidth. intros H.
  destruct (setContainerWidth_loop _ _ _ _ _ _ H) as (Hcw & Hkeys & Hpw & Hall).
  split; [exact Hcw |]. split; [exact Hkeys |].
  intros id c Hget. specialize (Hall id). simpl in Hall. rewrite Hget in Hall.
  destruct Hall as (c' & Hget' & Hel' & Hin' & _ & Hfit').
  assert (Hin : In id (JsMap.keys (controllers m))).
  { apply JsMap_has_keys, JsMap_has_get. eauto. }
  destruct (Hin' Hin) as [Hw Hx].
  exists c'. split; [exact Hget' |]. split; [exact Hw |].
  split; [| by split].
  rewrite Hpw. by apply petWidth_same_element.
Qed.

(** X12 at a concrete input: the window with one pet, 64 wide, at 50
    shrinks from 300 to 100; the pet is put at 26. *)
Lemma manager_setContainerWidth_reaches_all_witness :
  let e := Examples.env_of (Examples.pet_box 64 50) [1 # 2] in
  exists m' e' c',
    setContainerWidth 100 Examples.one_pet e = Some (m', e')
    /\ containerWidth m' = 100
    /\ JsMap.get "a" (controllers m') = Some c'
    /\ PetController.containerWidth c' = 100
    /\ PetController.x c' == 26.
Proof.
  intros e.
  destruct (setContainerWidth 100 Examples.one_pet e) as [[m' e'] |] eqn:H;
    [| vm_compute in H; discriminate].
  destruct (manager_setContainerWidth_reaches_all 100 Examples.one_pet e m' e' H)
    as (Hcw & _ & Hall).
  destruct (Hall "a"%string _ eq_refl) as (c' & Hget & Hw & _ & _ & _).
  exists m', e', c'. split; [reflexivity |]. split; [exact Hcw |].
  split; [exact Hget |]. split; [exact Hw |].
  vm_compute in H. injection H as <- _.
  vm_compute in Hget. injection Hget as <-. reflexivity.
Defined.

End ManagerResizeProperties.

Section SnapshotProperties.
Import Runtime Props.
Import MultiPetManager.

Implicit Types (cs : list (string * PetController.t)) (pets : list Types.PetState).

Lemma JsMap_get_delete_ne (k id : string) cs :
  k <> id -> JsMap.get k (JsMap.delete id cs) = JsMap.get k cs.
Proof.
  intros Hne. unfold JsMap.get, JsMap.delete.
  induction cs as [| [k0 v0] cs IH]; [reflexivity |]. simpl.
  destruct (String.eqb k0 id) eqn:Hid; simpl.
  - apply String.eqb_eq in Hid as ->.
    assert (Hk : String.eqb id k = false) by (apply String.eqb_neq; congruence).
    rewrite Hk. exact IH.
  - destruct (String.eqb k0 k); [reflexivity | exact IH].
Qed.

Lemma JsMap_get_None_keys (k : string) cs :
  JsMap.get k cs = None <-> ~ In k (JsMap.keys cs).
Proof.
  rewrite <- JsMap_has_keys, JsMap_has_get. split.
  - intros Hnone [v Hv]. congruence.
  - intros Hnot. destruct (JsMap.get k cs) as [v |] eqn:Hget; [| reflexivity].
    exfalso. apply Hnot. eauto.
Qed.

(** The first loop keeps every listed pet as it is. *)
Lemma removePet_get id m e m' e' :
  removePet id m e = Some (m', e') ->
  forall k, k <> id -> JsMap.get k (controllers m') = JsMap.get k (controllers m).
Proof.
  unfold removePet. destruct (JsMap.get id (controllers m)) as [c |].
  - intros H. apply bind_Some in H as ([] & e1 & _ & H). injection H as <- <-.
    intros k Hne. simpl. by apply JsMap_get_delete_ne.
  - intros [= <- <-]. reflexivity.
Qed.

Lemma remove_loop_get newIds ids m e m' e' :
  foldM (remove_step newIds) ids m e = Some (m', e') ->
  forall k, In k newIds -> JsMap.get k (controllers m') = JsMap.get k (controllers m).
Proof.
  revert m e. induction ids as [| id ids IH]; intros m e H k Hin.
  - by injection H as <- <-.
  - simpl in H. apply bind_Some in H as (m1 & e1 & Hstep & H).
    rewrite (IH _ _ H k Hin). unfold remove_step in Hstep.
    destruct (existsb (String.eqb id) newIds) eqn:Hlisted; simpl in Hstep.
    + by injection Hstep as <- <-.
    + apply (removePet_get _ _ _ _ _ Hstep). intros ->.
      apply existsb_eqb_In in Hin. congruence.
Qed.

(** One step of the second loop, seen from a stored pet. *)
Lemma reconcile_step_get m pet e m' e' id c :
  reconcile_step m pet e = Some (m', e') ->
  JsMap.get id (controllers m) = Some c ->
  JsMap.get id (controllers m')
  = Some (if String.eqb (Types.odangoId pet) id then PetController.set_state pet c else c).
Proof.
  intros Hstep Hget.
  destruct (String.eqb (Types.odangoId pet) id) eqn:Hid.
  - apply String.eqb_eq in Hid as <-.
    unfold reconcile_step in Hstep.
    assert (Hhas : JsMap.has (Types.odangoId pet) (controllers m) = true)
      by (apply JsMap_has_get; eauto).
    rewrite Hhas in Hstep.
    destruct (call_updateState pet m e c Hget) as (e1 & Hcall & _).
    rewrite Hcall in Hstep. injection Hstep as <- <-. simpl.
    apply JsMap_get_set_eq.
  - apply String.eqb_neq in Hid.
    destruct (reconcile_step_inv _ _ _ _ _ Hstep) as (c' & -> & _).
    by rewrite JsMap_get_set_ne.
Qed.

Lemma reconcile_loop_get pets m e m' e' id c :
  foldM reconcile_step pets m e = Some (m', e') ->
  JsMap.get id (controllers m) = Some c ->
  JsMap.get id (controllers m') = Some (overlay pets id c).
Proof.
  revert m e c. induction pets as [| pet pets IH]; intros m e c H Hget.
  - by injection H as <- <-.
  - simpl in H. apply bind_Some in H as (m1 & e1 & Hstep & H).
    pose proof (reconcile_step_get _ _ _ _ _ _ _ Hstep Hget) as Hget1.
    apply (IH _ _ _ H Hget1).
Qed.

(** The snapshot assigns attributes only. *)
Lemma overlay_motion pets id c :
  PetController.x (overlay pets id c) = PetController.x c
  /\ PetController.targetX (overlay pets id c) = PetController.targetX c
  /\ PetController.direction (overlay pets id c) = PetController.direction c
  /\ PetController.isResting (overlay pets id c) = PetController.isResting c
  /\ PetController.restEndTime (overlay pets id c) = PetController.restEndTime c
  /\ PetController.baseSpeed (overlay pets id c) = PetController.baseSpeed c
  /\ PetController.speedMultiplier (overlay pets id c) = PetController.speedMultiplier c
  /\ PetController.isPaused (overlay pets id c) = PetController.isPaused c
  /\ PetController.isMovementEnabled (overlay pets id c) = PetController.isMovementEnabled c
  /\ PetController.animationFrameId (overlay pets id c) = PetController.animationFrameId c
  /\ PetController.element (overlay pets id c) = PetController.element c
  /\ PetController.containerWidth (overlay pets id c) = PetController.containerWidth c.
Proof.
  revert c. induction pets as [| pet pets IH]; intros c; [by repeat split |].
  simpl. destruct (String.eqb (Types.odangoId pet) id); [| apply IH].
  destruct (IH (PetController.set_state pet c))
    as (? & ? & ? & ? & ? & ? & ? & ? & ? & ? & ? & ?).
  by repeat split.
Qed.

(** The two loops of [updatePets], with what each is known to do. *)
Lemma updatePets_inv pets m e m1 e1 :
  updatePets pets m e = Some (m1, e1) ->
  exists mr er,
    foldM (remove_step (List.map Types.odangoId pets)) (JsMap.keys (controllers m)) m e
    = Some (mr, er)
    /\ foldM reconcile_step pets mr er = Some (m1, e1)
    /\ settled pets (controllers m1)
    /\ (forall k, In k (JsMap.keys (controllers m1))
                  <-> In k (List.map Types.odangoId pets)).
Proof.
  intros H. unfold updatePets in H.
  apply bind_Some in H as (mr & er & Hremove & Hloop).
  change (foldM (remove_step (List.map Types.odangoId pets))
            (JsMap.keys (controllers m)) m e = Some (mr, er)) in Hremove.
  change (foldM reconcile_step pets mr er = Some (m1, e1)) in Hloop.
  exists mr, er. split; [exact Hremove |]. split; [exact Hloop |].
  assert (Hsettled0 : settled [] (controllers mr)) by (intros id c _; reflexivity).
  destruct (reconcile_loop pets [] mr er m1 e1 Hsettled0 Hloop) as [Hsettled Hkeys].
  split; [exact Hsettled |].
  intros k. rewrite Hkeys. split; [| by right].
  intros [Hin | Hin]; [| exact Hin].
  destruct (remove_loop _ _ _ _ _ _ Hremove k Hin) as [Hin0 Himp]. by apply Himp.
Qed.

Lemma NoDup_keys_set (k : string) (v : PetController.t) cs :
  NoDup (JsMap.keys cs) -> NoDup (JsMap.keys (JsMap.set k v cs)).
Proof.
  intros Hnd. destruct (JsMap.has k cs) eqn:Hhas.
  - by rewrite JsMap_keys_set_has.
  - rewrite JsMap_keys_set_new by exact Hhas.
    apply NoDup_app. split; [exact Hnd |]. split; [| apply NoDup_singleton].
    intros k' Hin Hk'. apply list_elem_of_singleton in Hk' as ->.
    apply list_elem_of_In, JsMap_has_keys in Hin. congruence.
Qed.

Lemma NoDup_keys_delete (id : string) cs :
  NoDup (JsMap.keys cs) -> NoDup (JsMap.keys (JsMap.delete id cs)).
Proof.
  unfold JsMap.keys, JsMap.delete. induction cs as [| [k0 v0] cs IH]; [done |].
  simpl. intros Hnd. apply NoDup_cons in Hnd as [Hnot Hnd].
  destruct (String.eqb k0 id); simpl; [by apply IH |].
  apply NoDup_cons. split; [| by apply IH].
  intros Hin. apply Hnot. apply list_elem_of_In. apply list_elem_of_In in Hin.
  apply in_map_iff in Hin as ([k v] & Hk & Hin). apply filter_In in Hin as [Hin _].
  apply in_map_iff. by exists (k, v).
Qed.

Lemma remove_loop_NoDup newIds ids m e m' e' :
  foldM (remove_step newIds) ids m e = Some (m', e') ->
  NoDup (JsMap.keys (controllers m)) -> NoDup (JsMap.keys (controllers m')).
Proof.
  revert m e. induction ids as [| id ids IH]; intros m e H Hnd.
  - by injection H as <- <-.
  - simpl in H. apply bind_Some in H as (m1 & e1 & Hstep & H).
    apply (IH _ _ H). unfold remove_step in Hstep.
    destruct (negb _); [| by injection Hstep as <- <-].
    unfold removePet in Hstep. destruct (JsMap.get id (controllers m)).
    + apply bind_Some in Hstep as ([] & e2 & _ & Hstep). injection Hstep as <- <-.
      simpl. by apply NoDup_keys_delete.
    + by injection Hstep as <- <-.
Qed.

Lemma reconcile_loop_NoDup pets m e m' e' :
  foldM reconcile_step pets m e = Some (m', e') ->
  NoDup (JsMap.keys (controllers m)) -> NoDup (JsMap.keys (controllers m')).
Proof.
  revert m e. induction pets as [| pet pets IH]; intros m e H Hnd.
  - by injection H as <- <-.
  - simpl in H. apply bind_Some in H as (m1 & e1 & Hstep & H).
    apply (IH _ _ H).
    destruct (reconcile_step_inv _ _ _ _ _ Hstep) as (c' & -> & _).
    by apply NoDup_keys_set.
Qed.

(** X13.  After [updatePets] the registry holds exactly the ids of the
    snapshot: every listed id is stored and every stored id is listed.  An
    empty snapshot empties the registry, and ids that were stored once each
    are still stored once each. *)
Theorem updatePets_ids (pets : list Types.PetState) (m : t) (e : Env)
    (m1 : t) (e1 : Env) :
  updatePets pets m e = Some (m1, e1) ->
  (forall k, In k (JsMap.keys (controllers m1)) <-> In k (List.map Types.odangoId pets))
  /\ (pets = [] -> controllers m1 = [])
  /\ (NoDup (JsMap.keys (controllers m)) -> NoDup (JsMap.keys (controllers m1))).
Proof.
  intros H. destruct (updatePets_inv _ _ _ _ _ H) as (mr & er & Hremove & Hloop & _ & Hkeys).
  split; [exact Hkeys |]. split.
  - intros ->. destruct (controllers m1) as [| [k c] cs]; [reflexivity |].
    exfalso. apply (Hkeys k). by left.
  - intros Hnd. apply (reconcile_loop_NoDup _ _ _ _ _ Hloop).
    apply (remove_loop_NoDup _ _ _ _ _ _ Hremove Hnd).
Qed.

(** X13 at a concrete input: the registry holds the pet [a]; the snapshot
    lists only the pet [b]; afterwards the registry holds [b] alone. *)
Lemma updatePets_ids_witness :
  let e := Examples.env_of (Examples.pet_box 64 50)
             [1 # 2; 1 # 2; 1 # 2; 1 # 10; 1 # 2] in
  exists m1 e1,
    updatePets [Examples.hatched_state] Examples.one_pet e = Some (m1, e1)
    /\ (forall k, In k (JsMap.keys (controllers m1)) <-> k = "b"%string).
Proof.
  intros e.
  destruct (updatePets [Examples.hatched_state] Examples.one_pet e) as [[m1 e1] |] eqn:H;
    [| vm_compute in H; discriminate].
  exists m1, e1. split; [reflexivity |].
  destruct (updatePets_ids _ _ _ _ _ H) as (Hkeys & _ & _).
  intros k. rewrite Hkeys. simpl. split; [intros [<- | []]; reflexivity | intros ->; by left].
Defined.

(** X14.  When a snapshot lists an id more than once, the last entry with
    that id decides: after [updatePets] the pet stored under the id has the
    id, scale, sprite path, stage and default facing of that entry (left
    when the entry names no facing). *)
Theorem updatePets_last_entry_wins (pets : list Types.PetState) (m : t) (e : Env)
    (m1 : t) (e1 : Env) (before : list Types.PetState) (pet : Types.PetState)
    (after : list Types.PetState) :
  updatePets pets m e = Some (m1, e1) ->
  pets = before ++ pet :: after ->
  (forall p, In p after -> Types.odangoId p <> Types.odangoId pet) ->
  exists c,
    JsMap.get (Types.odangoId pet) (controllers m1) = Some c
    /\ attributes c = prescribed pet.
Proof.
  intros H Hpets Hlast.
  destruct (updatePets_inv _ _ _ _ _ H) as (mr & er & _ & _ & Hsettled & Hkeys).
  assert (Hin : In (Types.odangoId pet) (JsMap.keys (controllers m1))).
  { apply Hkeys. rewrite Hpets, map_app, in_app_iff. right. by left. }
  apply JsMap_has_keys, JsMap_has_get in Hin as [c Hget].
  exists c. split; [exact Hget |].
  rewrite <- (Hsettled _ _ Hget), Hpets, overlay_app. simpl.
  rewrite String.eqb_refl, overlay_other by exact Hlast.
  apply attributes_set_state.
Qed.

(** X14 at a concrete input: a snapshot lists the pet [a] as an egg and
    then again as a hatched pet; the stored pet is the hatched one. *)
Lemma updatePets_last_entry_wins_witness :
  let hatched := {| Types.odangoId := "a"; Types.scale := 6 # 5;
                    Types.spritePath := "stage1.gif"; Types.stage := "stage1";
                    Types.defaultFacing := None |} in
  let m0 := MultiPetManager.new 0 400 in
  let e0 := Examples.empty_env [29 # 30; 1 # 2; 1 # 2; 1 # 2; 1 # 10] in
  exists m1 e1 c,
    updatePets [Examples.egg_state; hatched] m0 e0 = Some (m1, e1)
    /\ JsMap.get "a" (controllers m1) = Some c
    /\ PetController.stage c = "stage1"%string
    /\ PetController.defaultFacing c = Types.left.
Proof.
  intros hatched m0 e0.
  destruct (updatePets [Examples.egg_state; hatched] m0 e0) as [[m1 e1] |] eqn:H;
    [| vm_compute in H; discriminate].
  destruct (updatePets_last_entry_wins _ _ _ _ _ [Examples.egg_state] hatched [] H eq_refl)
    as (c & Hget & Hattr); [intros p [] |].
  exists m1, e1, c. split; [reflexivity |]. split; [exact Hget |].
  unfold attributes, prescribed in Hattr. simpl in Hattr.
  injection Hattr as _ _ _ Hstage Hfacing. by split.
Defined.

(** X15.  A pet that is stored and listed survives [updatePets] with its
    motion state: position, target, direction, rest state, speeds, pause and
    movement flags, frame request, element and container width are what
    they were; only the attributes of the entries with its id are assigned.
    A pet that is stored and not listed is no longer stored. *)
Theorem updatePets_keeps_motion (pets : list Types.PetState) (m : t) (e : Env)
    (m1 : t) (e1 : Env) (id : string) (c : PetController.t) :
  updatePets pets m e = Some (m1, e1) ->
  JsMap.get id (controllers m) = Some c ->
  (In id (List.map Types.odangoId pets) ->
   exists c1,
     JsMap.get id (controllers m1) = Some c1
     /\ c1 = overlay pets id c
     /\ PetController.x c1 = PetController.x c
     /\ PetController.targetX c1 = PetController.targetX c
     /\ PetController.direction c1 = PetController.direction c
     /\ PetController.isResting c1 = PetController.isResting c
     /\ PetController.restEndTime c1 = PetController.restEndTime c
     /\ PetController.baseSpeed c1 = PetController.baseSpeed c
     /\ PetController.speedMultiplier c1 = PetController.speedMultiplier c
     /\ PetController.isPaused c1 = PetController.isPaused c
     /\ PetController.isMovementEnabled c1 = PetController.isMovementEnabled c
     /\ PetController.animationFrameId c1 = PetController.animationFrameId c
     /\ PetController.element c1 = PetController.element c
     /\ PetController.containerWidth c1 = PetController.containerWidth c)
  /\ (~ In id (List.map Types.odangoId pets) ->
      JsMap.get id (controllers m1) = None).
Proof.
  intros H Hget.
  destruct (updatePets_inv _ _ _ _ _ H) as (mr & er & Hremove & Hloop & _ & Hkeys).
  split.
  - intros Hin.
    assert (Hgetr : JsMap.get id (controllers mr) = Some c).
    { rewrite (remove_loop_get _ _ _ _ _ _ Hremove id Hin). exact Hget. }
    exists (overlay pets id c).
    split; [apply (reconcile_loop_get _ _ _ _ _ _ _ Hloop Hgetr) |].
    split; [reflexivity | apply overlay_motion].
  - intros Hnot. apply JsMap_get_None_keys. intros Hin. apply Hnot. by apply Hkeys.
Qed.

(** X15 at a concrete input: the pet [a] walks at 50 towards 200; a snapshot
    lists it as an egg; it is still at 50 with target 200, and is an egg. *)
Lemma updatePets_keeps_motion_witness :
  let e := Examples.env_of (Examples.pet_box 64 50) [] in
  exists m1 e1 c1,
    updatePets [Examples.egg_state] Examples.one_pet e = Some (m1, e1)
    /\ JsMap.get "a" (controllers m1) = Some c1
    /\ PetController.x c1 = 50
    /\ PetController.targetX c1 = 200
    /\ PetController.stage c1 = "egg"%string.
Proof.
  intros e.
  destruct (updatePets [Examples.egg_state] Examples.one_pet e) as [[m1 e1] |] eqn:H;
    [| vm_compute in H; discriminate].
  destruct (updatePets_keeps_motion _ _ _ _ _ "a"%string _ H eq_refl) as [Hkept _].
  destruct Hkept as (c1 & Hget & Hc1 & Hx & Htarget & _); [by left |].
  exists m1, e1, c1. split; [reflexivity |]. split; [exact Hget |].
  split; [exact Hx |]. split; [exact Htarget |]. by rewrite Hc1.
Defined.

End SnapshotProperties.

Section LifecycleProperties.
Import Runtime Props.
Import PetController.

Lemma Math_random_unit e r e1 :
  Forall unit_draw (random e) ->
  Math_random e = Some (r, e1) ->
  unit_draw r /\ Forall unit_draw (random e1) /\ dom e1 = dom e.
Proof.
  unfold Math_random. intros Hunit H.
  destruct (random e) as [| r0 rest] eqn:Htape; [discriminate |].
  injection H as <- <-. apply Forall_cons_1 in Hunit as [Hr Hrest].
  split; [exact Hr |]. split; [exact Hrest | reflexivity].
Qed.

(** X16.  The constructor, with draws in [[0, 1)]: the new pet is an egg
    that is neither started nor resting, with base speed 1 and a speed
    multiplier in [[0.8, 1.2)].  A given initial position is taken as it is;
    without one the pet starts in [[50, containerWidth - 50]] when the
    container is at least 100 wide.  The inline [left] of the element shows
    the position, and the direction is the one towards the first target: the
    direction that was drawn is overwritten. *)
Theorem new_pet_ranges (h : nat) (width : Q) (initialX : option Q) (e : Env)
    (c : t) (e' : Env) :
  Forall unit_draw (random e) ->
  new h width initialX e = Some (c, e') ->
  8 # 10 <= speedMultiplier c /\ speedMultiplier c < 12 # 10
  /\ baseSpeed c = 1
  /\ isEgg c = true /\ isResting c = false /\ isPaused c = false
  /\ animationFrameId c = None
  /\ element c = h /\ containerWidth c = width
  /\ Dom.styleLeft (element_at h e') = x c
  /\ (forall v, initialX = Some v -> x c = v)
  /\ (initialX = None -> 100 <= width -> 50 <= x c /\ x c <= width - 50)
  /\ (direction c = Forward <-> x c < targetX c).
Proof.
  intros Hunit H. unfold new in H.
  apply bind_Some in H as (x0 & e1 & Hx & H).
  apply bind_Some in H as (r2 & e2 & Hr2 & H).
  apply bind_Some in H as (r3 & e3 & Hr3 & H).
  apply bind_Some in H as (c1 & e4 & Hpick & H).
  apply bind_Some in H as ([] & e5 & Hpos & H).
  apply bind_Some in H as ([] & e6 & Hdir & H).
  injection H as <- <-.
  assert (Hx0 : Forall unit_draw (random e1)
                /\ (forall v, initialX = Some v -> x0 = v)
                /\ (initialX = None -> 100 <= width -> 50 <= x0 /\ x0 <= width - 50)).
  { destruct initialX as [v |].
    - injection Hx as <- <-. split; [exact Hunit |]. split; [by intros v0 [= <-] | discriminate].
    - apply bind_Some in Hx as (r1 & e0 & Hr1 & Hx). injection Hx as <- <-.
      destruct (Math_random_unit _ _ _ Hunit Hr1) as ([H0 H1] & Hrest & _).
      split; [exact Hrest |]. split; [discriminate |]. intros _ Hwide. split; nra. }
  destruct Hx0 as (Hunit1 & Hgiven & Hdrawn).
  destruct (Math_random_unit _ _ _ Hunit1 Hr2) as (_ & Hunit2 & _).
  destruct (Math_random_unit _ _ _ Hunit2 Hr3) as ([H0 H1] & _ & _).
  destruct (pickNewTarget_inv _ _ _ _ Hpick) as (target & rest & _ & Hc1 & _).
  unfold updatePosition, modify in Hpos. injection Hpos as <-.
  rewrite updateDirection_eq in Hdir. injection Hdir as <-.
  rewrite Hc1. simpl.
  split; [lra |]. split; [lra |]. do 7 (split; [reflexivity |]).
  split.
  { unfold updateDirection_env. simpl. rewrite element_at_update_eq.
    destruct (needsFlip _); simpl; by rewrite element_at_update_eq. }
  split; [exact Hgiven |]. split; [exact Hdrawn |].
  destruct (Qltb x0 target) eqn:Hlt.
  - apply Qltb_lt in Hlt. by split.
  - apply Qltb_ge in Hlt. split; [discriminate | intros; lra].
Qed.

(** X16 at a concrete input: a container 400 wide and the draws 1/2, 1/2,
    1/2, 1/10: the pet starts at 200, with multiplier 1, and faces its
    target at 51.6. *)
Lemma new_pet_ranges_witness :
  let e := Examples.env_of (Examples.pet_box 64 0) [1 # 2; 1 # 2; 1 # 2; 1 # 10] in
  exists c e',
    new 0 400 None e = Some (c, e')
    /\ x c == 200 /\ speedMultiplier c == 1 /\ direction c = Backward
    /\ 50 <= x c /\ x c <= 400 - 50.
Proof.
  intros e.
  destruct (new 0 400 None e) as [[c e'] |] eqn:H; [| vm_compute in H; discriminate].
  assert (Hunit : Forall unit_draw (random e)).
  { repeat constructor; vm_compute; discriminate || reflexivity. }
  destruct (new_pet_ranges 0 400 None e c e' Hunit H)
    as (_ & _ & _ & _ & _ & _ & _ & _ & _ & _ & _ & Hdrawn & _).
  destruct (Hdrawn eq_refl ltac:(vm_compute; discriminate)) as [Hlo Hhi].
  exists c, e'. split; [reflexivity |].
  vm_compute in H. injection H as <- _.
  split; [reflexivity |]. split; [reflexivity |]. split; [reflexivity |]. by split.
Defined.

Lemma destroy_eq c e :
  destroy c e
  = Some (tt, update_element (element c) (Dom.set_attached false)
                (update_element (element c) (Dom.classList_remove "walking") e)).
Proof. unfold destroy, stop, bind, modify, ret. by destruct (animationFrameId c). Qed.

Lemma not_walking_after_remove el :
  Dom.classList_contains "walking" (Dom.classList_remove "walking" el) = false.
Proof.
  unfold Dom.classList_contains, Dom.classList_remove. simpl.
  apply bool_decide_eq_false. intros Hin.
  apply elem_of_difference in Hin as [_ Hin]. apply Hin. by apply elem_of_singleton.
Qed.

(** What [destroy] does to the document: the element of the pet is
    detached and not walking, an element that was so stays so, and no other
    element is written. *)
Lemma destroy_env c e :
  let e' := update_element (element c) (Dom.set_attached false)
              (update_element (element c) (Dom.classList_remove "walking") e) in
  random e' = random e
  /\ Dom.attached (element_at (element c) e') = false
  /\ Dom.classList_contains "walking" (element_at (element c) e') = false
  /\ (forall h, h <> element c -> element_at h e' = element_at h e)
  /\ (forall h, Dom.attached (element_at h e) = false ->
                Dom.attached (element_at h e') = false)
  /\ (forall h, Dom.classList_contains "walking" (element_at h e) = false ->
                Dom.classList_contains "walking" (element_at h e') = false).
Proof.
  intros e'. unfold e'. split; [reflexivity |].
  split; [by rewrite element_at_update_eq |].
  split.
  { rewrite !element_at_update_eq. apply not_walking_after_remove. }
  split.
  { intros h Hne. rewrite !element_at_update_ne by congruence. reflexivity. }
  split; intros h Hh; destruct (decide (h = element c)) as [-> | Hne].
  - by rewrite element_at_update_eq.
  - by rewrite !element_at_update_ne by congruence.
  - rewrite !element_at_update_eq. apply not_walking_after_remove.
  - by rewrite !element_at_update_ne by congruence.
Qed.

End LifecycleProperties.

Section RemovalProperties.
Import Runtime Props.
Import MultiPetManager.

Implicit Types (cs : list (string * PetController.t)).

Lemma JsMap_get_delete_eq (id : string) cs : JsMap.get id (JsMap.delete id cs) = None.
Proof.
  apply JsMap_get_None_keys. rewrite JsMap_keys_delete. tauto.
Qed.

(** X17.  [removePet] always returns and draws no random number.  For an id
    that is not stored it changes nothing.  For a stored pet the id is no
    longer stored afterwards, the element of the pet has left the document
    and no longer carries the class [walking], no other element is written,
    and every other pet is stored as before. *)
Theorem removePet_detaches (petId : string) (m : t) (e : Env) :
  exists m' e',
    removePet petId m e = Some (m', e')
    /\ random e' = random e
    /\ JsMap.get petId (controllers m') = None
    /\ (forall id, id <> petId ->
          JsMap.get id (controllers m') = JsMap.get id (controllers m))
    /\ (JsMap.get petId (controllers m) = None -> m' = m /\ e' = e)
    /\ (forall c, JsMap.get petId (controllers m) = Some c ->
          Dom.attached (element_at (PetController.element c) e') = false
          /\ Dom.classList_contains "walking"
               (element_at (PetController.element c) e') = false
          /\ forall h, h <> PetController.element c -> element_at h e' = element_at h e).
Proof.
  unfold removePet. destruct (JsMap.get petId (controllers m)) as [c |] eqn:Hget.
  - unfold bind. rewrite destroy_eq. unfold ret.
    destruct (destroy_env c e) as (Htape & Hgone & Hstill & Hframe & _).
    eexists _, _. split; [reflexivity |]. split; [exact Htape |].
    split; [simpl; apply JsMap_get_delete_eq |].
    split; [intros id Hne; simpl; by apply JsMap_get_delete_ne |].
    split; [discriminate |]. intros c0 [= <-]. by repeat split.
  - exists m, e. do 2 (split; [reflexivity |]). split; [exact Hget |].
    split; [reflexivity |]. split; [by split | discriminate].
Qed.

Lemma JsMap_get_In (id : string) cs (c : PetController.t) :
  JsMap.get id cs = Some c -> In (id, c) cs.
Proof.
  unfold JsMap.get. destruct (find _ cs) as [[k v] |] eqn:Hfind; [| discriminate].
  intros [= <-]. apply find_some in Hfind as [Hin Hk]. simpl in Hk.
  apply String.eqb_eq in Hk as <-. exact Hin.
Qed.

Lemma bind_eq {A B : Type} (m : M A) (k : A -> M B) e a e1 :
  m e = Some (a, e1) -> bind m k e = k a e1.
Proof. unfold bind. by intros ->. Qed.

Lemma forEachController_cons body k c cs e :
  forEachController body ((k, c) :: cs) e
  = match body c e with
    | Some (c', e1) =>
        match forEachController body cs e1 with
        | Some (cs', e') => Some ((k, c') :: cs', e')
        | None => None
        end
    | None => None
    end.
Proof.
  simpl. unfold bind. destruct (body c e) as [[c' e1] |]; [| reflexivity].
  by destruct (forEachController body cs e1) as [[cs' e'] |].
Qed.

(** The loop of [clear]. *)
Lemma clear_loop cs e :
  exists cs' e',
    forEachController
      (fun controller => run PetController.destroy controller; ret controller) cs e
    = Some (cs', e')
    /\ random e' = random e
    /\ (forall h, Dom.attached (element_at h e) = false ->
                  Dom.attached (element_at h e') = false)
    /\ (forall h, Dom.classList_contains "walking" (element_at h e) = false ->
                  Dom.classList_contains "walking" (element_at h e') = false)
    /\ (forall id c, In (id, c) cs ->
          Dom.attached (element_at (PetController.element c) e') = false
          /\ Dom.classList_contains "walking"
               (element_at (PetController.element c) e') = false)
    /\ (forall h, (forall id c, In (id, c) cs -> PetController.element c <> h) ->
                  element_at h e' = element_at h e).
Proof.
  revert e. induction cs as [| [k c] cs IH]; intros e.
  - exists [], e. split; [reflexivity |]. split; [reflexivity |].
    split; [auto |]. split; [auto |]. split; [intros id c [] | reflexivity].
  - destruct (destroy_env c e) as (Htape1 & Hgone1 & Hstill1 & Hframe1 & Hatt1 & Hwalk1).
    set (e1 := update_element _ _ _) in *.
    destruct (IH e1) as (cs' & e' & Hloop & Htape & Hatt & Hwalk & Hall & Hframe).
    exists ((k, c) :: cs'), e'. split.
    { rewrite forEachController_cons.
      assert (Hbody : (run PetController.destroy c; ret c) e = Some (c, e1))
        by (unfold bind; by rewrite destroy_eq).
      by rewrite Hbody, Hloop. }
    split; [congruence |].
    split; [auto |]. split; [auto |]. split.
    + intros id c0 [[= <- <-] | Hin]; [split; auto | by apply (Hall id)].
    + intros h Hother. rewrite Hframe.
      * apply Hframe1. intros ->. apply (Hother k c); [by left | reflexivity].
      * intros id c0 Hin. apply (Hother id). by right.
Qed.

(** X18.  [clear] (and [destroy] of the manager, which only calls it) always
    returns, draws no random number and leaves an empty registry: the
    element of every pet that was stored has left the document and no
    longer carries the class [walking], and no element that belongs to no
    stored pet is written.  The container width is kept. *)
Theorem clear_detaches_all (m : t) (e : Env) :
  exists m' e',
    clear m e = Some (m', e')
    /\ destroy m e = Some (m', e')
    /\ controllers m' = []
    /\ getPetCount m' = 0%nat
    /\ containerWidth m' = containerWidth m
    /\ random e' = random e
    /\ (forall id c, JsMap.get id (controllers m) = Some c ->
          Dom.attached (element_at (PetController.element c) e') = false
          /\ Dom.classList_contains "walking"
               (element_at (PetController.element c) e') = false)
    /\ (forall h, (forall id c, In (id, c) (controllers m) -> PetController.element c <> h) ->
                  element_at h e' = element_at h e).
Proof.
  destruct (clear_loop (controllers m) e) as (cs' & e' & Hloop & Htape & _ & _ & Hall & Hframe).
  exists (set_controllers [] m), e'.
  assert (Hclear : clear m e = Some (set_controllers [] m, e')).
  { unfold clear. by rewrite (bind_eq _ _ _ _ _ Hloop). }
  split; [exact Hclear |]. split; [exact Hclear |].
  do 3 (split; [reflexivity |]). split; [exact Htape |].
  split; [| exact Hframe].
  intros id c Hget. apply (Hall id). by apply JsMap_get_In.
Qed.

End RemovalProperties.

Section ScheduleProperties.
Import Runtime Props.
Import PetController.

Lemma frameCount_pickNewTarget c e c' e' :
  pickNewTarget c e = Some (c', e') -> frameCount e' = frameCount e.
Proof.
  intros H. by destruct (pickNewTarget_inv _ _ _ _ H) as (target & rest & _ & _ & ->).
Qed.

Lemma frameCount_startResting c e c' e' :
  startResting c e = Some (c', e') -> frameCount e' = frameCount e.
Proof.
  intros H. by destruct (startResting_inv _ _ _ _ H) as (r & rest & _ & _ & ->).
Qed.

Lemma frameCount_rest_and_retarget c e c' e' :
  (do c <- startResting c; pickNewTarget c) e = Some (c', e') ->
  frameCount e' = frameCount e.
Proof.
  intros H. apply bind_Some in H as (c1 & e1 & Hrest & Hpick).
  rewrite (frameCount_pickNewTarget _ _ _ _ Hpick).
  apply (frameCount_startResting _ _ _ _ Hrest).
Qed.

(** Every tick ends with one frame request, and makes no other. *)
Lemma animate_requests_frame c e c' e' :
  animate c e = Some (c', e') ->
  animationFrameId c' = Some (S (frameCount e)) /\ frameCount e' = S (frameCount e).
Proof.
  intros H. unfold animate in H.
  destruct (isEgg c). { injection H as <- <-. by split. }
  apply bind_Some in H as (c1 & e1 & H & Hraf).
  unfold requestAnimationFrame, bind, ret in Hraf. injection Hraf as <- <-. simpl.
  assert (Hcount : frameCount e1 = frameCount e); [| by rewrite Hcount].
  destruct (negb (isPaused c) && isMovementEnabled c); [| by injection H as <- <-].
  apply bind_Some in H as (now & e0 & Hnow & H).
  unfold Date_now, gets in Hnow. injection Hnow as <- <-.
  destruct (isResting c).
  - destruct (Qle_bool _ _); [| by injection H as <- <-].
    apply bind_Some in H as (c2 & e2 & Hpick & H).
    unfold bind, modify, ret in H. injection H as <- <-.
    apply (frameCount_pickNewTarget _ _ _ _ Hpick).
  - apply bind_Some in H as (pw & e0' & Hpw & H).
    unfold gets in Hpw. injection Hpw as <- <-.
    apply bind_Some in H as (c2 & e2 & Hedge & H).
    apply bind_Some in H as (c3 & e3 & Hdist & H).
    unfold updatePosition, bind, modify, ret in H. injection H as <- <-.
    assert (H2 : frameCount e2 = frameCount e).
    { destruct (Qle_bool _ 10); [by apply frameCount_rest_and_retarget in Hedge |].
      destruct (Qle_bool _ _); [by apply frameCount_rest_and_retarget in Hedge |].
      by injection Hedge as <- <-. }
    assert (H3 : frameCount e3 = frameCount e2).
    { destruct (Qltb _ _); [by apply frameCount_startResting in Hdist |].
      by injection Hdist as <- <-. }
    simpl. congruence.
Qed.

(** X19.  [start] runs the first tick at once and is idempotent: after it
    has returned a frame request is pending, exactly one was made when none
    was pending before, and a second [start] changes nothing and requests
    nothing.  [stop] then clears the request, removes the class [walking]
    and moves nothing, so that the next [start] ticks again. *)
Theorem start_is_idempotent (c : t) (e : Env) (c' : t) (e' : Env) :
  start c e = Some (c', e') ->
  animationFrameId c' <> None
  /\ start c' e' = Some (c', e')
  /\ (animationFrameId c = None ->
      frameCount e' = S (frameCount e) /\ animationFrameId c' = Some (frameCount e'))
  /\ (animationFrameId c <> None -> c' = c /\ e' = e)
  /\ exists e2,
       stop c' e' = Some (set_animationFrameId None c', e2)
       /\ random e2 = random e'
       /\ Dom.classList_contains "walking" (element_at (element c') e2) = false
       /\ start (set_animationFrameId None c') e2
          = (run modify (update_element (element c') (Dom.classList_add "walking"));
             animate (set_animationFrameId None c')) e2.
Proof.
  intros H.
  assert (Hid : exists id, animationFrameId c' = Some id
                           /\ (animationFrameId c = None ->
                               frameCount e' = S (frameCount e) /\ id = frameCount e')
                           /\ (animationFrameId c <> None -> c' = c /\ e' = e)).
  { unfold start in H. destruct (animationFrameId c) as [id |] eqn:Hc.
    - injection H as <- <-. exists id. split; [exact Hc |]. split; [discriminate | by split].
    - apply bind_Some in H as ([] & e1 & Hw & H).
      unfold modify in Hw. injection Hw as <-.
      destruct (animate_requests_frame _ _ _ _ H) as [Hid Hcount].
      exists (S (frameCount e)). split; [exact Hid |].
      split; [intros _; split; [exact Hcount | by rewrite Hcount] | congruence]. }
  destruct Hid as (id & Hid & Hnew & Hold).
  split; [congruence |]. split; [unfold start; by rewrite Hid |].
  split; [intros Hnone; destruct (Hnew Hnone) as [? ->]; by split |].
  split; [exact Hold |].
  unfold stop. rewrite Hid. unfold bind, modify, ret. simpl.
  eexists. split; [reflexivity |]. split; [reflexivity |].
  split; [rewrite element_at_update_eq; apply not_walking_after_remove | reflexivity].
Qed.

(** X19 at a concrete input: a pet that was never started, at 50 and
    walking towards 200: the first [start] moves it to 51 and makes frame
    request 2; the second changes nothing. *)
Lemma start_is_idempotent_witness :
  let c := set_animationFrameId None (Examples.pet "stage1" 400 50 Forward 200) in
  let e := Examples.env_of (Examples.pet_box 64 50) [] in
  exists c' e',
    start c e = Some (c', e')
    /\ x c' == 51
    /\ animationFrameId c' = Some 2%nat
    /\ start c' e' = Some (c', e').
Proof.
  intros c e.
  destruct (start c e) as [[c' e'] |] eqn:H; [| vm_compute in H; discriminate].
  destruct (start_is_idempotent c e c' e' H) as (_ & Hagain & _).
  exists c', e'. split; [reflexivity |].
  split; [| split; [| exact Hagain]]; vm_compute in H; injection H as <- _; reflexivity.
Defined.

(** The tick of a pet that is paused or has its movement switched off. *)
Lemma animate_idle_eq c e :
  isPaused c = true \/ isMovementEnabled c = false ->
  animate c e = Some (set_animationFrameId (Some (S (frameCount e))) c,
                      set_frameCount (S (frameCount e)) e).
Proof.
  intros Hidle. unfold animate. destruct (isEgg c); [reflexivity |].
  assert (Hoff : negb (isPaused c) && isMovementEnabled c = false).
  { destruct Hidle as [-> | ->]; [reflexivity | apply andb_false_r]. }
  by rewrite Hoff.
Qed.

(** X20.  A pet that is paused, or whose movement is switched off, holds
    still over any number of animation frames: the frames always return,
    draw no random number and write nothing to the document; the controller
    changes in its frame request only, and each frame makes one request. *)
Theorem idle_pets_hold_still (times : list Q) (c : t) (e : Env) :
  isPaused c = true \/ isMovementEnabled c = false ->
  exists c' e',
    ticks times c e = Some (c', e')
    /\ c' = set_animationFrameId (animationFrameId c') c
    /\ x c' = x c
    /\ dom e' = dom e
    /\ random e' = random e
    /\ frameCount e' = (frameCount e + length times)%nat.
Proof.
  revert c e. induction times as [| now times IH]; intros c e Hidle.
  - exists c, e. split; [reflexivity |]. split; [by destruct c |].
    split; [reflexivity |]. split; [reflexivity |]. split; [reflexivity |]. simpl. lia.
  - simpl. unfold bind at 1. unfold modify. unfold bind at 1.
    rewrite animate_idle_eq by exact Hidle.
    destruct (IH (set_animationFrameId (Some (S (frameCount (set_clock now e)))) c)
                 (set_frameCount (S (frameCount (set_clock now e))) (set_clock now e))
                 Hidle)
      as (c' & e' & Hticks & Hc' & Hx & Hdom & Htape & Hcount).
    exists c', e'. split; [exact Hticks |]. split; [by rewrite Hc' at 1 |].
    split; [exact Hx |]. split; [exact Hdom |]. split; [exact Htape |].
    rewrite Hcount. simpl. lia.
Qed.

(** X20 at a concrete input: a paused pet at 50 is still at 50 after three
    frames, and three frame requests were made. *)
Lemma idle_pets_hold_still_witness :
  let c := set_isPaused true (Examples.pet "stage1" 400 50 Forward 200) in
  let e := Examples.env_of (Examples.pet_box 64 50) [] in
  exists c' e',
    ticks [0; 16; 32] c e = Some (c', e')
    /\ x c' = x c /\ frameCount e' = 4%nat.
Proof.
  intros c e.
  destruct (idle_pets_hold_still [0; 16; 32] c e (or_introl eq_refl))
    as (c' & e' & Hticks & _ & Hx & _ & _ & Hcount).
  exists c', e'. split; [exact Hticks |]. split; [exact Hx | exact Hcount].
Defined.

End ScheduleProperties.

Section DragReleaseProperties.
Import Runtime Interaction Props.




End DragReleaseProperties.

(** * Starting and stopping every pet *)

Section FleetProperties.
Import Runtime Props.
Import MultiPetManager.

Implicit Types (cs : list (string * PetController.t)).

Lemma stop_eq c e :
  PetController.stop c e
  = Some (PetController.set_animationFrameId None c,
          update_element (PetController.element c) (Dom.classList_remove "walking") e).
Proof.
  unfold PetController.stop, bind, modify, ret.
  destruct (PetController.animationFrameId c) eqn:Hid; [reflexivity |].
  destruct c. simpl in *. by subst.
Qed.

Lemma start_requests_frame c e c' e' :
  PetController.start c e = Some (c', e') ->
  PetController.animationFrameId c' <> None.
Proof.
  unfold PetController.start.
  destruct (PetController.animationFrameId c) as [id |] eqn:Hid.
  - intros [= <- <-]. congruence.
  - intros H. apply bind_Some in H as ([] & e1 & _ & H).
    destruct (animate_requests_frame _ _ _ _ H) as [Hc' _]. congruence.
Qed.

(** The loop of [stopAll]. *)
Lemma stopAll_loop cs e :
  exists e',
    forEachController PetController.stop cs e
    = Some (List.map (fun kc => (fst kc, PetController.set_animationFrameId None (snd kc))) cs,
            e')
    /\ random e' = random e
    /\ (forall h, Dom.classList_contains "walking" (element_at h e) = false ->
                  Dom.classList_contains "walking" (element_at h e') = false)
    /\ (forall id c, In (id, c) cs ->
          Dom.classList_contains "walking"
            (element_at (PetController.element c) e') = false)
    /\ (forall h, Dom.styleLeft (element_at h e') = Dom.styleLeft (element_at h e)).
Proof.
  revert e. induction cs as [| [k c] cs IH]; intros e.
  - exists e. split; [reflexivity |]. split; [reflexivity |].
    split; [auto |]. split; [intros id c [] | reflexivity].
  - set (e1 := update_element (PetController.element c)
                 (Dom.classList_remove "walking") e).
    destruct (IH e1) as (e' & Hloop & Htape & Hwalk & Hall & Hleft).
    assert (Hwalk1 : forall h, Dom.classList_contains "walking" (element_at h e) = false ->
                               Dom.classList_contains "walking" (element_at h e1) = false).
    { intros h Hh. unfold e1.
      destruct (decide (h = PetController.element c)) as [-> | Hne].
      - rewrite element_at_update_eq. apply not_walking_after_remove.
      - by rewrite element_at_update_ne by congruence. }
    exists e'. split.
    { rewrite forEachController_cons, stop_eq. fold e1. by rewrite Hloop. }
    split; [exact Htape |]. split; [auto |]. split.
    + intros id c0 [[= <- <-] | Hin]; [| by apply (Hall id)].
      apply Hwalk. unfold e1. rewrite element_at_update_eq.
      apply not_walking_after_remove.
    + intros h. rewrite Hleft. unfold e1.
      destruct (decide (h = PetController.element c)) as [-> | Hne].
      * by rewrite element_at_update_eq.
      * by rewrite element_at_update_ne by congruence.
Qed.

Lemma JsMap_get_map (f : PetController.t -> PetController.t) id cs :
  JsMap.get id (List.map (fun kc => (fst kc, f (snd kc))) cs)
  = option_map f (JsMap.get id cs).
Proof.
  unfold JsMap.get. induction cs as [| [k c] cs IH]; [reflexivity |].
  simpl. destruct (String.eqb k id); [reflexivity | exact IH].
Qed.

(** The loop of [startAll]. *)
Lemma startAll_loop cs e cs' e' :
  forEachController PetController.start cs e = Some (cs', e') ->
  JsMap.keys cs' = JsMap.keys cs
  /\ forall id c', In (id, c') cs' -> PetController.animationFrameId c' <> None.
Proof.
  revert e cs'. induction cs as [| [k c] cs IH]; intros e cs' H.
  - injection H as <- <-. split; [reflexivity | intros id c' []].
  - rewrite forEachController_cons in H.
    destruct (PetController.start c e) as [[c1 e1] |] eqn:Hstart; [| discriminate].
    destruct (forEachController PetController.start cs e1) as [[cs1 e2] |] eqn:Hrest;
      [| discriminate].
    injection H as <- <-. destruct (IH _ _ Hrest) as [Hkeys Hall].
    split; [simpl; by rewrite Hkeys |].
    intros id c' [[= <- <-] | Hin]; [by eapply start_requests_frame | by apply (Hall id)].
Qed.

(** X30.  [stopAll] always returns and draws no random number: every
    stored pet is stored as before except that it has no pending frame
    request, no pet element carries the class [walking], and no inline
    [left] changes.  When [startAll] returns, the same ids are stored in the
    same order and every stored pet has a pending frame request. *)
Theorem stopAll_startAll (m : t) (e : Env) :
  (exists m' e',
     stopAll m e = Some (m', e')
     /\ random e' = random e
     /\ JsMap.keys (controllers m') = JsMap.keys (controllers m)
     /\ (forall id, JsMap.get id (controllers m')
                    = option_map (PetController.set_animationFrameId None)
                        (JsMap.get id (controllers m)))
     /\ (forall id c, JsMap.get id (controllers m) = Some c ->
           Dom.classList_contains "walking"
             (element_at (PetController.element c) e') = false)
     /\ (forall h, Dom.styleLeft (element_at h e') = Dom.styleLeft (element_at h e)))
  /\ (forall m' e',
        startAll m e = Some (m', e') ->
        JsMap.keys (controllers m') = JsMap.keys (controllers m)
        /\ forall id c', JsMap.get id (controllers m') = Some c' ->
                         PetController.animationFrameId c' <> None).
Proof.
  split.
  - destruct (stopAll_loop (controllers m) e) as (e' & Hloop & Htape & _ & Hall & Hleft).
    eexists _, e'. split; [unfold stopAll; by rewrite (bind_eq _ _ _ _ _ Hloop) |].
    split; [exact Htape |]. simpl. split.
    { unfold JsMap.keys. rewrite map_map. reflexivity. }
    split; [intros id; apply JsMap_get_map |]. split; [| exact Hleft].
    intros id c Hget. apply (Hall id). by apply JsMap_get_In.
  - intros m' e' H. unfold startAll in H.
    apply bind_Some in H as (cs' & e1 & Hloop & H). injection H as <- <-.
    destruct (startAll_loop _ _ _ _ Hloop) as [Hkeys Hall].
    split; [exact Hkeys |]. intros id c' Hget. apply (Hall id). by apply JsMap_get_In.
Qed.

(** X30 at a concrete input: the window with one walking pet; after
    [stopAll] the pet has no frame request, and [startAll] gives it one
    again. *)
Lemma stopAll_startAll_witness :
  let e := Examples.env_of (Examples.pet_box 64 50) [] in
  exists m1 e1 m2 e2 c2,
    stopAll Examples.one_pet e = Some (m1, e1)
    /\ JsMap.get "a" (controllers m1)
       = Some (PetController.set_animationFrameId None
                 (Examples.pet "stage1" 300 50 PetController.Forward 200))
    /\ startAll m1 e1 = Some (m2, e2)
    /\ JsMap.get "a" (controllers m2) = Some c2
    /\ PetController.animationFrameId c2 <> None.
Proof.
  intros e.
  destruct (stopAll_startAll Examples.one_pet e)
    as [(m1 & e1 & Hstop & _ & _ & Hget1 & _) _].
  destruct (startAll m1 e1) as [[m2 e2] |] eqn:Hstart.
  - destruct (stopAll_startAll m1 e1) as [_ Hstarted].
    destruct (Hstarted m2 e2 Hstart) as [Hkeys Hall].
    assert (Hin : In "a"%string (JsMap.keys (controllers m2))).
    { rewrite Hkeys. unfold stopAll in Hstop. vm_compute in Hstop.
      injection Hstop as <- _. by left. }
    apply JsMap_has_keys, JsMap_has_get in Hin as [c2 Hget2].
    exists m1, e1, m2, e2, c2. split; [exact Hstop |].
    split; [by rewrite Hget1 |]. split; [exact Hstart |]. split; [exact Hget2 |].
    by apply (Hall "a"%string).
  - exfalso. vm_compute in Hstop. injection Hstop as <- <-.
    vm_compute in Hstart. discriminate.
Defined.

End FleetProperties.

(** * Properties of the request limiter *)

(** Case analysis on every test of the goal. *)
Ltac split_tests :=
  repeat match goal with
         | |- context [if ?b then _ else _] => destruct b eqn:?; simpl
         end.

Section PairCodeProperties.
Import RateLimit.
Local Open Scope Z_scope.

Lemma loadData_cached h s d : cachedData s = Some d -> loadData h s = (d, s).
Proof. unfold loadData. by intros ->. Qed.

(** Every operation but verification and reset keeps the data object in the
    cache, and changes the pair-code count only by recording a request. *)
Lemma perform_pairCodeRequests c h s d :
  cachedData s = Some d ->
  exists d',
    cachedData (perform c h s) = Some d'
    /\ pairCodeRequests d'
       = pairCodeRequests d + match c with RecordPairCodeRequest => 1 | _ => 0 end.
Proof.
  intros Hc.
  destruct c; simpl;
    unfold canRequestPairCode, getPairCodeRequestCount, shouldShowPairCodeWarning,
      recordPairCodeRequest, canLogout, recordLogout, canLogin, recordLogin,
      canMakeApiRequest, recordApiRequest, getRateLimitStatus, saveData, assign;
    rewrite (loadData_cached _ _ _ Hc); simpl; split_tests;
    (eexists; split; [first [exact Hc | reflexivity] | simpl; lia]).
Qed.

Lemma performAll_pairCodeRequests l s d :
  cachedData s = Some d ->
  exists d',
    cachedData (performAll l s) = Some d'
    /\ pairCodeRequests d' = pairCodeRequests d + recorded l.
Proof.
  revert s d. induction l as [| [c h] l IH]; intros s d Hc.
  - exists d. split; [exact Hc | unfold recorded; simpl; lia].
  - destruct (perform_pairCodeRequests c h s d Hc) as (d1 & Hc1 & Hn1).
    destruct (IH _ _ Hc1) as (d' & Hc' & Hn').
    exists d'. split; [exact Hc' |]. rewrite Hn', Hn1.
    unfold recorded. simpl. destruct c; simpl; lia.
Qed.

(** A denial of [canRequestPairCode] names a positive waiting time. *)
Lemma canRequestPairCode_denied h s d :
  cachedData s = Some d ->
  MAX_PAIR_CODE_REQUESTS <= pairCodeRequests d ->
  allowed (fst (canRequestPairCode h s)) = false
  /\ exists r, retryAfterMs (fst (canRequestPairCode h s)) = Some r /\ 0 < r.
Proof.
  intros Hc Hmany. unfold canRequestPairCode. rewrite (loadData_cached _ _ _ Hc).
  destruct (truthy (pairCodeBannedUntil d) && _) eqn:Hban; simpl.
  { apply andb_true_iff in Hban as [_ Hlt]. apply Z.ltb_lt in Hlt.
    split; [reflexivity |]. eexists. split; [reflexivity | lia]. }
  destruct (truthy (lastPairCodeRequestTime s) && _) eqn:Hsoon; simpl.
  { apply andb_true_iff in Hsoon as [_ Hlt]. apply Z.ltb_lt in Hlt.
    split; [reflexivity |]. eexists. split; [reflexivity | lia]. }
  apply Z.leb_le in Hmany. rewrite Hmany. simpl.
  split; [reflexivity |]. eexists. split; [reflexivity | reflexivity].
Qed.

(** X22.  The pair-code lockout does not expire.  Over any run of calls
    that neither verify nor reset, at any times and whether or not the store
    works, the count of unverified requests grows by one for each recorded
    request and never shrinks; and once it has reached 5,
    [canRequestPairCode] refuses at every later time, each refusal naming a
    positive waiting time. *)
Theorem pair_code_lockout (l : list (Call * Host)) (h : Host) (s : t)
    (d : RateLimitData) :
  cachedData s = Some d ->
  exists d',
    cachedData (performAll l s) = Some d'
    /\ pairCodeRequests d' = pairCodeRequests d + recorded l
    /\ (5 <= pairCodeRequests d + recorded l ->
        allowed (fst (canRequestPairCode h (performAll l s))) = false
        /\ exists r,
             retryAfterMs (fst (canRequestPairCode h (performAll l s))) = Some r
             /\ 0 < r).
Proof.
  intros Hc. destruct (performAll_pairCodeRequests l s d Hc) as (d' & Hc' & Hn).
  exists d'. split; [exact Hc' |]. split; [exact Hn |].
  intros Hmany. apply (canRequestPairCode_denied h _ d' Hc').
  unfold MAX_PAIR_CODE_REQUESTS. lia.
Qed.

(** X22 at a concrete input: five requests are recorded, half a minute
    apart, while the store is down; ten days later the check still
    refuses. *)
Lemma pair_code_lockout_witness :
  let s := snd (getPairCodeRequestCount (Examples.online 1000) (init None)) in
  let l := [(RecordPairCodeRequest, Examples.offline 1000);
            (RecordPairCodeRequest, Examples.offline 31000);
            (CanRequestPairCode, Examples.offline 61000);
            (RecordPairCodeRequest, Examples.offline 61000);
            (RecordPairCodeRequest, Examples.offline 91000);
            (RecordPairCodeRequest, Examples.offline 121000)] in
  recorded l = 5
  /\ allowed (fst (canRequestPairCode (Examples.online 864000000) (performAll l s)))
     = false.
Proof.
  intros s l. split; [reflexivity |].
  destruct (pair_code_lockout l (Examples.online 864000000) s DEFAULT_RATE_LIMIT_DATA
              eq_refl) as (d' & _ & _ & Hlock).
  destruct Hlock as [Hdenied _]; [vm_compute; discriminate | exact Hdenied].
Defined.

End PairCodeProperties.

Section VerificationProperties.
Import RateLimit.
Local Open Scope Z_scope.

(** X23.  [onVerificationSuccess] lifts a lockout: whatever the state was,
    the count of unverified requests is 0 and the ban is gone afterwards,
    the verification time is recorded, and the logout, login and API
    counters are those of the loaded data.  The time of the last request is
    kept, so the next [canRequestPairCode] is allowed exactly when no
    request was recorded in this session or the last one is at least 30
    seconds old. *)
Theorem verification_lifts_lockout (h h' : Host) (s : t) :
  let d := fst (loadData h s) in
  let s1 := onVerificationSuccess h s in
  cachedData s1 = Some (set_pairCode 0 (Some (now h)) None d)
  /\ lastPairCodeRequestTime s1 = lastPairCodeRequestTime s
  /\ fst (getPairCodeRequestCount h' s1) = 0
  /\ fst (shouldShowPairCodeWarning h' s1) = None
  /\ (allowed (fst (canRequestPairCode h' s1)) = true
      <-> match lastPairCodeRequestTime s with
          | Some last => last = 0 \/ 30000 <= now h' - last
          | None => True
          end).
Proof.
  intros d s1.
  assert (Hc : cachedData s1 = Some (set_pairCode 0 (Some (now h)) None d)).
  { unfold s1, d, onVerificationSuccess, loadData, saveData, assign.
    destruct (cachedData s); simpl; by destruct (saveOk h). }
  assert (Hlast : lastPairCodeRequestTime s1 = lastPairCodeRequestTime s).
  { unfold s1, onVerificationSuccess, loadData, saveData, assign.
    destruct (cachedData s); simpl; by destruct (saveOk h). }
  split; [exact Hc |]. split; [exact Hlast |].
  unfold getPairCodeRequestCount, shouldShowPairCodeWarning, canRequestPairCode.
  rewrite (loadData_cached _ _ _ Hc). simpl.
  split; [reflexivity |]. split; [reflexivity |].
  rewrite Hlast. destruct (lastPairCodeRequestTime s) as [last |]; simpl; [| tauto].
  unfold MIN_PAIR_CODE_REQUEST_INTERVAL_MS.
  destruct (Z.eqb_spec last 0) as [-> | Hne]; simpl; [tauto |].
  destruct (Z.ltb_spec (now h' - last) (30 * 1000)) as [Hlt | Hge]; simpl.
  - split; [discriminate | intros [? | ?]; lia].
  - split; [intros _; right; lia | reflexivity].
Qed.

End VerificationProperties.

Section DailyWindowProperties.
Import RateLimit.
Local Open Scope Z_scope.

(** A logout attempt inside the window that opened at [start]. *)
Lemma logoutAttempt_in_window h s d start :
  cachedData s = Some d ->
  logoutCountStartTime d = Some start -> start <> 0 ->
  now h <= start + DAY_MS ->
  (logoutCount d < 5 ->
   fst (logoutAttempt h s) = true
   /\ exists d', cachedData (snd (logoutAttempt h s)) = Some d'
                 /\ logoutCount d' = logoutCount d + 1
                 /\ logoutCountStartTime d' = Some start)
  /\ (5 <= logoutCount d -> logoutAttempt h s = (false, s)).
Proof.
  intros Hc Hstart Hne Hin.
  assert (Hkeep : (DAY_MS <? now h - start) = false) by (apply Z.ltb_ge; lia).
  assert (Htruthy : truthy (Some start) = true).
  { simpl. apply negb_true_iff. by apply Z.eqb_neq. }
  unfold logoutAttempt, canLogout. rewrite (loadData_cached _ _ _ Hc).
  rewrite Hstart, Htruthy. simpl value. rewrite Hkeep. simpl.
  unfold MAX_LOGOUT_PER_DAY. split.
  - intros Hfew. assert (Hleb : (5 <=? logoutCount d) = false) by (apply Z.leb_gt; lia).
    rewrite Hleb. simpl. split; [reflexivity |].
    unfold recordLogout. rewrite (loadData_cached _ _ _ Hc).
    rewrite Hstart, Htruthy. simpl value. rewrite Hkeep. simpl.
    unfold saveData, assign. destruct (saveOk h); simpl; eexists; by split.
  - intros Hmany. assert (Hleb : (5 <=? logoutCount d) = true) by (by apply Z.leb_le).
    by rewrite Hleb.
Qed.

Lemma outcomes_exhausted (k n : nat) :
  (5 <= k)%nat -> List.map (fun i => (i <? 5)%nat) (seq k n) = List.map (fun i => (i <? 5)%nat) (seq (S k) n).
Proof.
  revert k. induction n as [| n IH]; intros k Hk; [reflexivity |].
  simpl seq. simpl List.map. f_equal.
  - assert (H1 : (k <? 5)%nat = false) by (apply Nat.ltb_ge; lia).
    assert (H2 : (S k <? 5)%nat = false) by (apply Nat.ltb_ge; lia).
    by rewrite H1, H2.
  - apply IH. lia.
Qed.

(** A run of attempts inside one window, from a count of [k]. *)
Lemma logoutAttempts_in_window hs s d start (k : nat) :
  cachedData s = Some d ->
  logoutCountStartTime d = Some start -> start <> 0 ->
  logoutCount d = Z.of_nat k ->
  Forall (fun h => now h <= start + DAY_MS) hs ->
  fst (logoutAttempts hs s) = List.map (fun i => (i <? 5)%nat) (seq k (length hs))
  /\ exists d', cachedData (snd (logoutAttempts hs s)) = Some d'
                /\ logoutCountStartTime d' = Some start.
Proof.
  revert s d k. induction hs as [| h hs IH]; intros s d k Hc Hstart Hne Hk Hall.
  - simpl. split; [reflexivity | eauto].
  - apply Forall_cons_1 in Hall as [Hin Hall].
    destruct (logoutAttempt_in_window h s d start Hc Hstart Hne Hin) as [Hfew Hmany].
    simpl. destruct (logoutAttempt h s) as [ok s1] eqn:Hattempt.
    destruct (logoutAttempts hs s1) as [oks s2] eqn:Hrest. simpl.
    destruct (Z_lt_le_dec (logoutCount d) 5) as [Hlt | Hge].
    + destruct (Hfew Hlt) as [Hok (d1 & Hc1 & Hcount1 & Hstart1)]. simpl in Hok, Hc1.
      destruct (IH s1 d1 (S k) Hc1 Hstart1 Hne ltac:(lia) Hall) as [Houts Hfinal].
      rewrite Hrest in Houts, Hfinal. simpl in Houts, Hfinal.
      split; [| exact Hfinal]. rewrite Hok, Houts.
      assert (Hk5 : (k <? 5)%nat = true) by (apply Nat.ltb_lt; lia).
      by rewrite Hk5.
    + pose proof (Hmany Hge) as Hsame. injection Hsame as -> ->.
      destruct (IH s d k Hc Hstart Hne Hk Hall) as [Houts Hfinal].
      rewrite Hrest in Houts, Hfinal. simpl in Houts, Hfinal.
      split; [| exact Hfinal]. rewrite Houts.
      assert (Hk5 : (k <? 5)%nat = false) by (apply Nat.ltb_ge; lia).
      rewrite Hk5. f_equal. apply outcomes_exhausted. lia.
Qed.

(** X24.  At most five logouts per window of 24 hours.  From a state
    without logouts, a run of logout attempts (the check, then the record
    when the check allows it) that all fall within 24 hours of the first
    one: the first five attempts pass and every later one is refused,
    whatever the store does.  The window is the one the first logout opened;
    an attempt later than 24 hours after it passes again. *)
Theorem logout_window (h0 : Host) (hs : list Host) (s : t) (d : RateLimitData) :
  cachedData s = Some d ->
  logoutCount d = 0 ->
  logoutCountStartTime d = None ->
  now h0 <> 0 ->
  Forall (fun h => now h <= now h0 + DAY_MS) hs ->
  fst (logoutAttempts (h0 :: hs) s)
  = List.map (fun i => (i <? 5)%nat) (seq 0 (S (length hs)))
  /\ forall h, now h0 + DAY_MS < now h ->
               fst (logoutAttempt h (snd (logoutAttempts (h0 :: hs) s))) = true.
Proof.
  intros Hc Hcount Hstart Hne Hall.
  assert (Hfirst : fst (logoutAttempt h0 s) = true
                   /\ exists d1, cachedData (snd (logoutAttempt h0 s)) = Some d1
                                 /\ logoutCount d1 = 1
                                 /\ logoutCountStartTime d1 = Some (now h0)).
  { unfold logoutAttempt, canLogout. rewrite (loadData_cached _ _ _ Hc).
    rewrite Hstart. simpl. rewrite Hcount. simpl. split; [reflexivity |].
    unfold recordLogout. rewrite (loadData_cached _ _ _ Hc). rewrite Hstart. simpl.
    unfold saveData, assign. destruct (saveOk h0); simpl; eexists; by split. }
  destruct Hfirst as [Hok (d1 & Hc1 & Hcount1 & Hstart1)].
  simpl. destruct (logoutAttempt h0 s) as [ok s1] eqn:Hattempt. simpl in Hok, Hc1.
  destruct (logoutAttempts_in_window hs s1 d1 (now h0) 1 Hc1 Hstart1 Hne Hcount1 Hall)
    as [Houts (d2 & Hc2 & Hstart2)].
  destruct (logoutAttempts hs s1) as [oks s2] eqn:Hrest. simpl in *.
  split; [by rewrite Hok, Houts |].
  intros h Hlate.
  assert (Hreset : (DAY_MS <? now h - now h0) = true) by (apply Z.ltb_lt; lia).
  assert (Htruthy : negb (now h0 =? 0) = true).
  { apply negb_true_iff. by apply Z.eqb_neq. }
  unfold logoutAttempt, canLogout. rewrite (loadData_cached _ _ _ Hc2).
  rewrite Hstart2. simpl. rewrite Htruthy, Hreset. simpl.
  unfold saveData, assign. by destruct (saveOk h).
Qed.

(** X24 at a concrete input: seven attempts within one hour; the first five
    pass. *)
Lemma logout_window_witness :
  let s := snd (getPairCodeRequestCount (Examples.online 1000) (init None)) in
  let hs := [Examples.online 2000; Examples.offline 3000; Examples.online 4000;
             Examples.online 5000; Examples.online 6000; Examples.online 3600000] in
  fst (logoutAttempts (Examples.online 1000 :: hs) s)
  = [true; true; true; true; true; false; false].
Proof.
  intros s hs.
  destruct (logout_window (Examples.online 1000) hs s DEFAULT_RATE_LIMIT_DATA
              eq_refl eq_refl eq_refl ltac:(discriminate)) as [Houts _].
  - repeat constructor; vm_compute; discriminate.
  - exact Houts.
Defined.

(** X25.  The login limit at the edge of its window.  With 10 or more logins
    counted since [start]: up to and including 24 hours after [start] the
    check refuses and changes nothing, and the waiting time it names is what
    is left of the 24 hours, which is 0 at exactly 24 hours; later than
    that the check passes and clears the counter, and the next recorded
    login opens a new window with a count of 1. *)
Theorem login_limit_boundary (h : Host) (s : t) (d : RateLimitData) (start : Z) :
  cachedData s = Some d ->
  loginCountStartTime d = Some start ->
  start <> 0 ->
  10 <= loginCount d ->
  (now h <= start + DAY_MS ->
   allowed (fst (canLogin h s)) = false
   /\ retryAfterMs (fst (canLogin h s)) = Some (DAY_MS - (now h - start))
   /\ snd (canLogin h s) = s)
  /\ (now h = start + DAY_MS -> retryAfterMs (fst (canLogin h s)) = Some 0)
  /\ (start + DAY_MS < now h ->
      allowed (fst (canLogin h s)) = true
      /\ cachedData (snd (canLogin h s)) = Some (set_login 0 None d)
      /\ cachedData (recordLogin h (snd (canLogin h s)))
         = Some (set_login 1 (Some (now h)) d)).
Proof.
  intros Hc Hstart Hne Hmany.
  assert (Htruthy : negb (start =? 0) = true).
  { apply negb_true_iff. by apply Z.eqb_neq. }
  assert (Hleb : (MAX_LOGIN_PER_DAY <=? loginCount d) = true) by (by apply Z.leb_le).
  assert (Hin : now h <= start + DAY_MS ->
                canLogin h s
                = (deny (LoginLimit (ceilDiv (DAY_MS - (now h - start)) (60 * 60 * 1000)))
                     (DAY_MS - (now h - start)), s)).
  { intros Hle. assert (Hkeep : (DAY_MS <? now h - start) = false) by (apply Z.ltb_ge; lia).
    unfold canLogin. rewrite (loadData_cached _ _ _ Hc), Hstart. simpl.
    rewrite Htruthy, Hkeep. simpl. rewrite Hleb, Hstart. simpl. by rewrite Htruthy. }
  split; [intros Hle; rewrite (Hin Hle); simpl; by repeat split |].
  split.
  { intros Hedge. rewrite Hin by lia. simpl. f_equal. lia. }
  intros Hlate. assert (Hreset : (DAY_MS <? now h - start) = true) by (apply Z.ltb_lt; lia).
  unfold canLogin. rewrite (loadData_cached _ _ _ Hc), Hstart. simpl.
  rewrite Htruthy, Hreset. simpl.
  unfold recordLogin, saveData, assign, loadData. destruct (saveOk h); simpl; by repeat split.
Qed.

(** X25 at a concrete input: ten logins counted since time 1000; exactly 24
    hours later the check refuses with a waiting time of 0, one millisecond
    later it passes. *)
Lemma login_limit_boundary_witness :
  let d := set_login 10 (Some 1000) DEFAULT_RATE_LIMIT_DATA in
  let s := {| cachedData := Some d; lastPairCodeRequestTime := None; stored := None |} in
  fst (canLogin (Examples.online 86401000) s)
  = deny (LoginLimit 0) 0
  /\ allowed (fst (canLogin (Examples.online 86401001) s)) = true.
Proof.
  intros d s.
  destruct (login_limit_boundary (Examples.online 86401000) s d 1000
              eq_refl eq_refl ltac:(discriminate) ltac:(vm_compute; discriminate))
    as (_ & Hedge & _).
  destruct (login_limit_boundary (Examples.online 86401001) s d 1000
              eq_refl eq_refl ltac:(discriminate) ltac:(vm_compute; discriminate))
    as (_ & _ & Hlate).
  destruct (Hlate ltac:(vm_compute; reflexivity)) as [Hallowed _].
  split; [reflexivity | exact Hallowed].
Defined.

End DailyWindowProperties.

Section StoreProperties.
Import RateLimit.
Local Open Scope Z_scope.

(** X26.  The interval between API requests.  After [recordApiRequest] at a
    time other than 0, [canMakeApiRequest] passes exactly when at least
    1000 milliseconds have gone by; before that it refuses and names what is
    left of the 1000 milliseconds, which is more than 0.  The check itself
    changes nothing, so asking again does not prolong the wait. *)
Theorem api_request_interval (h0 h : Host) (s : t) :
  now h0 <> 0 ->
  let s1 := recordApiRequest h0 s in
  (allowed (fst (canMakeApiRequest h s1)) = true <-> 1000 <= now h - now h0)
  /\ (now h - now h0 < 1000 ->
      retryAfterMs (fst (canMakeApiRequest h s1)) = Some (1000 - (now h - now h0))
      /\ reason (fst (canMakeApiRequest h s1)) = Some ApiTooFrequent)
  /\ snd (canMakeApiRequest h s1) = s1.
Proof.
  intros Hne s1.
  assert (Hc : exists d1, cachedData s1 = Some d1 /\ lastApiRequestTime d1 = Some (now h0)).
  { unfold s1, recordApiRequest, loadData, saveData, assign.
    destruct (cachedData s); simpl; destruct (saveOk h0); simpl; eexists; by split. }
  destruct Hc as (d1 & Hc & Hlast).
  assert (Htruthy : negb (now h0 =? 0) = true).
  { apply negb_true_iff. by apply Z.eqb_neq. }
  unfold canMakeApiRequest. rewrite (loadData_cached _ _ _ Hc), Hlast. simpl.
  rewrite Htruthy. simpl. unfold MIN_API_REQUEST_INTERVAL_MS.
  destruct (Z.ltb_spec (now h - now h0) 1000) as [Hlt | Hge]; simpl.
  - split; [split; [discriminate | lia] |]. split; [by split | reflexivity].
  - split; [split; [lia | reflexivity] |]. split; [lia | reflexivity].
Qed.

(** X26 at a concrete input: a request recorded at 5000; the check refuses
    at 5400 with 600 milliseconds to wait, and passes at 6000. *)
Lemma api_request_interval_witness :
  let s1 := recordApiRequest (Examples.online 5000) (init None) in
  retryAfterMs (fst (canMakeApiRequest (Examples.online 5400) s1)) = Some 600
  /\ allowed (fst (canMakeApiRequest (Examples.online 6000) s1)) = true.
Proof.
  intros s1.
  destruct (api_request_interval (Examples.online 5000) (Examples.online 5400) (init None)
              ltac:(discriminate)) as (_ & Hwait & _).
  destruct (api_request_interval (Examples.online 5000) (Examples.online 6000) (init None)
              ltac:(discriminate)) as (Hpass & _ & _).
  destruct (Hwait ltac:(vm_compute; reflexivity)) as [Hretry _].
  split; [exact Hretry |]. apply Hpass. vm_compute. discriminate.
Defined.

(** What the four checks answer on the default data, with no request
    recorded in this session. *)
Lemma checks_on_default h s :
  cachedData s = Some DEFAULT_RATE_LIMIT_DATA ->
  lastPairCodeRequestTime s = None ->
  allowed (fst (canRequestPairCode h s)) = true
  /\ allowed (fst (canLogout h s)) = true
  /\ allowed (fst (canLogin h s)) = true
  /\ allowed (fst (canMakeApiRequest h s)) = true.
Proof.
  intros Hc Hlast.
  unfold canRequestPairCode, canLogout, canLogin, canMakeApiRequest.
  rewrite (loadData_cached _ _ _ Hc), Hlast. by repeat split.
Qed.

(** X27.  [resetAllRateLimits] depends on the store.  It always forgets the
    time of the last pair-code request.  When the store can be written, the
    cache and the store hold the default data afterwards, and all four
    checks pass at any time.  When the store cannot be written, the cached
    data and the store are what they were: a pair-code lockout is still in
    force. *)
Theorem reset_depends_on_store (h : Host) (s : t) :
  let s1 := resetAllRateLimits h s in
  lastPairCodeRequestTime s1 = None
  /\ (saveOk h = true ->
      cachedData s1 = Some DEFAULT_RATE_LIMIT_DATA
      /\ stored s1 = Some DEFAULT_RATE_LIMIT_DATA
      /\ forall h',
           allowed (fst (canRequestPairCode h' s1)) = true
           /\ allowed (fst (canLogout h' s1)) = true
           /\ allowed (fst (canLogin h' s1)) = true
           /\ allowed (fst (canMakeApiRequest h' s1)) = true)
  /\ (saveOk h = false ->
      cachedData s1 = cachedData s
      /\ stored s1 = stored s
      /\ forall d h',
           cachedData s = Some d -> 5 <= pairCodeRequests d ->
           allowed (fst (canRequestPairCode h' s1)) = false).
Proof.
  intros s1. unfold s1, resetAllRateLimits, saveData.
  split; [by destruct (saveOk h) |]. split.
  - intros ->. split; [reflexivity |]. split; [reflexivity |].
    intros h'. by apply checks_on_default.
  - intros ->. split; [reflexivity |]. split; [reflexivity |].
    intros d h' Hc Hmany.
    apply (canRequestPairCode_denied h' (set_lastPairCodeRequestTime None s) d Hc Hmany).
Qed.

(** X28.  A reload keeps the counts and forgets the interval.  After a
    pair-code request was recorded and saved, a check within 30 seconds
    refuses.  When the module is loaded again over the same store and the
    store can be read, the count of unverified requests is the one that was
    saved, and the check within the same 30 seconds passes, provided the
    count is below 5 and no ban is recorded. *)
Theorem reload_keeps_counts_not_interval (h h' : Host) (s : t) (d : RateLimitData) :
  cachedData s = Some d ->
  saveOk h = true ->
  loadOk h' = true ->
  now h <> 0 ->
  now h' - now h < 30000 ->
  pairCodeRequests d + 1 < 5 ->
  pairCodeBannedUntil d = None ->
  let s1 := recordPairCodeRequest h s in
  allowed (fst (canRequestPairCode h' s1)) = false
  /\ fst (getPairCodeRequestCount h' (init (stored s1))) = pairCodeRequests d + 1
  /\ allowed (fst (canRequestPairCode h' (init (stored s1)))) = true.
Proof.
  intros Hc Hsave Hload Hne Hsoon Hfew Hban s1.
  assert (Hs1 : s1 = {| cachedData := Some (set_pairCodeRequests (pairCodeRequests d + 1) d);
                        lastPairCodeRequestTime := Some (now h);
                        stored := Some (set_pairCodeRequests (pairCodeRequests d + 1) d) |}).
  { unfold s1, recordPairCodeRequest. rewrite (loadData_cached _ _ _ Hc).
    unfold saveData. by rewrite Hsave. }
  assert (Htruthy : negb (now h =? 0) = true).
  { apply negb_true_iff. by apply Z.eqb_neq. }
  assert (Hlt : (now h' - now h <? MIN_PAIR_CODE_REQUEST_INTERVAL_MS) = true).
  { apply Z.ltb_lt. unfold MIN_PAIR_CODE_REQUEST_INTERVAL_MS. lia. }
  assert (Hleb : (MAX_PAIR_CODE_REQUESTS <=? pairCodeRequests d + 1) = false).
  { apply Z.leb_gt. unfold MAX_PAIR_CODE_REQUESTS. lia. }
  rewrite Hs1. unfold canRequestPairCode, getPairCodeRequestCount, loadData, init.
  simpl.
  repeat (first [rewrite Hload | rewrite Hban | rewrite Htruthy | rewrite Hlt
                 | rewrite Hleb]; simpl).
  by repeat split.
Qed.

(** X28 at a concrete input: the second request is recorded at 40000; a
    check at 50000 refuses, and passes after a reload. *)
Lemma reload_keeps_counts_not_interval_witness :
  let d := set_pairCodeRequests 1 DEFAULT_RATE_LIMIT_DATA in
  let s := {| cachedData := Some d; lastPairCodeRequestTime := Some 1000;
              stored := Some d |} in
  let s1 := recordPairCodeRequest (Examples.online 40000) s in
  allowed (fst (canRequestPairCode (Examples.online 50000) s1)) = false
  /\ fst (getPairCodeRequestCount (Examples.online 50000) (init (stored s1))) = 2
  /\ allowed (fst (canRequestPairCode (Examples.online 50000) (init (stored s1)))) = true.
Proof.
  intros d s.
  apply (reload_keeps_counts_not_interval (Examples.online 40000) (Examples.online 50000)
           s d eq_refl eq_refl eq_refl ltac:(discriminate) ltac:(vm_compute; reflexivity)
           ltac:(vm_compute; reflexivity) eq_refl).
Defined.

(** X29.  A record is kept in memory when the store fails, and a failed
    load replaces what was stored.  When the store cannot be written, a
    recorded logout still counts for the checks of this session while the
    store keeps its old value.  When the first load of a session fails, the
    module works on the default data, and the first successful save writes
    that data over whatever the store held. *)
Theorem store_failures (h h' : Host) (s : t) :
  (forall d, cachedData s = Some d -> saveOk h = false ->
     stored (recordLogout h s) = stored s
     /\ exists d', cachedData (recordLogout h s) = Some d'
                   /\ (logoutCount d' = 1 \/ logoutCount d' = logoutCount d + 1)
                   /\ logoutCountStartTime d' <> None)
  /\ (cachedData s = None -> loadOk h = false -> saveOk h = true ->
      stored (recordLogout h s)
      = Some (set_logout 1 (Some (now h)) DEFAULT_RATE_LIMIT_DATA)
      /\ fst (getPairCodeRequestCount h' (recordLogout h s)) = 0).
Proof.
  split.
  - intros d Hc Hsave. unfold recordLogout. rewrite (loadData_cached _ _ _ Hc).
    unfold saveData, assign. rewrite Hsave. simpl. split; [reflexivity |].
    destruct (negb _ || _) eqn:Hnew; simpl; eexists; (split; [reflexivity |]); simpl.
    + split; [by left | discriminate].
    + split; [by right |]. apply orb_false_iff in Hnew as [Htruthy _].
      destruct (logoutCountStartTime d); [discriminate | discriminate].
  - intros Hc Hload Hsave. unfold recordLogout, getPairCodeRequestCount, loadData.
    rewrite Hc, Hload. simpl. unfold saveData. rewrite Hsave. by split.
Qed.

End StoreProperties.
